(** * Workload environment subsystem of the node agent: a shallow embedding

    The development follows the Go sources of the agent:
    - [Limits]      resource limit conversion   (environment/settings_*.go)
    - [Stats]       memory and CPU normalisation (environment/docker/stats_*.go)
    - [Network]     network bootstrap           (environment/docker.go and
                                                 the two createDockerNetwork files)
    - [Filesystem]  DirectorySize and Chown     (server/filesystem)
    - [Poller]      Uptime and pollResources    (environment/docker)

    Machine integers are [Z] with the wrap-around written out, float64 values
    are the IEEE-754 binary64 numbers of the Standard Library's [SpecFloat],
    Go maps are [gmap]s, and the effects of the code (the container runtime,
    the configuration singleton, the file tree, the event bus) are explicit
    state. *)

From Stdlib Require Import ZArith Lia Bool List QArith Qround.
From Stdlib Require Import SpecFloat Ascii.
From stdpp Require Import base option list strings gmap.

Local Open Scope Z_scope.

(** ** Machine integers *)

Definition wrap_uint64 (z : Z) : Z := z mod 2 ^ 64.

(** Two's complement reading of the low 64 bits. *)
Definition wrap_int64 (z : Z) : Z := (z + 2 ^ 63) mod 2 ^ 64 - 2 ^ 63.

Definition max_int64 : Z := 2 ^ 63 - 1.
Definition min_int64 : Z := - 2 ^ 63.

Definition is_uint64 (z : Z) : Prop := 0 <= z < 2 ^ 64.
Definition is_int64 (z : Z) : Prop := min_int64 <= z <= max_int64.

(** ** Host families

    Several files of the agent exist twice, once per host family; the build
    picks one. The embedding keeps both and names them after the family. *)

Inductive host := Linux | Windows.

(** ** Resource limits *)

Module Limits.

(** The logical limits of a workload (the [Limits] struct). *)
Record Limits := mkLimits {
  MemoryLimit : Z;      (* int64, megabytes *)
  Swap : Z;             (* int64, megabytes, negative = unlimited *)
  IoWeight : Z;         (* uint16 *)
  CpuLimit : Z;         (* int64, percent of one core *)
  Threads : string;
  OOMDisabled : bool;
  PidLimit : Z          (* int64 *)
}.

(** [container.Resources], restricted to the fields the agent sets. A field
    left out of a Go struct literal holds its zero value. *)
Record Resources := mkResources {
  Memory : Z;
  MemoryReservation : Z;
  MemorySwap : Z;
  CPUQuota : Z;
  CPUPeriod : Z;
  CPUShares : Z;
  BlkioWeight : Z;
  OomKillDisable : option bool;
  CpusetCpus : string;
  PidsLimit : option Z
}.

(** Modelled from the spec: [Limits.BoundedMemoryLimit], whose source is not
    part of the files at hand. "memory bytes = MB x 1,000,000". *)
Definition BoundedMemoryLimit (l : Limits) : Z :=
  wrap_int64 (MemoryLimit l * 1000000).

(** Modelled from the spec: the sentinel of [Limits.ConvertedSwap] meaning
    "unlimited"; the data model gives it as -1. *)
Definition unlimited_swap : Z := -1.

(** Modelled from the spec: [Limits.ConvertedSwap], whose source is not part
    of the files at hand. "swap bytes computed as (memory + swap MB x
    1,000,000) when swap >= 0, or a sentinel meaning unlimited when
    swap < 0". *)
Definition ConvertedSwap (l : Limits) : Z :=
  if Swap l <? 0 then unlimited_swap
  else wrap_int64 (BoundedMemoryLimit l + Swap l * 1000000).

(** Modelled from the spec: [Limits.ConvertedCpuLimit], whose source is not
    part of the files at hand. "CPU quota = (CPU percent / 100) x fixed
    period of 100,000", the quotient taken in the rationals so that the
    quota is "directly proportional to percent". *)
Definition ConvertedCpuLimit (l : Limits) : Z :=
  wrap_int64 (Qfloor ((inject_Z (CpuLimit l) / inject_Z 100) * inject_Z 100000)%Q).

(** Modelled from the spec: [Limits.ProcessLimit], whose source is not part
    of the files at hand. "process limit passed through as a hard cap". *)
Definition ProcessLimit (l : Limits) : Z := PidLimit l.

(** environment/settings_linux.go, [AsContainerResources]. *)
Definition AsContainerResources_linux (l : Limits) : Resources :=
  let pids := ProcessLimit l in
  {| Memory := BoundedMemoryLimit l;
     MemoryReservation := wrap_int64 (MemoryLimit l * 1000000);
     MemorySwap := ConvertedSwap l;
     CPUQuota := ConvertedCpuLimit l;
     CPUPeriod := 100000;
     CPUShares := 1024;
     BlkioWeight := IoWeight l;
     OomKillDisable := Some (OOMDisabled l);
     CpusetCpus := Threads l;
     PidsLimit := Some pids |}.

(** The second [AsContainerResources] (the build for the other host family,
    beside [resources] of container_windows.go): only four fields are set. *)
Definition AsContainerResources_windows (l : Limits) : Resources :=
  {| Memory := BoundedMemoryLimit l;
     MemoryReservation := 0;
     MemorySwap := 0;
     CPUQuota := ConvertedCpuLimit l;
     CPUPeriod := 0;
     CPUShares := 1024;
     BlkioWeight := 0;
     OomKillDisable := None;
     CpusetCpus := Threads l;
     PidsLimit := None |}.

Definition AsContainerResources (h : host) (l : Limits) : Resources :=
  match h with
  | Linux => AsContainerResources_linux l
  | Windows => AsContainerResources_windows l
  end.

(** The limits of the scenario: 512 MB, unlimited swap, 150 percent. *)
Definition scenario_limits (io : Z) (threads : string) (oom : bool) (pids : Z) : Limits :=
  {| MemoryLimit := 512; Swap := -1; IoWeight := io; CpuLimit := 150;
     Threads := threads; OOMDisabled := oom; PidLimit := pids |}.

End Limits.

(** ** Binary64 floating point and time

    Go's [float64] is IEEE-754 binary64; its values and operations are the
    ones [SpecFloat] specifies at precision 53 and maximal exponent 1024. *)

Module F64.

Definition float64 := spec_float.

Definition prec : Z := 53.
Definition emax : Z := 1024.

(** Conversion of an integer, [float64(n)]: round to nearest, ties to even. *)
Definition of_Z (z : Z) : float64 := binary_normalize prec emax z 0 false.

Definition zero : float64 := S754_zero false.

Definition sub (x y : float64) : float64 := SFsub prec emax x y.
Definition mul (x y : float64) : float64 := SFmul prec emax x y.
Definition div (x y : float64) : float64 := SFdiv prec emax x y.
Definition ltb (x y : float64) : bool := SFltb x y.
Definition leb (x y : float64) : bool := SFleb x y.
Definition eqb (x y : float64) : bool := SFeqb x y.

(** [math.Round] of Go's library: the nearest integer, halves rounded away
    from zero; zeros, infinities and NaN are returned as they are, and the
    sign of the argument is kept when the result is zero. *)
Definition Round (x : float64) : float64 :=
  match x with
  | S754_finite s m e =>
      if 0 <=? e then x
      else
        let t := Z.shiftr (Zpos m) (- e) in
        let frac := Zpos m - Z.shiftl t (- e) in
        let r := if Z.shiftl 1 (- e - 1) <=? frac then t + 1 else t in
        binary_normalize prec emax (cond_Zopp s r) 0 s
  | _ => x
  end.

(** What [n] steps of [shr_1] leave: the quotient, the last bit shifted
    out, and whether anything below it was set. *)
Definition shr_spec (n : Z) (mrs : shr_record) : shr_record :=
  Build_shr_record (shr_m mrs / 2 ^ n) (Z.testbit (shr_m mrs) (n - 1))
    (negb (shr_m mrs mod 2 ^ (n - 1) =? 0) || (shr_r mrs || shr_s mrs)).

(** The integer nearest to [a] among those of 53 significant bits, ties to
    the even one. *)
Definition round53 (a : Z) : Z :=
  let n := Z.log2 a + 1 - 53 in
  if n <=? 0 then a
  else
    let q := a / 2 ^ n in
    let rem := a mod 2 ^ n in
    let half := 2 ^ (n - 1) in
    let up := (half <? rem) || ((rem =? half) && Z.odd q) in
    (if up then q + 1 else q) * 2 ^ n.

End F64.

Module Time.

(** A [time.Time] is an instant; it is counted here in nanoseconds from the
    zero instant of the type (the value [IsZero] recognises). *)
Definition Time := Z.

(** A [time.Duration] is an int64 count of nanoseconds. *)
Definition Duration := Z.

Definition IsZero (t : Time) : bool := t =? 0.

(** [t.Sub(u)]: the difference, saturated at the bounds of int64. *)
Definition Sub (t u : Time) : Duration :=
  Z.max min_int64 (Z.min max_int64 (t - u)).

Definition Nanoseconds (d : Duration) : Z := d.

(** Integer division of Go truncates towards zero. *)
Definition Milliseconds (d : Duration) : Z := Z.quot d 1000000.

End Time.

(** ** Statistics normalisation *)

Module Stats.

Import F64.

Record MemoryStats := mkMemoryStats {
  Usage : Z;                         (* uint64 *)
  Limit : Z;                         (* uint64 *)
  MStats : gmap string Z;            (* map[string]uint64, the field Stats *)
  PrivateWorkingSet : Z              (* uint64 *)
}.

Record CPUUsage := mkCPUUsage {
  TotalUsage : Z;                    (* uint64 *)
  PercpuUsage : list Z               (* []uint64 *)
}.

Record CPUStats := mkCPUStats {
  CPUUsage_ : CPUUsage;
  SystemUsage : Z;                   (* uint64 *)
  OnlineCPUs : Z                     (* uint32 *)
}.

Record NetworkStats := mkNetworkStats {
  RxBytes : Z;                       (* uint64 *)
  TxBytes : Z                        (* uint64 *)
}.

Record StatsJSON := mkStatsJSON {
  Read : Time.Time;
  PreRead : Time.Time;
  NumProcs : Z;                      (* uint32 *)
  CPUStats_ : CPUStats;
  PreCPUStats : CPUStats;
  MemoryStats_ : MemoryStats;
  Networks : gmap string NetworkStats
}.

(** Reading a Go map at a missing key gives the zero value. *)
Definition map_get (m : gmap string Z) (k : string) : Z := default 0 (m !! k).

(** stats_linux.go, [calculateDockerMemory]. *)
Definition calculateDockerMemory_linux (stats : MemoryStats) : Z :=
  let fallback :=
    let v := map_get (MStats stats) "inactive_file" in
    if v <? Usage stats then wrap_uint64 (Usage stats - v) else Usage stats in
  match MStats stats !! "total_inactive_file" with
  | Some v => if v <? Usage stats then wrap_uint64 (Usage stats - v) else fallback
  | None => fallback
  end.

(** stats_windows.go, [calculateDockerMemory]. *)
Definition calculateDockerMemory_windows (stats : MemoryStats) : Z :=
  PrivateWorkingSet stats.

(** The two deltas and the core count of stats_linux.go. *)
Definition cpuDelta (v : StatsJSON) : float64 :=
  sub (of_Z (TotalUsage (CPUUsage_ (CPUStats_ v))))
      (of_Z (TotalUsage (CPUUsage_ (PreCPUStats v)))).

Definition systemDelta (v : StatsJSON) : float64 :=
  sub (of_Z (SystemUsage (CPUStats_ v))) (of_Z (SystemUsage (PreCPUStats v))).

Definition cpus (v : StatsJSON) : float64 :=
  let c := of_Z (OnlineCPUs (CPUStats_ v)) in
  if eqb c zero
  then of_Z (Z.of_nat (length (PercpuUsage (CPUUsage_ (CPUStats_ v)))))
  else c.

(** stats_linux.go, [calculateDockerAbsoluteCpu]. *)
Definition calculateDockerAbsoluteCpu_linux (v : StatsJSON) : float64 :=
  let percent :=
    if ltb zero (systemDelta v) && ltb zero (cpuDelta v)
    then mul (mul (div (cpuDelta v) (systemDelta v)) (cpus v)) (of_Z 100)
    else zero in
  div (Round (mul percent (of_Z 1000))) (of_Z 1000).

(** The two interval counts of stats_windows.go. *)
Definition possIntervals (v : StatsJSON) : Z :=
  let p0 := wrap_uint64 (Time.Nanoseconds (Time.Sub (Read v) (PreRead v))) in
  let p1 := p0 / 100 in
  wrap_uint64 (p1 * wrap_uint64 (NumProcs v)).

Definition intervalsUsed (v : StatsJSON) : Z :=
  wrap_uint64 (TotalUsage (CPUUsage_ (CPUStats_ v))
               - TotalUsage (CPUUsage_ (PreCPUStats v))).

(** stats_windows.go, [calculateDockerAbsoluteCpu]. *)
Definition calculateDockerAbsoluteCpu_windows (v : StatsJSON) : float64 :=
  if 0 <? possIntervals v
  then mul (div (of_Z (intervalsUsed v)) (of_Z (possIntervals v))) (of_Z 100)
  else zero.

(** The counters of the memory block are uint64 values. *)
Definition counters_ok (stats : MemoryStats) : Prop :=
  is_uint64 (Usage stats)
  /\ forall k v, MStats stats !! k = Some v -> is_uint64 v.

(** A reading is well formed when every counter is in the range of its
    type. *)
Definition uint32_ok (z : Z) : Prop := 0 <= z < 2 ^ 32.

Definition cpu_ok (c : CPUStats) : Prop :=
  is_uint64 (TotalUsage (CPUUsage_ c)) /\ is_uint64 (SystemUsage c)
  /\ uint32_ok (OnlineCPUs c).

Definition reading_ok (v : StatsJSON) : Prop :=
  cpu_ok (CPUStats_ v) /\ cpu_ok (PreCPUStats v) /\ uint32_ok (NumProcs v).

(** A memory block with both counters below the usage. *)
Definition memory_with_cache : MemoryStats :=
  mkMemoryStats 1000 4096
    (<["total_inactive_file" := 300]> (<["inactive_file" := 100]> ∅)) 0.

(** A memory block whose first counter is not below the usage while the
    second is, and one that holds neither counter. *)
Definition memory_with_large_total : MemoryStats :=
  mkMemoryStats 1000 4096
    (<["total_inactive_file" := 5000]> (<["inactive_file" := 100]> ∅)) 0.

Definition memory_without_counters : MemoryStats :=
  mkMemoryStats 1000 4096 ∅ 0.

(** Two readings one second apart on two processors, between which the
    CPU counter of the container went down from 1000 to 500. *)
Definition reading_counter_went_down : StatsJSON :=
  let cpu total := mkCPUStats (mkCPUUsage total []) 0 2 in
  mkStatsJSON 63000000001000000000 63000000000000000000 2
              (cpu 500) (cpu 1000)
              (mkMemoryStats 0 0 ∅ 0) ∅.

(** Two readings fifty nanoseconds apart, and two readings of which the
    later one carries the earlier instant, both on four processors. *)
Definition reading_fifty_nanoseconds : StatsJSON :=
  let cpu total := mkCPUStats (mkCPUUsage total []) 0 4 in
  mkStatsJSON 63000000000000000050 63000000000000000000 4
              (cpu 900) (cpu 500) (mkMemoryStats 0 0 ∅ 0) ∅.

Definition reading_clock_went_back : StatsJSON :=
  let cpu total := mkCPUStats (mkCPUUsage total []) 0 4 in
  mkStatsJSON 63000000000000000000 63000000001000000000 4
              (cpu 900) (cpu 500) (mkMemoryStats 0 0 ∅ 0) ∅.

End Stats.

(** ** Network bootstrap *)

Module Network.

Record ipPair := mkIpPair { Subnet : string; Gateway : string }.

Record dockerNetworkInterfaces := mkInterfaces { V4 : ipPair; V6 : ipPair }.

(** config.DockerNetworkConfiguration. *)
Record DockerNetworkConfiguration := mkNetCfg {
  Interface : string;
  Dns : list string;
  Name : string;
  ISPN : bool;
  Driver : string;
  Mode : string;
  IsInternal : bool;
  EnableICC : bool;
  Interfaces : dockerNetworkInterfaces
}.

Definition set_Interface (i : string) (c : DockerNetworkConfiguration) :=
  mkNetCfg i (Dns c) (Name c) (ISPN c) (Driver c) (Mode c) (IsInternal c)
           (EnableICC c) (Interfaces c).
Definition set_ISPN (b : bool) (c : DockerNetworkConfiguration) :=
  mkNetCfg (Interface c) (Dns c) (Name c) b (Driver c) (Mode c) (IsInternal c)
           (EnableICC c) (Interfaces c).
Definition set_Driver (d : string) (c : DockerNetworkConfiguration) :=
  mkNetCfg (Interface c) (Dns c) (Name c) (ISPN c) d (Mode c) (IsInternal c)
           (EnableICC c) (Interfaces c).

(** The part of types.NetworkResource the agent reads. *)
Record NetworkResource := mkResource { RName : string; RDriver : string }.

(** The zero value of the struct, which the client returns beside an error. *)
Definition zero_resource : NetworkResource := mkResource "" "".

(** types.NetworkCreate together with its IPAM block. *)
Record NetworkCreate := mkCreate {
  CDriver : string;
  CEnableIPv6 : bool;
  CInternal : bool;
  CIPAMDriver : string;
  CIPAMConfig : list ipPair;
  COptions : list (string * string)
}.

Inductive error :=
| ErrNotFound                 (* recognised by client.IsErrNotFound *)
| ErrDaemon (msg : string)    (* any other error of the runtime *)
| ErrWrapped (msg : string) (e : error).

Definition IsErrNotFound (e : error) : bool :=
  match e with ErrNotFound => true | _ => false end.

(** How a call of the agent ends: with nil, with an error, or in a panic of
    the Go runtime. *)
Inductive outcome := Done | Failed (e : error) | Panicked.

(** The state the bootstrap reads and writes: the client singleton with its
    [sync.Once], the container runtime behind the client, and the
    configuration singleton. [creates] records every NetworkCreate call that
    was sent, in order, oldest first. *)
Record World := mkWorld {
  once_done : bool;
  client : bool;                 (* _client is non-nil *)
  client_constructs : bool;      (* whether NewClientWithOpts succeeds *)
  reachable : bool;              (* whether the runtime answers *)
  default_driver : string;       (* the driver the runtime uses for "" *)
  networks : gmap string NetworkResource;
  creates : list (string * NetworkCreate);
  config : DockerNetworkConfiguration
}.

Definition with_config (c : DockerNetworkConfiguration) (w : World) : World :=
  mkWorld (once_done w) (client w) (client_constructs w) (reachable w)
          (default_driver w) (networks w) (creates w) c.

(** config.Update: the callback is applied to the live configuration. *)
Definition config_Update (f : DockerNetworkConfiguration -> DockerNetworkConfiguration)
    (w : World) : World :=
  with_config (f (config w)) w.

(** environment/docker.go, [Docker]: the body of the [Once] runs on the first
    call only, and the error is a local of the call that ran it. *)
Definition Docker (w : World) : World * bool * option error :=
  if once_done w then (w, client w, None)
  else
    let w' := mkWorld true (client_constructs w) (client_constructs w)
                      (reachable w) (default_driver w) (networks w)
                      (creates w) (config w) in
    (w', client w',
     if client_constructs w then None
     else Some (ErrWrapped "environment/docker: could not create client"
                           (ErrDaemon "client"))).

(** The runtime's NetworkInspect: the resource of that name, or the zero
    resource and an error. *)
Definition NetworkInspect (w : World) (name : string)
    : NetworkResource * option error :=
  if negb (reachable w) then (zero_resource, Some (ErrDaemon "unreachable"))
  else match networks w !! name with
       | Some r => (r, None)
       | None => (zero_resource, Some ErrNotFound)
       end.

(** The runtime's NetworkCreate: the call is sent; it is refused when the
    runtime is unreachable, the name is empty or the name is taken. *)
Definition NetworkCreate_call (w : World) (name : string) (req : NetworkCreate)
    : World * option error :=
  let sent := creates w ++ [(name, req)] in
  let log nets := mkWorld (once_done w) (client w) (client_constructs w)
                          (reachable w) (default_driver w) nets sent (config w) in
  if negb (reachable w) then (log (networks w), Some (ErrDaemon "unreachable"))
  else if (name =? "")%string then (log (networks w), Some (ErrDaemon "invalid name"))
  else match networks w !! name with
       | Some _ => (log (networks w), Some (ErrDaemon "network exists"))
       | None =>
           let d := if (CDriver req =? "")%string then default_driver w
                    else CDriver req in
           (log (<[name := mkResource name d]> (networks w)), None)
       end.

Definition FormatBool (b : bool) : string := if b then "true" else "false".

(** The request of each of the two [createDockerNetwork] files. *)
Definition create_request (h : host) (nw : DockerNetworkConfiguration)
    : NetworkCreate :=
  let ipam := [ mkIpPair (Subnet (V4 (Interfaces nw))) (Gateway (V4 (Interfaces nw)));
                mkIpPair (Subnet (V6 (Interfaces nw))) (Gateway (V6 (Interfaces nw))) ] in
  match h with
  | Linux =>
      mkCreate (Driver nw) true (IsInternal nw) "" ipam
        [ ("encryption", "false");
          ("com.docker.network.bridge.default_bridge", "false");
          ("com.docker.network.bridge.enable_icc", FormatBool (EnableICC nw));
          ("com.docker.network.bridge.enable_ip_masquerade", "true");
          ("com.docker.network.bridge.host_binding_ipv4", "0.0.0.0");
          ("com.docker.network.bridge.name", "pterodactyl0");
          ("com.docker.network.driver.mtu", "1500") ]
  | Windows =>
      mkCreate (Driver nw) false (IsInternal nw) "windows" ipam
        [ ("com.docker.network.windowsshim.networkname", "pterodactyl0") ]
  end.

Definition special_driver (d : string) : bool :=
  (d =? "host")%string || (d =? "overlay")%string || (d =? "weavemesh")%string.

(** [createDockerNetwork]. *)
Definition createDockerNetwork (h : host) (w : World) : World * option error :=
  let nw := config w in
  let '(w1, err) := NetworkCreate_call w (Name nw) (create_request h nw) in
  match err with
  | Some e => (w1, Some e)
  | None =>
      if negb (special_driver (Driver nw))
      then (config_Update (fun c => set_Interface (Gateway (V4 (Interfaces c))) c) w1,
            None)
      else (w1, None)
  end.

(** The callback [ConfigureDocker] hands to config.Update. *)
Definition apply_driver (resource : NetworkResource)
    (c : DockerNetworkConfiguration) : DockerNetworkConfiguration :=
  let c := set_Driver (RDriver resource) c in
  if (Driver c =? "host")%string then set_ISPN false (set_Interface "127.0.0.1" c)
  else if (Driver c =? "overlay")%string || (Driver c =? "weavemesh")%string
  then set_ISPN true (set_Interface "" c)
  else set_ISPN false c.

(** environment/docker.go, [ConfigureDocker]. *)
Definition ConfigureDocker (h : host) (w : World) : World * outcome :=
  let '(w0, cli, err) := Docker w in
  match err with
  | Some e => (w0, Failed e)
  | None =>
      if negb cli then (w0, Panicked)
      else
        let nw := config w0 in
        let '(resource, ierr) := NetworkInspect w0 (Name nw) in
        match ierr with
        | Some e =>
            if IsErrNotFound e then
              let '(w1, cerr) := createDockerNetwork h w0 in
              match cerr with
              | Some e' => (w1, Failed e')
              | None => (config_Update (apply_driver resource) w1, Done)
              end
            else (w0, Failed e)
        | None => (config_Update (apply_driver resource) w0, Done)
        end
  end.

(** How many NetworkCreate calls were sent so far. *)
Definition create_calls (w : World) : nat := length (creates w).

(** The client can be had: it was built before, or it can be built now. *)
Definition client_ready (w : World) : bool :=
  if once_done w then client w else client_constructs w.

(** A configuration as the defaults of one host family give it, and two
    worlds around it: one where the runtime has no network yet, one where
    the network is there, made by the overlay driver. *)
Definition default_config : DockerNetworkConfiguration :=
  mkNetCfg "172.18.0.1" ["1.1.1.1"; "1.0.0.1"] "pterodactyl_nw" false "nat"
           "pterodactyl_nw" false true
           (mkInterfaces (mkIpPair "172.18.0.0/16" "172.18.0.1")
                         (mkIpPair "fdba:17c8:6c94::/64" "fdba:17c8:6c94::1011")).

Definition fresh_world : World :=
  mkWorld false false true true "bridge" ∅ [] default_config.

Definition overlay_world : World :=
  mkWorld false false true true "bridge"
          {[ "pterodactyl_nw" := mkResource "pterodactyl_nw" "overlay" ]} []
          default_config.

(** Two calls of [ConfigureDocker], one after the other. *)
Definition ConfigureDocker_twice (h : host) (w : World) : World * outcome * outcome :=
  let '(w1, o1) := ConfigureDocker h w in
  let '(w2, o2) := ConfigureDocker h w1 in
  (w2, o1, o2).

(** A world whose runtime does not answer, and one whose client could not
    be built. *)
Definition unreachable_world : World :=
  mkWorld false false true false "bridge" ∅ [] default_config.

Definition clientless_world : World :=
  mkWorld false false false true "bridge" ∅ [] default_config.

End Network.

(** ** Filesystem jail: the file tree and the two directory walkers *)

Module Filesystem.

Inductive fs_error :=
| PathResolution (p : string)          (* the code ErrCodePathResolution *)
| IOError (p : string)                 (* any other failure of the system *)
| NotADirectory (p : string)
| SidError (s : string)
| Wrap (msg : string) (e : fs_error).

(** Modelled from the spec: [IsErrorCode] with [ErrCodePathResolution],
    whose source is not part of the files at hand. "a PathEscape is a
    distinct, identifiable error kind from a generic I/O failure". *)
Definition IsErrorCode_PathResolution (e : fs_error) : bool :=
  match e with PathResolution _ => true | _ => false end.

(** What a directory entry looks like to a walker that does not follow
    links: the mode bits of Lstat, the size of Lstat, and whether the
    directory can be listed. On one host family a link to a directory
    carries both mode bits. *)
Record Dirent := mkDirent {
  name : string;
  is_dir : bool;
  is_symlink : bool;
  lsize : Z;            (* int64 *)
  readable : bool
}.

(** A file tree. The children of a directory are in the order in which the
    walker at hand reads them. *)
Inductive node :=
| Node (d : Dirent) (children : forest)
with forest :=
| Nil
| Cons (n : node) (rest : forest).

Scheme node_forest_ind := Induction for node Sort Prop
  with forest_node_ind := Induction for forest Sort Prop.
Combined Scheme tree_ind from node_forest_ind, forest_node_ind.

Definition dirent (n : node) : Dirent := match n with Node d _ => d end.
Definition children (n : node) : forest := match n with Node _ c => c end.

Definition Join (dir base : string) : string := (dir ++ "/" ++ base)%string.

(** The [Filesystem] of a server. [SafePath] is the jail's path check, whose
    source is not part of the files at hand: it is a field here, and claims
    state what they need of it. The remaining fields are the surroundings
    [Chown] reads: the two owner identifiers after their conversion, and the
    paths on which the system refuses a change of owner. *)
Record Filesystem := mkFs {
  SafePath : string -> string + fs_error;
  isTest : bool;
  uSid : string + fs_error;
  gSid : string + fs_error;
  denied : string -> bool
}.

(** *** godirwalk.Walk with its default options *)

(** What a callback returns: nil, the SkipThis token, or an error. *)
Inductive cb_result := CbNil | CbSkipThis | CbErr (e : fs_error).

Section Godirwalk.
Context {S : Type}.
Variable Callback : string -> Dirent -> S -> S * cb_result.

(** The recursive [walk] of the library: the callback first; SkipThis and
    errors go up (the default error callback halts); links are not
    followed; the children of a directory are walked in order, and a
    child answering SkipThis does not stop its siblings. *)
Fixpoint walk (p : string) (n : node) (s : S) {struct n} : S * cb_result :=
  match n with
  | Node d ch =>
      let '(s1, r) := Callback p d s in
      match r with
      | CbNil =>
          if is_symlink d then (s1, CbNil)
          else if negb (is_dir d) then (s1, CbNil)
          else if negb (readable d) then (s1, CbErr (IOError p))
          else walk_children p ch s1
      | CbSkipThis => (s1, CbSkipThis)
      | CbErr e => (s1, CbErr e)
      end
  end
with walk_children (p : string) (f : forest) (s : S) {struct f} : S * cb_result :=
  match f with
  | Nil => (s, CbNil)
  | Cons n rest =>
      let '(s1, r) := walk (Join p (name (dirent n))) n s in
      match r with
      | CbNil | CbSkipThis => walk_children p rest s1
      | CbErr e => (s1, CbErr e)
      end
  end.

(** [godirwalk.Walk]: the root has to be a directory; SkipThis from the
    root is silenced. *)
Definition Walk (p : string) (root : node) (s : S) : S * option fs_error :=
  if negb (is_dir (dirent root)) then (s, Some (NotADirectory p))
  else
    let '(s1, r) := walk p root s in
    match r with
    | CbNil | CbSkipThis => (s1, None)
    | CbErr e => (s1, Some e)
    end.
End Godirwalk.

(** *** filepath.Walk *)

Section FilepathWalk.
Context {S : Type}.
(** The callback gets the entry, as Lstat describes it, and the error met
    on the way to it. A directory is listed before the callback sees it;
    a failed listing is handed to the callback and ends the walk of that
    directory. *)
Variable walkFn : string -> Dirent -> option fs_error -> S -> S * option fs_error.

Fixpoint fwalk (p : string) (n : node) (s : S) {struct n} : S * option fs_error :=
  match n with
  | Node d ch =>
      if negb (is_dir d) then walkFn p d None s
      else
        let listing := if readable d then None else Some (IOError p) in
        let '(s1, err1) := walkFn p d listing s in
        match listing, err1 with
        | None, None => fwalk_children p ch s1
        | _, _ => (s1, err1)
        end
  end
with fwalk_children (p : string) (f : forest) (s : S) {struct f} : S * option fs_error :=
  match f with
  | Nil => (s, None)
  | Cons n rest =>
      let '(s1, err) := fwalk (Join p (name (dirent n))) n s in
      match err with
      | None => fwalk_children p rest s1
      | Some e => (s1, Some e)
      end
  end.
End FilepathWalk.

(** errors.WrapIf and errors.Wrap keep nil. *)
Definition WrapIf (err : option fs_error) (msg : string) : option fs_error :=
  match err with Some e => Some (Wrap msg e) | None => None end.

(** *** DirectorySize *)

(** The callback of server/filesystem/disk_space_linux.go. *)
Definition size_callback (fs : Filesystem) (p : string) (e : Dirent) (size : Z)
    : Z * cb_result :=
  let count :=
    if negb (is_dir e) then (wrap_int64 (size + lsize e), CbNil)
    else (size, CbNil) in
  if is_symlink e then
    match SafePath fs p with
    | inr err =>
        if IsErrorCode_PathResolution err then (size, CbSkipThis)
        else (size, CbErr err)
    | inl _ => count
    end
  else count.

(** server/filesystem/disk_space_linux.go, [DirectorySize]. [root] is the
    tree found at the resolved path. *)
Definition DirectorySize_linux (fs : Filesystem) (dir : string) (root : node)
    : Z * option fs_error :=
  match SafePath fs dir with
  | inr err => (0, Some err)
  | inl d =>
      let '(size, err) := Walk (size_callback fs) d root 0 in
      (size, WrapIf err "server/filesystem: directorysize: failed to walk directory")
  end.

(** The callback of the second [DirectorySize]. *)
Definition size_walkFn (p : string) (info : Dirent) (err : option fs_error)
    (size : Z) : Z * option fs_error :=
  match err with
  | Some e => (size, Some e)
  | None =>
      if negb (is_dir info) then (wrap_int64 (size + lsize info), None)
      else (size, None)
  end.

(** The second [DirectorySize], on filepath.Walk. *)
Definition DirectorySize_windows (fs : Filesystem) (dir : string) (root : node)
    : Z * option fs_error :=
  match SafePath fs dir with
  | inr err => (0, Some err)
  | inl d =>
      let '(size, err) := fwalk size_walkFn d root 0 in
      (size, WrapIf err "server/filesystem: directorysize: failed to walk directory")
  end.

Definition DirectorySize (h : host) : Filesystem -> string -> node -> Z * option fs_error :=
  match h with
  | Linux => DirectorySize_linux
  | Windows => DirectorySize_windows
  end.

(** *** Chown *)

(** Setting the owner of a path (SetNamedSecurityInfo with the owner
    information): the log of the paths whose owner was set grows, oldest
    first, unless the system refuses. *)
Definition set_owner (fs : Filesystem) (p : string) (owned : list string)
    : list string * option fs_error :=
  if denied fs p then (owned, Some (IOError p)) else (owned ++ [p], None).

(** The callback of [Chown]. *)
Definition chown_callback (fs : Filesystem) (p : string) (e : Dirent)
    (owned : list string) : list string * cb_result :=
  if is_symlink e then
    if is_dir e then (owned, CbSkipThis) else (owned, CbNil)
  else
    match set_owner fs p owned with
    | (owned', None) => (owned', CbNil)
    | (owned', Some err) => (owned', CbErr err)
    end.

(** [Chown]. [root] is the tree found at the resolved path, as Lstat and the
    listing of directories show it, which is what the walker reads. [stat] is
    what [os.Stat] answers for the resolved path: it follows links, so at a
    link it tells of the target; [None] is a call that failed, [Some b] one
    that succeeded, [b] being its IsDir. The result is the log of the owner
    changes made and the error returned. *)
Definition Chown (fs : Filesystem) (path : string) (stat : option bool) (root : node)
    : list string * option fs_error :=
  match SafePath fs path with
  | inr err => ([], Some err)
  | inl cleaned =>
      if isTest fs then ([], None)
      else
        match uSid fs with
        | inr err => ([], Some err)
        | inl _ =>
            match gSid fs with
            | inr err => ([], Some err)
            | inl _ =>
                match set_owner fs cleaned [] with
                | (owned, Some err) =>
                    (owned, Some (Wrap "server/filesystem: chown: failed to chown path" err))
                | (owned, None) =>
                    let stat_failed :=
                      match stat with None => true | Some _ => false end in
                    let st_IsDir :=
                      match stat with Some b => b | None => false end in
                    if stat_failed || negb st_IsDir then (owned, None)
                    else
                      let '(owned', err) := Walk (chown_callback fs) cleaned root owned in
                      (owned',
                       WrapIf err "server/filesystem: chown: failed to chown during walk function")
                end
            end
        end
  end.

(** *** Where the entries of a tree are *)

(** [In_forest n f]: the node [n] is one of the forest [f]. *)
Inductive In_forest : node -> forest -> Prop :=
| in_head n rest : In_forest n (Cons n rest)
| in_tail n m rest : In_forest n rest -> In_forest n (Cons m rest).

(** [reaches p n q m]: below the node [n] at path [p], the node [m] is at path
    [q], and every node passed on the way down from [n] to [m], [n] included
    and [m] excluded, is a directory that is not a link. *)
Inductive reaches : string -> node -> string -> node -> Prop :=
| reaches_here p n : reaches p n p n
| reaches_down p d ch q m c :
    is_dir d = true -> is_symlink d = false ->
    In_forest c ch ->
    reaches (Join p (name (dirent c))) c q m ->
    reaches p (Node d ch) q m.

(** A jail at /volumes/srv whose path check refuses the link named out,
    and a tree below it: a file of 100 bytes, that link, and a directory
    holding a file and a link to a file. *)
Definition jail : Filesystem :=
  mkFs (fun p => if (p =? "srv")%string then inl "/volumes/srv"
                 else if (p =? "/volumes/srv/out")%string then inr (PathResolution p)
                 else inl p)
       false (inl "S-1-5-21-1004") (inl "S-1-5-21-513") (fun _ => false).

Definition root_entry : Dirent := mkDirent "srv" true false 4096 true.
Definition file_entry : Dirent := mkDirent "world.dat" false false 100 true.
Definition link_entry : Dirent := mkDirent "out" false true 9 true.

Definition small_tree : node :=
  Node root_entry (Cons (Node file_entry Nil) (Cons (Node link_entry Nil) Nil)).

Definition deep_tree : node :=
  Node root_entry
    (Cons (Node file_entry Nil)
    (Cons (Node (mkDirent "out" true true 0 true)
                (Cons (Node (mkDirent "passwd" false false 2000 true) Nil) Nil))
    (Cons (Node (mkDirent "logs" true false 4096 true)
                (Cons (Node (mkDirent "latest.log" false false 50 true) Nil)
                (Cons (Node (mkDirent "current" false true 10 true) Nil) Nil)))
     Nil))).

(** An entry that is not a link. *)
Definition plain (m : node) : Prop := is_symlink (dirent m) = false.

(** The tree with everything below its links cut off. *)
Fixpoint prune_links (n : node) : node :=
  match n with
  | Node d ch => if is_symlink d then Node d Nil else Node d (prune_forest ch)
  end
with prune_forest (f : forest) : forest :=
  match f with
  | Nil => Nil
  | Cons n rest => Cons (prune_links n) (prune_forest rest)
  end.

(** No entry of the tree carries the directory bit and the link bit at once,
    looking no further than the links. *)
Fixpoint no_dir_links (n : node) : bool :=
  match n with
  | Node d ch =>
      if is_symlink d then negb (is_dir d) else no_dir_links_forest ch
  end
with no_dir_links_forest (f : forest) : bool :=
  match f with
  | Nil => true
  | Cons n rest => no_dir_links n && no_dir_links_forest rest
  end.

(** A server root that is a regular file. *)
Definition file_root : node := Node (mkDirent "srv" false false 250 true) Nil.

(** A server root that is a link to a directory holding one file, the link
    carrying both mode bits. *)
Definition link_root : node :=
  Node (mkDirent "srv" true true 0 true) (Cons (Node file_entry Nil) Nil).


Definition linked_tree : node :=
  Node root_entry
    (Cons (Node file_entry Nil)
    (Cons (Node (mkDirent "logs" true false 4096 true)
                (Cons (Node (mkDirent "latest.log" false false 50 true) Nil)
                (Cons (Node (mkDirent "current" false true 10 true) Nil) Nil)))
     Nil)).

(** A jail in which the owner of one file cannot be changed. *)
Definition locked_jail : Filesystem :=
  mkFs (fun p => if (p =? "srv")%string then inl "/volumes/srv" else inl p)
       false (inl "S-1-5-21-1004") (inl "S-1-5-21-513")
       (fun p => (p =? "/volumes/srv/logs/latest.log")%string).





(** Two trees that hold the same entries, the children of every directory
    in any order: what two walkers see of one directory when they do not
    read its entries in the same order. *)
Inductive same_tree : node -> node -> Prop :=
| same_node d ch ch' : same_forest ch ch' -> same_tree (Node d ch) (Node d ch')
with same_forest : forest -> forest -> Prop :=
| same_nil : same_forest Nil Nil
| same_cons n n' f f' :
    same_tree n n' -> same_forest f f' -> same_forest (Cons n f) (Cons n' f')
| same_swap a b f : same_forest (Cons a (Cons b f)) (Cons b (Cons a f))
| same_trans f g k : same_forest f g -> same_forest g k -> same_forest f k.

Scheme same_tree_forest_ind := Induction for same_tree Sort Prop
  with same_forest_tree_ind := Induction for same_forest Sort Prop.
Combined Scheme same_ind from same_tree_forest_ind, same_forest_tree_ind.


(** Below [n] no change of owner is refused and every directory can be
    listed, the links and what is below them left aside. *)
Definition nothing_refused (fs : Filesystem) (p : string) (n : node) : Prop :=
  forall q m, reaches p n q m -> plain m ->
    denied fs q = false
    /\ (is_dir (dirent m) = true -> readable (dirent m) = true).

End Filesystem.

(** ** The statistics poller *)

Module Poller.

Import Stats.

(** environment.ProcessState. *)
Inductive ProcessState := Offline | Starting | Running | Stopping.

Definition is_offline (s : ProcessState) : bool :=
  match s with Offline => true | _ => false end.

Inductive error :=
| ErrRuntime (msg : string)             (* an error of the container runtime *)
| ErrParse (s : string)                 (* time.Parse refused the text *)
| ErrEOF                                (* io.EOF *)
| ErrCanceled                           (* context.Canceled *)
| ErrDeadline                           (* context.DeadlineExceeded *)
| ErrNew (msg : string)                 (* errors.New *)
| ErrWrap (msg : string) (e : error).   (* errors.Wrap *)

(** The part of a container inspection [Uptime] reads. *)
Record ContainerState := mkContainerState {
  CRunning : bool;
  StartedAt : string
}.

(** environment.NetworkStats and environment.Stats. *)
Record NetStats := mkNetStats { SRxBytes : Z; STxBytes : Z }.

Record StatsSample := mkSample {
  SUptime : Z;                 (* int64, milliseconds *)
  SMemory : Z;                 (* uint64 *)
  SMemoryLimit : Z;            (* uint64 *)
  SCpuAbsolute : F64.float64;
  SNetwork : NetStats
}.

(** What one turn of the polling loop meets, in the order the loop asks: the
    context is done; or the decoder fails; or a sample is decoded and the
    state loaded after it has the given value. *)
Inductive event :=
| CtxDone (e : error)
| DecodeFailed (e : error)
| Decoded (v : StatsJSON) (st : ProcessState).

(** The surroundings of one environment during one run of the poller. The
    stream is the sequence of its turns; when the list is used up the body of
    the stream has ended and the decoder reports io.EOF. *)
Record Environment := mkEnv {
  st_at_start : ProcessState;                    (* the first e.st.Load() *)
  ContainerStats : option error;                 (* attaching to the stream *)
  ContainerInspect : ContainerState + error;
  now : Time.Time;                               (* time.Now() *)
  Parse_RFC3339 : string -> Time.Time + error;   (* time.Parse(time.RFC3339, _) *)
  stream : list event
}.

(** [Uptime]. *)
Definition Uptime (e : Environment) : Z * option error :=
  match ContainerInspect e with
  | inr err => (0, Some (ErrWrap "environment: could not inspect container" err))
  | inl ins =>
      if negb (CRunning ins) then (0, None)
      else
        match Parse_RFC3339 e (StartedAt ins) with
        | inr err =>
            (0, Some (ErrWrap "environment: failed to parse container start time" err))
        | inl started => (Time.Milliseconds (Time.Sub (now e) started), None)
        end
  end.

Definition calculateDockerMemory (h : host) : MemoryStats -> Z :=
  match h with
  | Linux => calculateDockerMemory_linux
  | Windows => calculateDockerMemory_windows
  end.

Definition calculateDockerAbsoluteCpu (h : host) : StatsJSON -> F64.float64 :=
  match h with
  | Linux => calculateDockerAbsoluteCpu_linux
  | Windows => calculateDockerAbsoluteCpu_windows
  end.

(** [err != io.EOF] compares with the value itself; [errors.Is] looks
    through the wrappers. *)
Definition is_EOF (e : error) : bool :=
  match e with ErrEOF => true | _ => false end.

Fixpoint Is_Canceled (e : error) : bool :=
  match e with
  | ErrCanceled => true
  | ErrWrap _ e' => Is_Canceled e'
  | _ => false
  end.

(** The sum over the attached interfaces; the counters are uint64. *)
Definition sum_networks (nets : gmap string NetworkStats) : NetStats :=
  map_fold (fun _ nw acc =>
              mkNetStats (wrap_uint64 (SRxBytes acc + RxBytes nw))
                         (wrap_uint64 (STxBytes acc + TxBytes nw)))
           (mkNetStats 0 0) nets.

(** The uptime after a sample. *)
Definition next_uptime (uptime : Z) (v : StatsJSON) : Z :=
  if negb (Time.IsZero (PreRead v))
  then wrap_int64 (uptime + Time.Milliseconds (Time.Sub (Read v) (PreRead v)))
  else uptime.

(** The sample built from a decoded reading. *)
Definition sample_of (h : host) (uptime : Z) (v : StatsJSON) : StatsSample :=
  {| SUptime := next_uptime uptime v;
     SMemory := calculateDockerMemory h (MemoryStats_ v);
     SMemoryLimit := Limit (MemoryStats_ v);
     SCpuAbsolute := calculateDockerAbsoluteCpu h v;
     SNetwork := sum_networks (Networks v) |}.

(** The result of a run: what was published under the resource topic, oldest
    first, the warnings logged, and the error returned. *)
Record Run := mkRun {
  published : list StatsSample;
  warnings : list string;
  returned : option error
}.

(** The [for] loop of [pollResources]. *)
Fixpoint poll_loop (h : host) (uptime : Z) (events : list event)
    (pub : list StatsSample) (warn : list string) : Run :=
  match events with
  | [] => mkRun pub warn None
  | CtxDone err :: _ => mkRun pub warn (Some err)
  | DecodeFailed err :: _ =>
      if negb (is_EOF err) && negb (Is_Canceled err)
      then mkRun pub
                 (warn ++ ["error while processing Docker stats output for container"])
                 None
      else mkRun pub warn None
  | Decoded v st :: rest =>
      if is_offline st then mkRun pub warn None
      else
        poll_loop h (next_uptime uptime v) rest (pub ++ [sample_of h uptime v]) warn
  end.

(** [pollResources]. *)
Definition pollResources (h : host) (e : Environment) : Run :=
  if is_offline (st_at_start e)
  then mkRun [] [] (Some (ErrNew "cannot enable resource polling on a stopped server"))
  else
    match ContainerStats e with
    | Some err => mkRun [] [] (Some err)
    | None =>
        let '(uptime, err) := Uptime e in
        let warn :=
          match err with
          | Some _ => ["failed to calculate container uptime"]
          | None => []
          end in
        poll_loop h uptime (stream e) [] warn
    end.

(** An environment whose container runs and whose start time parses. *)
Definition running_env : Environment :=
  mkEnv Running None (inl (mkContainerState true "2024-05-01T10:00:00Z"))
        63850000060000000000 (fun _ => inl 63850000000000000000) [].

Definition set_stream (events : list event) (e : Environment) : Environment :=
  mkEnv (st_at_start e) (ContainerStats e) (ContainerInspect e) (now e)
        (Parse_RFC3339 e) events.

(** The samples a sequence of readings gives, the uptime carried along. *)
Fixpoint samples (h : host) (uptime : Z) (vs : list StatsJSON) : list StatsSample :=
  match vs with
  | [] => []
  | v :: rest => sample_of h uptime v :: samples h (next_uptime uptime v) rest
  end.

(** The turns of a stream up to the first one that ends the loop: the
    decoded samples after which the state was not Offline. *)
Fixpoint live_prefix (events : list event) : list StatsJSON :=
  match events with
  | Decoded v st :: rest => if is_offline st then [] else v :: live_prefix rest
  | _ => []
  end.

(** Adding one interface to the running sums, as one turn of the loop over
    the networks does. *)
Definition add_interface (nw : NetworkStats) (acc : NetStats) : NetStats :=
  mkNetStats (wrap_uint64 (SRxBytes acc + RxBytes nw))
             (wrap_uint64 (STxBytes acc + TxBytes nw)).

(** A turn after which the loop goes round again: a reading was decoded and
    the state loaded after it was not Offline. *)
Definition goes_on (ev : event) : bool :=
  match ev with
  | Decoded _ st => negb (is_offline st)
  | _ => false
  end.

(** The milliseconds between the two read instants of a reading, none when
    the earlier one is the zero instant; and their sum over some readings. *)
Definition span_ms (v : StatsJSON) : Z :=
  if Time.IsZero (PreRead v) then 0
  else Time.Milliseconds (Time.Sub (Read v) (PreRead v)).

Definition total_ms (vs : list StatsJSON) : Z :=
  fold_right (fun v acc => span_ms v + acc) 0 vs.

(** The running environment with a stream of two readings, each with its
    read instants one second apart; and with a stream on which the decoder
    fails after one reading, the context being done only later. *)
Definition two_readings_env : Environment :=
  set_stream [Decoded reading_counter_went_down Running;
              Decoded reading_counter_went_down Running] running_env.

Definition broken_stream_env : Environment :=
  set_stream [Decoded reading_counter_went_down Running;
              DecodeFailed (ErrRuntime "unexpected end of JSON input");
              CtxDone ErrCanceled] running_env.

(** An environment whose context is done at the first turn, and one whose
    container cannot be inspected while its stream delivers one reading. *)
Definition cancelled_env : Environment :=
  mkEnv Running None (inl (mkContainerState false ""))
        63850000060000000000 (fun s => inr (ErrParse s)) [CtxDone ErrCanceled].

Definition uninspectable_env : Environment :=
  mkEnv Running None (inr (ErrRuntime "no such container"))
        63850000060000000000 (fun s => inr (ErrParse s))
        [Decoded reading_fifty_nanoseconds Running].

End Poller.

(** ** Port bindings of the second host family *)

Module Bindings.

(** nat.PortBinding and nat.PortMap (the ports are the keys). *)
Record PortBinding := mkBinding { HostIP : string; HostPort : string }.

(** The binding the inner loop writes in the place of [alloc]. *)
Definition without_ip (alloc : PortBinding) : PortBinding :=
  mkBinding "" (HostPort alloc).

(** container_windows.go, [getDockerBindingsForWindows], applied to the map
    [a.DockerBindings()] returns: every binding of every port is overwritten
    in place. *)
Definition getDockerBindingsForWindows (portBindings : gmap string (list PortBinding))
    : gmap string (list PortBinding) :=
  (fun binds => map without_ip binds) <$> portBindings.

End Bindings.

(** ** The configuration singleton and its file *)

Module Config.

(** The exported fields of config.Configuration, which are the ones the
    defaults and the YAML codec read and write; restricted to a few of them. *)
Record Settings := mkSettings {
  Debug : bool;
  AppName : string;
  Uuid : string;
  AuthenticationTokenId : string;
  AuthenticationToken : string;
  PanelLocation : string
}.

(** config.Configuration: the unexported path and the exported fields. *)
Record Configuration := mkConfiguration {
  path : string;
  settings : Settings
}.

Definition set_Debug (d : bool) (c : Configuration) : Configuration :=
  mkConfiguration (path c)
    (mkSettings d (AppName (settings c)) (Uuid (settings c))
                (AuthenticationTokenId (settings c))
                (AuthenticationToken (settings c)) (PanelLocation (settings c))).

Inductive error :=
| ErrNotExist (p : string)       (* satisfies errors.Is(err, os.ErrNotExist) *)
| ErrIO (msg : string)
| ErrDefaults (msg : string)
| ErrYaml (msg : string)
| ErrNew (msg : string).

Definition Is_NotExist (e : error) : bool :=
  match e with ErrNotExist _ => true | _ => false end.

(** The package variables [_config], [_jwtAlgo] and [_debugViaFlag]. The
    algorithm of jwt.NewHS256 is stood for by its key. *)
Record Globals := mkGlobals {
  _config : option Configuration;
  _jwtAlgo : option string;
  _debugViaFlag : bool
}.

(** The globals of a process that has just started. *)
Definition fresh_globals : Globals := mkGlobals None None false.

(** What the package leaves to libraries and to the system: the working
    directory, [path.Clean(path.Join(d, p))], the defaults of the struct
    tags, the YAML codec, and which files can be read and written. *)
Record Externals := mkExternals {
  Getwd : string + error;
  JoinClean : string -> string -> string;
  defaults_Set : Settings + error;
  Unmarshal : string -> Settings -> Settings + error;
  Marshal : Settings -> string + error;
  unreadable : string -> bool;
  unwritable : string -> bool
}.

(** The files of the disk, by path. *)
Definition Disk := gmap string string.

Definition ReadFile (x : Externals) (disk : gmap string string) (p : string)
    : string + error :=
  match disk !! p with
  | None => inr (ErrNotExist p)
  | Some b => if unreadable x p then inr (ErrIO p) else inl b
  end.

Definition WriteFile (x : Externals) (disk : gmap string string) (p b : string)
    : gmap string string * option error :=
  if unwritable x p then (disk, Some (ErrIO p)) else (<[p := b]> disk, None).

(** [NewAtPath]. *)
Definition NewAtPath (x : Externals) (p : string) : Configuration + error :=
  match defaults_Set x with
  | inr e => inr e
  | inl s => inl (mkConfiguration p s)
  end.

(** [Set]. *)
Definition Set_ (c : Configuration) (g : Globals) : Globals :=
  let renew :=
    match _config g with
    | None => true
    | Some old =>
        negb (AuthenticationToken (settings old) =? AuthenticationToken (settings c))%string
    end in
  mkGlobals (Some c)
            (if renew then Some (AuthenticationToken (settings c)) else _jwtAlgo g)
            (_debugViaFlag g).

(** [SetDebugViaFlag]; with no configuration set the write through the nil
    pointer panics, which [None] stands for. *)
Definition SetDebugViaFlag (d : bool) (g : Globals) : option Globals :=
  match _config g with
  | None => None
  | Some c => Some (mkGlobals (Some (set_Debug d c)) (_jwtAlgo g) d)
  end.

(** [Get]: a copy of the struct behind [_config]. *)
Definition Get (g : Globals) : option Configuration := _config g.

(** [Update], for a callback that writes through its argument. *)
Definition Update (callback : Configuration -> Configuration) (g : Globals)
    : option Globals :=
  match _config g with
  | None => None
  | Some c => Some (mkGlobals (Some (callback c)) (_jwtAlgo g) (_debugViaFlag g))
  end.

(** [GetJwtAlgorithm]. *)
Definition GetJwtAlgorithm (g : Globals) : option string := _jwtAlgo g.

(** [WriteToDisk]. *)
Definition WriteToDisk (x : Externals) (c : Configuration) (g : Globals)
    (disk : gmap string string) : gmap string string * option error :=
  let ccopy := if _debugViaFlag g then set_Debug false c else c in
  if (path c =? "")%string
  then (disk, Some (ErrNew "cannot write configuration, no path defined in struct"))
  else
    match Marshal x (settings ccopy) with
    | inr e => (disk, Some e)
    | inl b => WriteFile x disk (path c) b
    end.

(** [FromFile]. *)
Definition FromFile (x : Externals) (p : string) (g : Globals)
    (disk : gmap string string) : Globals * option error :=
  match ReadFile x disk p with
  | inr e => (g, Some e)
  | inl b =>
      match NewAtPath x p with
      | inr e => (g, Some e)
      | inl c =>
          match Unmarshal x b (settings c) with
          | inr e => (g, Some e)
          | inl s => (Set_ (mkConfiguration (path c) s) g, None)
          end
      end
  end.

(** *** The two [initConfig] of package cmd *)

Definition is_letter (c : Ascii.ascii) : bool :=
  let n := Ascii.nat_of_ascii c in
  ((65 <=? n) && (n <=? 90) || (97 <=? n) && (n <=? 122))%nat.

(** Whether the text starts with a letter, a colon and a backslash. *)
Definition drive_here (s : string) : bool :=
  match s with
  | String c (String c1 (String c2 _)) =>
      is_letter c && Ascii.eqb c1 ":"%char && Ascii.eqb c2 "\"%char
  | _ => false
  end.

(** The pattern [PathValidationRegex], a drive prefix at the start of a
    line, sought anywhere in the text as [MatchString] does: at the start of
    the text or behind a line feed. *)
Fixpoint drive_at_line_start (at_start : bool) (s : string) : bool :=
  (at_start && drive_here s)
  || match s with
     | EmptyString => false
     | String c rest => drive_at_line_start (Ascii.eqb c "010"%char) rest
     end.

Definition PathValidation (s : string) : bool := drive_at_line_start true s.

(** The test each build makes on [configPath]. *)
Definition is_absolute (h : host) (p : string) : bool :=
  match h with
  | Linux => String.prefix "/" p
  | Windows => PathValidation p
  end.

(** The process as [initConfig] sees it: the globals of package config, the
    disk, and the two variables the flags of the command line fill. *)
Record Process := mkProcess {
  globals : Globals;
  disk : gmap string string;
  configPath : string;
  debug : bool
}.

(** How [initConfig] ends: it returns, log.Fatalf ends the process, the
    notice is printed and the process exits, or the runtime panics. *)
Inductive ending := Returned | Fatal (e : error) | ExitedWithNotice | Panicked.

(** The last lines of [initConfig], the flag. *)
Definition apply_debug_flag (p : Process) : Process * ending :=
  match Get (globals p) with
  | None => (p, Panicked)
  | Some c =>
      if debug p && negb (Debug (settings c)) then
        match SetDebugViaFlag (debug p) (globals p) with
        | None => (p, Panicked)
        | Some g => (mkProcess g (disk p) (configPath p) (debug p), Returned)
        end
      else (p, Returned)
  end.

(** [initConfig]. *)
Definition initConfig (h : host) (x : Externals) (p : Process) : Process * ending :=
  let located :=
    if negb (is_absolute h (configPath p)) then
      match Getwd x with
      | inr e => inr e
      | inl d =>
          inl (mkProcess (globals p) (disk p) (JoinClean x d (configPath p)) (debug p))
      end
    else inl p in
  match located with
  | inr e => (p, Fatal e)
  | inl p1 =>
      let '(g1, err) := FromFile x (configPath p1) (globals p1) (disk p1) in
      match err with
      | None => apply_debug_flag (mkProcess g1 (disk p1) (configPath p1) (debug p1))
      | Some _ =>
          match Getwd x with
          | inr e => (p1, Fatal e)
          | inl d =>
              let '(g2, err2) :=
                FromFile x (JoinClean x d "config.yml") g1 (disk p1) in
              match err2 with
              | Some e2 =>
                  if Is_NotExist e2 then (p1, ExitedWithNotice) else (p1, Fatal e2)
              | None =>
                  apply_debug_flag (mkProcess g2 (disk p1) (configPath p1) (debug p1))
              end
          end
      end
  end.

(** The invariant [Set] is written for: the algorithm in memory is keyed by
    the token of the configuration in memory. *)
Definition jwt_in_step (g : Globals) : Prop :=
  match _config g with
  | None => True
  | Some c => _jwtAlgo g = Some (AuthenticationToken (settings c))
  end.

(** Whether the text holds a line feed. *)
Fixpoint has_line_feed (s : string) : bool :=
  match s with
  | EmptyString => false
  | String c rest => Ascii.eqb c "010"%char || has_line_feed rest
  end.

(** A host for the examples: the working directory is [C:\wings], joining a
    clean directory and a clean name puts a slash between them, the defaults
    name the application, the codec stores and reads back the token, and
    every file can be read and written. *)
Definition plain_externals : Externals :=
  mkExternals
    (inl "C:\wings")
    (fun d p => String.append d (String.append "/" p))
    (inl (mkSettings false "Pterodactyl" "" "" "" ""))
    (fun b s0 =>
       if (b =? "")%string then inr (ErrYaml "EOF")
       else inl (mkSettings (Debug s0) (AppName s0) (Uuid s0)
                            (AuthenticationTokenId s0) b (PanelLocation s0)))
    (fun s => inl (AuthenticationToken s))
    (fun _ => false)
    (fun _ => false).

(** A process started with [--debug] and [--config C:\etc\config.yml], whose
    disk holds that file and one in the working directory. *)
Definition debug_process : Process :=
  mkProcess fresh_globals
            (<["C:\etc\config.yml" := "secret"]>
               (<["C:\wings/config.yml" := "other"]> ∅))
            "C:\etc\config.yml" true.

(** The same process when the named file is empty, which the codec of
    [plain_externals] refuses. *)
Definition broken_process : Process :=
  mkProcess fresh_globals
            (<["C:\etc\config.yml" := ""]>
               (<["C:\wings/config.yml" := "other"]> ∅))
            "C:\etc\config.yml" true.

(** Two configurations of one file that differ in the token. *)
Definition old_config : Configuration :=
  mkConfiguration "C:\etc\config.yml" (mkSettings false "Pterodactyl" "" "" "old" "").

Definition new_config : Configuration :=
  mkConfiguration "C:\etc\config.yml" (mkSettings false "Pterodactyl" "" "" "new" "").

End Config.

(** ** The timezone of the configuration, second host family *)

Module Timezone.

(** A text as the runes the pattern matcher and [time.LoadLocation] read. *)
Definition runes (s : string) : list Z :=
  map (fun c => Z.of_nat (Ascii.nat_of_ascii c)) (String.list_ascii_of_string s).

(** The class [a-z_/] of the pattern once the flag [i] has folded letter
    case: the letters of both cases, the underscore, the slash, and the two
    runes outside ASCII that fold to [s] and [k], U+017F and U+212A. *)
Definition allowed (r : Z) : bool :=
  (97 <=? r) && (r <=? 122) || (65 <=? r) && (r <=? 90)
  || (r =? 95) || (r =? 47) || (r =? 383) || (r =? 8490).

(** [ReplaceAllString] of the pattern with the empty text: every run of
    runes outside the class is dropped. *)
Definition sanitise (t : list Z) : list Z := List.filter allowed t.

Inductive error :=
| errLocation                       (* "time: invalid location name" *)
| ErrUnknownZone (name : list Z).   (* "unknown time zone ..." *)

(** What the function reads of the system: the variable TZ, the name of the
    local zone, and which names the zone database holds. *)
Record Host := mkHost {
  TZ : list Z;
  local_name : list Z;
  zone_known : list Z -> bool
}.

(** [containsDotDot] of package time. *)
Fixpoint containsDotDot (s : list Z) : bool :=
  match s with
  | a :: rest =>
      match rest with
      | b :: _ => (a =? 46) && (b =? 46) || containsDotDot rest
      | [] => false
      end
  | [] => false
  end.

(** [time.LoadLocation], as far as its error goes. *)
Definition LoadLocation (h : Host) (name : list Z) : option error :=
  if bool_decide (name = []) || bool_decide (name = runes "UTC") then None
  else if bool_decide (name = runes "Local") then None
  else if containsDotDot name
          || match name with
             | c :: _ => (c =? 47) || (c =? 92)
             | [] => false
             end
  then Some errLocation
  else if zone_known h name then None else Some (ErrUnknownZone name).

(** config_windows.go, [ConfigureTimezone], on the field
    [_config.System.Timezone]: the field as the call leaves it, and the error
    [errors.WithMessage] wraps, if there is one. *)
Definition ConfigureTimezone (h : Host) (Timezone : list Z)
    : list Z * option error :=
  let tz := TZ h in
  let Timezone :=
    if bool_decide (Timezone = []) && negb (bool_decide (tz = [])) then tz
    else Timezone in
  let Timezone :=
    if bool_decide (Timezone = []) then local_name h else Timezone in
  let Timezone := sanitise Timezone in
  (Timezone, LoadLocation h Timezone).

(** A host in Paris whose zone database holds that one zone. *)
Definition paris_host : Host :=
  mkHost (runes "Europe/Paris") (runes "Local")
         (fun n => bool_decide (n = runes "Europe/Paris")).

End Timezone.

(** ** The system user, second host family *)

Module User.

(** The fields of os/user.User that are read. *)
Record User := mkUser { Username : string; Uid : string; Gid : string }.

Inductive error :=
| ERROR_NONE_MAPPED
| ErrLookup (msg : string)
| ErrExec (msg : string)
| ErrSystemName (msg : string).

Definition is_none_mapped (e : error) : bool :=
  match e with ERROR_NONE_MAPPED => true | _ => false end.

(** The three fields of [_config.System] the function writes. *)
Record System := mkSystem { SUsername : string; SUid : string; SGid : string }.

(** The accounts of the machine by the name they are looked up with, the
    commands that have been run, and the configuration. *)
Record World := mkWorld {
  accounts : gmap string User;
  execs : list (list string);
  system : System
}.

(** What is left to the machine and to other packages: the environment,
    [system.FirstNotEmpty], the lookups that fail for another reason than an
    unknown name, and what a command does to the accounts. *)
Record Host := mkHost {
  Getenv : string -> string;
  FirstNotEmpty : string -> string -> string;
  lookup_fails : string -> option string;
  run : list string -> gmap string User -> gmap string User * option error
}.

(** [user.Lookup]. *)
Definition Lookup (h : Host) (w : World) (name : string) : User + error :=
  match lookup_fails h name with
  | Some msg => inr (ErrLookup msg)
  | None =>
      match accounts w !! name with
      | Some u => inl u
      | None => inr ERROR_NONE_MAPPED
      end
  end.

(** [exec.Command(name, args...).Output()], the command line being logged. *)
Definition Output (h : Host) (argv : list string) (w : World) : World * option error :=
  let '(acc, err) := run h argv (accounts w) in
  (mkWorld acc (execs w ++ [argv]) (system w), err).

(** [strings.Split] with a separator of one byte. *)
Fixpoint Split (sep : Ascii.ascii) (s : string) : list string :=
  match s with
  | EmptyString => [EmptyString]
  | String c rest =>
      if Ascii.eqb c sep then EmptyString :: Split sep rest
      else match Split sep rest with
           | piece :: pieces => String c piece :: pieces
           | [] => [String c EmptyString]
           end
  end.

(** [getSystemName] of this build. *)
Definition getSystemName : string + error := inl EmptyString.

Inductive outcome := Done (err : option error) | Panicked.

(** The three assignments made from a user that was found; the index 1 of
    the pieces of its name is out of range when there is one piece. *)
Definition adopt (u : User) (w : World) : World * outcome :=
  match Split "\"%char (Username u) !! 1%nat with
  | None => (w, Panicked)
  | Some n => (mkWorld (accounts w) (execs w) (mkSystem n (Uid u) (Gid u)), Done None)
  end.

(** config_windows.go, [EnsurePterodactylUser]. *)
Definition EnsurePterodactylUser (h : Host) (w : World) : World * outcome :=
  match getSystemName with
  | inr e => (w, Done (Some e))
  | inl sysName =>
      if (sysName =? "distroless")%string then
        (mkWorld (accounts w) (execs w)
           (mkSystem (FirstNotEmpty h (Getenv h "WINGS_USERNAME") "Papa")
                     (FirstNotEmpty h (Getenv h "WINGS_UID") "988")
                     (FirstNotEmpty h (Getenv h "WINGS_GID") "988")),
         Done None)
      else
        match Lookup h w (SUsername (system w)) with
        | inl u => adopt u w
        | inr e =>
            if negb (is_none_mapped e) then (w, Done (Some e))
            else
              let command :=
                String.append "net user "
                  (String.append (SUsername (system w)) " /add") in
              match Split " "%char command with
              | [] => (w, Panicked)
              | prog :: args =>
                  let '(w1, err) := Output h (prog :: args) w in
                  match err with
                  | Some e1 => (w1, Done (Some e1))
                  | None =>
                      match Lookup h w1 (SUsername (system w1)) with
                      | inr e2 => (w1, Done (Some e2))
                      | inl u => adopt u w1
                      end
                  end
              end
        end
  end.

(** Whether a byte occurs in a text. *)
Fixpoint occurs (c : Ascii.ascii) (s : string) : bool :=
  match s with
  | EmptyString => false
  | String a rest => Ascii.eqb a c || occurs c rest
  end.

(** A machine whose [net user] adds the account under the name of the
    machine, and where no lookup fails for another reason. *)
Definition plain_host : Host :=
  mkHost (fun _ => EmptyString)
         (fun a b => if (a =? "")%string then b else a)
         (fun _ => None)
         (fun argv acc =>
            match argv with
            | [_; _; name; _] =>
                (<[name := mkUser (String.append "HOST\" name) "S-1-5-21-1001" "S-1-5-21-513"]> acc,
                 None)
            | _ => (acc, Some (ErrExec "exit status 1"))
            end).

(** The same machine with the three variables of the container set. *)
Definition container_host : Host :=
  mkHost (fun _ => "wings") (FirstNotEmpty plain_host)
         (lookup_fails plain_host) (run plain_host).

(** A machine with no account, configured with the default name. *)
Definition new_machine : World :=
  mkWorld ∅ [] (mkSystem "Papa" EmptyString EmptyString).

(** A machine whose account is known by a name without a domain. *)
Definition bare_machine : World :=
  mkWorld (<["Papa" := mkUser "Papa" "1000" "1000"]> ∅) []
          (mkSystem "Papa" EmptyString EmptyString).

End User.

(** * Properties *)

(** ** Machine integers *)

Lemma wrap_uint64_id z : is_uint64 z -> wrap_uint64 z = z.
Proof. unfold is_uint64, wrap_uint64. intros H. apply Z.mod_small. lia. Qed.

Lemma wrap_int64_id z : is_int64 z -> wrap_int64 z = z.
Proof.
  unfold is_int64, wrap_int64, min_int64, max_int64. intros H.
  rewrite Z.mod_small; lia.
Qed.

Lemma wrap_uint64_range z : is_uint64 (wrap_uint64 z).
Proof. unfold is_uint64, wrap_uint64. apply Z.mod_pos_bound. lia. Qed.

Lemma wrap_uint64_zero z : wrap_uint64 z = 0 \/ 0 < wrap_uint64 z.
Proof. pose proof (wrap_uint64_range z) as H. unfold is_uint64 in H. lia. Qed.

Lemma wrap_int64_add_l a b : wrap_int64 (wrap_int64 a + b) = wrap_int64 (a + b).
Proof.
  unfold wrap_int64. f_equal.
  replace ((a + 2 ^ 63) mod 2 ^ 64 - 2 ^ 63 + b + 2 ^ 63)
    with ((a + 2 ^ 63) mod 2 ^ 64 + b) by lia.
  rewrite Zplus_mod_idemp_l. f_equal. lia.
Qed.

(** ** Resource limits *)

Section LimitsFacts.
Import Limits.

(** The quotient by 100 and the product by the period cancel: the quota is
    a thousand times the percentage. *)
Lemma ConvertedCpuLimit_thousand l :
  is_int64 (CpuLimit l * 1000) -> ConvertedCpuLimit l = CpuLimit l * 1000.
Proof.
  intros H. unfold ConvertedCpuLimit.
  assert (E : (inject_Z (CpuLimit l) / inject_Z 100 * inject_Z 100000
               == inject_Z (CpuLimit l * 1000))%Q).
  { unfold Qeq, Qdiv, Qmult, Qinv, inject_Z. simpl. lia. }
  rewrite E, Qfloor_Z. now apply wrap_int64_id.
Qed.

Lemma BoundedMemoryLimit_million l :
  is_int64 (MemoryLimit l * 1000000) ->
  BoundedMemoryLimit l = MemoryLimit l * 1000000.
Proof. intros H. unfold BoundedMemoryLimit. now apply wrap_int64_id. Qed.

Lemma ConvertedSwap_unlimited l : Swap l < 0 -> ConvertedSwap l = unlimited_swap.
Proof.
  intros H. unfold ConvertedSwap.
  destruct (Z.ltb_spec (Swap l) 0); [reflexivity | lia].
Qed.

(** C8, as the sources have it. On the Linux build the limits of the
    scenario (512 MB, swap -1, 150 percent) give 512,000,000 bytes of
    memory, the unlimited sentinel for swap, a quota of 150,000 and a period
    of 100,000. The build for the other host family gives the same memory
    and quota and leaves swap and period out: both hold the zero value. *)
Theorem AsContainerResources_scenario io threads oom pids :
  let l := scenario_limits io threads oom pids in
  (Memory (AsContainerResources Linux l) = 512000000
   /\ MemoryReservation (AsContainerResources Linux l) = 512000000
   /\ MemorySwap (AsContainerResources Linux l) = unlimited_swap
   /\ CPUQuota (AsContainerResources Linux l) = 150000
   /\ CPUPeriod (AsContainerResources Linux l) = 100000)
  /\ (Memory (AsContainerResources Windows l) = 512000000
      /\ CPUQuota (AsContainerResources Windows l) = 150000
      /\ MemorySwap (AsContainerResources Windows l) = 0
      /\ CPUPeriod (AsContainerResources Windows l) = 0).
Proof. repeat split; vm_compute; reflexivity. Qed.

(** C8 as stated fails on the second build: neither the period nor the swap
    sentinel is produced there. *)
Lemma AsContainerResources_scenario_not_all_hosts :
  ~ (forall h : host,
       let r := AsContainerResources h (scenario_limits 500 "0-3" false 512) in
       Memory r = 512000000 /\ MemorySwap r = unlimited_swap
       /\ CPUQuota r = 150000 /\ CPUPeriod r = 100000).
Proof.
  intros H. specialize (H Windows). simpl in H.
  destruct H as (_ & _ & _ & H). discriminate H.
Qed.

End LimitsFacts.

(** ** Memory normalisation *)

Section MemoryFacts.
Import Stats.

Lemma map_get_range stats k : counters_ok stats -> is_uint64 (map_get (MStats stats) k).
Proof.
  intros [_ H]. unfold map_get. destruct (MStats stats !! k) as [v|] eqn:E.
  - simpl. eauto.
  - simpl. unfold is_uint64. lia.
Qed.

(** C3. Variant A: with the total_inactive_file counter present and below
    the usage the result is the usage less that counter. Otherwise, the
    counter being absent or not below the usage: with the inactive_file
    counter present and below the usage the result is the usage less that
    counter; with it present and not below the usage, or absent, the result
    is the usage. So when neither counter is below the usage the result is
    the raw usage. *)
Theorem calculateDockerMemory_linux_spec (stats : MemoryStats) :
  counters_ok stats ->
  let usage := Usage stats in
  let total := MStats stats !! "total_inactive_file" in
  let inactive := MStats stats !! "inactive_file" in
  (forall v, total = Some v -> v < usage ->
     calculateDockerMemory_linux stats = usage - v)
  /\ ((total = None \/ exists v, total = Some v /\ usage <= v) ->
      (forall w, inactive = Some w -> w < usage ->
         calculateDockerMemory_linux stats = usage - w)
      /\ (forall w, inactive = Some w -> usage <= w ->
            calculateDockerMemory_linux stats = usage)
      /\ (inactive = None -> calculateDockerMemory_linux stats = usage))
  /\ ((forall v, total = Some v -> usage <= v) ->
      (forall w, inactive = Some w -> usage <= w) ->
      calculateDockerMemory_linux stats = usage).
Proof.
  intros [Hu Hm] usage total inactive. fold usage in Hu.
  assert (Hsub : forall v, is_uint64 v -> v < usage -> wrap_uint64 (usage - v) = usage - v).
  { intros v Hv Hlt. apply wrap_uint64_id. unfold is_uint64 in *. lia. }
  assert (Hfall :
    let r := (let v := map_get (MStats stats) "inactive_file" in
              if v <? usage then wrap_uint64 (usage - v) else usage) in
    (forall w, inactive = Some w -> w < usage -> r = usage - w)
    /\ (forall w, inactive = Some w -> usage <= w -> r = usage)
    /\ (inactive = None -> r = usage)).
  { unfold map_get. fold inactive. destruct inactive as [w|] eqn:Ei; simpl.
    - pose proof (Hm _ _ Ei) as Hw.
      destruct (Z.ltb_spec w usage) as [Hlt|Hge].
      + split; [|split].
        * intros w' [= <-] _. now apply Hsub.
        * intros w' [= <-] ?. lia.
        * discriminate.
      + split; [|split].
        * intros w' [= <-] ?. lia.
        * reflexivity.
        * discriminate.
    - split; [|split]; try discriminate. intros _.
      destruct (Z.ltb_spec 0 usage) as [Hlt|Hge]; [|reflexivity].
      rewrite Z.sub_0_r. apply wrap_uint64_id. exact Hu. }
  cbv zeta in Hfall. destruct Hfall as (F1 & F2 & F3).
  unfold calculateDockerMemory_linux. fold usage total.
  destruct total as [v|] eqn:Et.
  - pose proof (Hm _ _ Et) as Hv.
    destruct (Z.ltb_spec v usage) as [Hlt|Hge].
    + split; [|split].
      * intros v' [= <-] _. now apply Hsub.
      * intros [?|(v' & [= <-] & ?)]; [discriminate | lia].
      * intros H _. specialize (H v eq_refl). lia.
    + split; [|split].
      * intros v' [= <-] ?. lia.
      * intros _. split; [exact F1 | split; [exact F2 | exact F3]].
      * intros _ Hw. destruct inactive as [w|] eqn:Ei.
        -- apply (F2 w eq_refl). now apply Hw.
        -- now apply F3.
  - split; [|split].
    + intros v' [=].
    + intros _. split; [exact F1 | split; [exact F2 | exact F3]].
    + intros _ Hw. destruct inactive as [w|] eqn:Ei.
      * apply (F2 w eq_refl). now apply Hw.
      * now apply F3.
Qed.

Lemma memory_with_cache_ok : counters_ok memory_with_cache.
Proof.
  split; [unfold is_uint64; simpl; lia|].
  intros k v H. unfold memory_with_cache, MStats in H.
  apply lookup_insert_Some in H as [[_ <-]|[_ H]]; [unfold is_uint64; lia|].
  apply lookup_insert_Some in H as [[_ <-]|[_ H]]; [unfold is_uint64; lia|].
  rewrite lookup_empty in H. discriminate H.
Qed.

Lemma memory_with_large_total_ok : counters_ok memory_with_large_total.
Proof.
  split; [unfold is_uint64; simpl; lia|].
  intros k v H. unfold memory_with_large_total, MStats in H.
  apply lookup_insert_Some in H as [[_ <-]|[_ H]]; [unfold is_uint64; lia|].
  apply lookup_insert_Some in H as [[_ <-]|[_ H]]; [unfold is_uint64; lia|].
  rewrite lookup_empty in H. discriminate H.
Qed.

Lemma memory_without_counters_ok : counters_ok memory_without_counters.
Proof.
  split; [unfold is_uint64; simpl; lia|].
  intros k v H. unfold memory_without_counters, MStats in H.
  rewrite lookup_empty in H. discriminate H.
Qed.

Lemma calculateDockerMemory_linux_spec_witness :
  counters_ok memory_with_cache
  /\ calculateDockerMemory_linux memory_with_cache = 1000 - 300
  /\ calculateDockerMemory_linux memory_with_large_total = 1000 - 100
  /\ calculateDockerMemory_linux memory_without_counters = 1000.
Proof.
  split; [exact memory_with_cache_ok|]. split; [|split].
  - apply (proj1 (calculateDockerMemory_linux_spec memory_with_cache
                    memory_with_cache_ok) 300); [reflexivity | simpl; lia].
  - destruct (calculateDockerMemory_linux_spec memory_with_large_total
                memory_with_large_total_ok) as (_ & H & _).
    destruct H as (H & _).
    + right. exists 5000. split; [reflexivity | simpl; lia].
    + apply (H 100); [reflexivity | simpl; lia].
  - destruct (calculateDockerMemory_linux_spec memory_without_counters
                memory_without_counters_ok) as (_ & H & _).
    destruct H as (_ & _ & H).
    + left. reflexivity.
    + apply H. reflexivity.
Defined.

End MemoryFacts.

(** ** Binary64 rounding and the CPU percentage *)

Section FloatFacts.
Import F64.

Lemma leb_zero_not_gt x : leb x zero = true -> ltb zero x = false.
Proof.
  unfold leb, ltb, zero, SFleb, SFltb.
  destruct x as [s|s| |s m e]; simpl; try reflexivity; destruct s; simpl;
    intros H; try reflexivity; discriminate H.
Qed.

Lemma shr_1_half mrs : 0 <= shr_m mrs -> shr_m (shr_1 mrs) = shr_m mrs / 2.
Proof.
  destruct mrs as [m r s]. simpl. intros Hm.
  destruct m as [|p|p]; [reflexivity| |lia].
  destruct p as [p|p|]; simpl.
  - rewrite Pos2Z.inj_xI. apply Z.div_unique with 1; lia.
  - rewrite Pos2Z.inj_xO. apply Z.div_unique with 0; lia.
  - reflexivity.
Qed.

Lemma pow2_xO n : 2 ^ Zpos n~0 = 2 ^ Zpos n * 2 ^ Zpos n.
Proof.
  replace (Z.pos n~0) with (Z.pos n + Z.pos n) by lia.
  apply Z.pow_add_r; lia.
Qed.

Lemma pow2_xI n : 2 ^ Zpos n~1 = 2 * (2 ^ Zpos n * 2 ^ Zpos n).
Proof.
  replace (Z.pos n~1) with (Z.succ (Z.pos n + Z.pos n)) by lia.
  rewrite Z.pow_succ_r, Z.pow_add_r by lia. reflexivity.
Qed.

Lemma iter_shr_1 n : forall mrs,
  0 <= shr_m mrs -> shr_m (SpecFloat.iter_pos shr_1 n mrs) = shr_m mrs / 2 ^ Zpos n.
Proof.
  assert (P2 : forall k, 0 < 2 ^ Zpos k) by (intros k; apply Z.pow_pos_nonneg; lia).
  induction n as [n IH|n IH|]; intros mrs Hm; simpl SpecFloat.iter_pos.
  - assert (H1 : 0 <= shr_m (shr_1 mrs)).
    { rewrite shr_1_half by assumption. apply Z.div_pos; lia. }
    assert (H2 : 0 <= shr_m (SpecFloat.iter_pos shr_1 n (shr_1 mrs))).
    { rewrite IH by assumption. apply Z.div_pos; [assumption|apply P2]. }
    rewrite IH, IH, shr_1_half by assumption.
    pose proof (P2 n) as Hn.
    rewrite !Z.div_div by lia. now rewrite pow2_xI, Z.mul_assoc.
  - assert (H2 : 0 <= shr_m (SpecFloat.iter_pos shr_1 n mrs)).
    { rewrite IH by assumption. apply Z.div_pos; [assumption|apply P2]. }
    rewrite IH, IH by assumption.
    pose proof (P2 n) as Hn.
    rewrite !Z.div_div by lia. now rewrite pow2_xO.
  - now apply shr_1_half.
Qed.

Lemma digits2_size p : digits2_pos p = Pos.size p.
Proof. induction p; simpl; congruence. Qed.

Lemma digits_bounds p :
  2 ^ (Zpos (digits2_pos p) - 1) <= Zpos p < 2 ^ Zpos (digits2_pos p).
Proof.
  rewrite digits2_size. split.
  - pose proof (Pos.size_le p) as H.
    assert (H' : (2 ^ Zpos (Pos.size p) <= 2 * Zpos p)).
    { rewrite <- Pos2Z.inj_pow. change (2 * Zpos p) with (Zpos p~0). exact H. }
    replace (Zpos (Pos.size p)) with (1 + (Zpos (Pos.size p) - 1)) in H' by lia.
    rewrite Z.pow_add_r in H' by lia. lia.
  - pose proof (Pos.size_gt p) as H. rewrite <- Pos2Z.inj_pow. exact H.
Qed.

Lemma digits_ge x k : 0 < x -> 2 ^ (k - 1) <= x -> k <= Zdigits2 x.
Proof.
  intros Hx Hk. destruct x as [|p|p]; try lia. simpl.
  pose proof (digits_bounds p) as [_ Hu].
  destruct (Z.le_gt_cases k (Zpos (digits2_pos p))) as [|Hgt]; [assumption|].
  exfalso. assert (2 ^ Zpos (digits2_pos p) <= 2 ^ (k - 1)) by (apply Z.pow_le_mono_r; lia).
  lia.
Qed.

Lemma digits_pos x : 0 < x -> 0 < Zdigits2 x /\ 2 ^ (Zdigits2 x - 1) <= x.
Proof.
  intros Hx. destruct x as [|p|p]; try lia. simpl. split; [lia|].
  apply digits_bounds.
Qed.

Local Abbreviation emin64 := (-1074).

Lemma fexp_eq e : fexp prec emax e = Z.max (e - 53) emin64.
Proof. reflexivity. Qed.

(** Shifting a positive mantissa into the format keeps it positive, as
    long as the number is above the smallest exponent. *)
Lemma shr_fexp_positive m e l :
  0 < m -> emin64 < Zdigits2 m + e ->
  0 < shr_m (fst (shr_fexp prec emax m e l))
  /\ Zdigits2 m + e
     <= Zdigits2 (shr_m (fst (shr_fexp prec emax m e l))) + snd (shr_fexp prec emax m e l).
Proof.
  intros Hm He. unfold shr_fexp. rewrite fexp_eq.
  set (n := Z.max (Zdigits2 m + e - 53) emin64 - e).
  assert (Hrec : shr_m (shr_record_of_loc m l) = m) by (destruct l as [|[]]; reflexivity).
  destruct (digits_pos m Hm) as [Hd Hlow].
  unfold shr. destruct n as [|p|p] eqn:En; simpl fst; simpl snd; rewrite ?Hrec; try lia.
  assert (Hn : Zpos p < Zdigits2 m) by lia.
  rewrite iter_shr_1 by (rewrite Hrec; lia). rewrite Hrec.
  assert (Hq : 2 ^ (Zdigits2 m - Zpos p - 1) <= m / 2 ^ Zpos p).
  { apply Z.div_le_lower_bound; [apply Z.pow_pos_nonneg; lia|].
    rewrite <- Z.pow_add_r by lia.
    replace (Z.pos p + (Zdigits2 m - Z.pos p - 1)) with (Zdigits2 m - 1) by lia.
    exact Hlow. }
  assert (Hq0 : 0 < 2 ^ (Zdigits2 m - Zpos p - 1)) by (apply Z.pow_pos_nonneg; lia).
  split; [lia|].
  assert (Zdigits2 m - Zpos p <= Zdigits2 (m / 2 ^ Zpos p)).
  { apply digits_ge; [lia|]. exact Hq. }
  lia.
Qed.

Lemma round_nearest_even_ge m l : m <= round_nearest_even m l.
Proof. destruct l as [|[]]; simpl; try lia. destruct (Z.even m); lia. Qed.

Lemma digits_mono x y : 0 < x -> x <= y -> Zdigits2 x <= Zdigits2 y.
Proof.
  intros Hx Hxy. destruct (digits_pos x Hx) as [_ H]. apply digits_ge; lia.
Qed.

(** Rounding a positive number above the smallest exponent gives a
    number or an infinity of the same sign, never a zero or a NaN. *)
Lemma binary_round_aux_positive s m e l :
  0 < m -> emin64 < Zdigits2 m + e ->
  (exists m' e', binary_round_aux prec emax s m e l = S754_finite s m' e')
  \/ binary_round_aux prec emax s m e l = S754_infinity s.
Proof.
  intros Hm He. unfold binary_round_aux.
  destruct (shr_fexp_positive m e l Hm He) as [H1 H1'].
  destruct (shr_fexp prec emax m e l) as [mrs' e'] eqn:E1. simpl in H1, H1'.
  set (m1 := round_nearest_even (shr_m mrs') (loc_of_shr_record mrs')).
  assert (Hm1 : shr_m mrs' <= m1) by apply round_nearest_even_ge.
  assert (Hd1 : Zdigits2 (shr_m mrs') <= Zdigits2 m1) by (apply digits_mono; lia).
  destruct (shr_fexp_positive m1 e' loc_Exact ltac:(lia) ltac:(lia)) as [H2 _].
  destruct (shr_fexp prec emax m1 e' loc_Exact) as [mrs'' e''] eqn:E2. simpl in H2.
  destruct (shr_m mrs'') as [|p|p]; try lia.
  destruct (e'' <=? emax - prec); eauto.
Qed.

(** The conversion of a positive integer is positive: a number or the
    positive infinity. *)
Lemma of_Z_positive z :
  0 < z ->
  (exists m e, of_Z z = S754_finite false m e) \/ of_Z z = S754_infinity false.
Proof.
  intros Hz. destruct z as [|p|p]; try lia.
  unfold of_Z, binary_normalize, binary_round.
  destruct (shl_align p 0 (fexp prec emax (Z.pos (digits2_pos p) + 0))) as [mz ez] eqn:Es.
  apply binary_round_aux_positive; [lia|].
  unfold shl_align in Es. rewrite fexp_eq in Es.
  destruct (digits_pos (Zpos p) ltac:(lia)) as [Hd Hlow]. simpl Zdigits2 in *.
  destruct (Z.max (Z.pos (digits2_pos p) + 0 - 53) emin64 - 0) as [|d|d] eqn:Ed;
    inversion Es; subst; clear Es; simpl Zdigits2; try lia.
Qed.

Lemma shr_1_spec mrs : 0 <= shr_m mrs -> shr_1 mrs = shr_spec 1 mrs.
Proof.
  destruct mrs as [m r s]. unfold shr_spec. simpl shr_m. simpl shr_r. simpl shr_s.
  intros Hm. change (1 - 1) with 0. rewrite Z.pow_0_r, Z.mod_1_r. simpl negb. simpl orb.
  rewrite Z.bit0_odd. change (2 ^ 1) with 2.
  destruct m as [|p|p]; [reflexivity| |lia].
  destruct p as [p|p|]; simpl shr_1; f_equal.
  - rewrite Pos2Z.inj_xI. apply Z.div_unique with 1; lia.
  - rewrite Pos2Z.inj_xO. apply Z.div_unique with 0; lia.
Qed.

Lemma mod_pow2_split m a b :
  0 <= m -> 0 <= a -> 0 <= b ->
  m mod 2 ^ (a + b) = m mod 2 ^ a + 2 ^ a * ((m / 2 ^ a) mod 2 ^ b).
Proof.
  intros Hm Ha Hb. rewrite Z.pow_add_r by assumption.
  apply Z.rem_mul_r; [apply Z.pow_nonzero; lia | apply Z.pow_pos_nonneg; lia].
Qed.

Lemma bit_as_mod m k : 0 <= k -> (m / 2 ^ k) mod 2 = Z.b2z (Z.testbit m k).
Proof. intros Hk. rewrite Z.testbit_spec' by assumption. reflexivity. Qed.

Lemma low_bits_zero m a b r :
  0 <= m -> 1 <= a -> 1 <= b ->
  negb ((m / 2 ^ a) mod 2 ^ (b - 1) =? 0)
  || (Z.testbit m (a - 1) || (negb (m mod 2 ^ (a - 1) =? 0) || r))
  = negb (m mod 2 ^ (a + b - 1) =? 0) || r.
Proof.
  intros Hm Ha Hb.
  replace (a + b - 1) with (a + (b - 1)) by lia.
  rewrite (mod_pow2_split m a (b - 1)) by lia.
  replace a with ((a - 1) + 1) at 4 by lia.
  rewrite (mod_pow2_split m (a - 1) 1) by lia.
  change (2 ^ 1) with 2. rewrite bit_as_mod by lia.
  assert (P1 : 0 < 2 ^ a) by (apply Z.pow_pos_nonneg; lia).
  assert (P2 : 0 < 2 ^ (a - 1)) by (apply Z.pow_pos_nonneg; lia).
  assert (B1 : 0 <= (m / 2 ^ a) mod 2 ^ (b - 1)).
  { apply Z.mod_pos_bound. apply Z.pow_pos_nonneg; lia. }
  assert (B2 : 0 <= m mod 2 ^ (a - 1)) by (apply Z.mod_pos_bound; lia).
  destruct (Z.testbit m (a - 1)); simpl Z.b2z;
    destruct (Z.eqb_spec ((m / 2 ^ a) mod 2 ^ (b - 1)) 0);
    destruct (Z.eqb_spec (m mod 2 ^ (a - 1)) 0);
    destruct r; simpl;
    match goal with
    | |- _ = negb (?x =? 0) || _ => destruct (Z.eqb_spec x 0)
    | |- _ = negb (?x =? 0) => destruct (Z.eqb_spec x 0)
    end; simpl; try reflexivity; exfalso; nia.
Qed.

Lemma shr_spec_compose a b mrs :
  0 <= shr_m mrs -> 1 <= a -> 1 <= b ->
  shr_spec b (shr_spec a mrs) = shr_spec (a + b) mrs.
Proof.
  intros Hm Ha Hb. destruct mrs as [m r s]. unfold shr_spec.
  simpl shr_m in *. simpl shr_r. simpl shr_s.
  assert (P1 : 0 < 2 ^ a) by (apply Z.pow_pos_nonneg; lia).
  assert (P2 : 0 < 2 ^ b) by (apply Z.pow_pos_nonneg; lia).
  f_equal.
  - rewrite Z.div_div by lia. now rewrite Z.pow_add_r by lia.
  - rewrite Z.div_pow2_bits by lia. f_equal. lia.
  - apply low_bits_zero; lia.
Qed.

Lemma shr_spec_nonneg n mrs : 0 <= shr_m mrs -> 0 <= n -> 0 <= shr_m (shr_spec n mrs).
Proof.
  intros Hm Hn. simpl. apply Z.div_pos; [assumption|]. apply Z.pow_pos_nonneg; lia.
Qed.

Lemma iter_shr_1_spec n : forall mrs,
  0 <= shr_m mrs -> SpecFloat.iter_pos shr_1 n mrs = shr_spec (Zpos n) mrs.
Proof.
  induction n as [n IH|n IH|]; intros mrs Hm; simpl SpecFloat.iter_pos.
  - rewrite shr_1_spec by assumption.
    rewrite (IH (shr_spec 1 mrs)) by (apply shr_spec_nonneg; lia).
    rewrite IH by (repeat apply shr_spec_nonneg; lia).
    rewrite (shr_spec_compose 1) by lia.
    rewrite shr_spec_compose by lia. f_equal. lia.
  - rewrite (IH mrs) by assumption.
    rewrite IH by (apply shr_spec_nonneg; lia).
    rewrite shr_spec_compose by lia. f_equal. lia.
  - now apply shr_1_spec.
Qed.

Lemma digits_log2 p : Zpos (digits2_pos p) = Z.log2 (Zpos p) + 1.
Proof.
  pose proof (digits_bounds p) as [Hl Hu].
  assert (Z.log2 (Zpos p) = Zpos (digits2_pos p) - 1); [|lia].
  apply Z.log2_unique; [lia|]. split; [exact Hl|].
  replace (Z.succ (Z.pos (digits2_pos p) - 1)) with (Z.pos (digits2_pos p)) by lia. exact Hu.
Qed.

Lemma digits_unique x k : 2 ^ (k - 1) <= x < 2 ^ k -> 1 <= k -> Zdigits2 x = k.
Proof.
  intros [Hl Hu] Hk.
  assert (Hx : 0 < x).
  { assert (0 < 2 ^ (k - 1)) by (apply Z.pow_pos_nonneg; lia). lia. }
  destruct x as [|p|p]; try lia. simpl. rewrite digits_log2.
  assert (Z.log2 (Zpos p) = k - 1); [|lia].
  apply Z.log2_unique; [lia|]. split; [exact Hl|].
  now replace (Z.succ (k - 1)) with k by lia.
Qed.

Lemma iter_xO p n : Zpos (Pos.iter xO p n) = Zpos p * 2 ^ Zpos n.
Proof.
  induction n as [|n IH] using Pos.peano_ind.
  - simpl. lia.
  - rewrite Pos.iter_succ. change (Zpos (Pos.iter xO p n)~0) with (2 * Zpos (Pos.iter xO p n)).
    rewrite IH, Pos2Z.inj_succ, Z.pow_succ_r by lia. lia.
Qed.

(** Aligning to a smaller exponent multiplies the mantissa. *)
Lemma shl_align_value mx ex ex' :
  ex' <= ex ->
  exists mz, shl_align mx ex ex' = (mz, ex') /\ Zpos mz = Zpos mx * 2 ^ (ex - ex').
Proof.
  intros H. unfold shl_align. destruct (ex' - ex) as [|k|k] eqn:E; try lia.
  - exists mx. assert (ex' = ex) as -> by lia. rewrite Z.sub_diag. split; [reflexivity|]. simpl. lia.
  - eexists. split; [reflexivity|]. rewrite iter_xO. f_equal. f_equal. lia.
Qed.

Lemma shl_align_keep mx ex ex' : ex <= ex' -> shl_align mx ex ex' = (mx, ex).
Proof.
  intros H. unfold shl_align. destruct (ex' - ex) as [|k|k] eqn:E; try lia; reflexivity.
Qed.

(** A mantissa of 53 digits at an exponent of the format is kept as it is. *)
Lemma binary_round_aux_fits m e :
  Zdigits2 (Zpos m) = 53 -> -1074 <= e <= 971 ->
  binary_round_aux prec emax false (Zpos m) e loc_Exact = S754_finite false m e.
Proof.
  intros Hd He. unfold binary_round_aux.
  assert (Hs : shr_fexp prec emax (Zpos m) e loc_Exact
               = (Build_shr_record (Zpos m) false false, e)).
  { unfold shr_fexp. rewrite Hd. rewrite fexp_eq.
    replace (Z.max (53 + e - 53) (-1074) - e) with 0 by lia. reflexivity. }
  rewrite Hs. simpl round_nearest_even. rewrite Hs. simpl shr_m.
  unfold emax, prec. destruct (Z.leb_spec e (1024 - 53)); [reflexivity | lia].
Qed.

Lemma round_of_record q p n :
  1 <= n -> 0 <= p ->
  round_nearest_even q
    (loc_of_shr_record
       (Build_shr_record q (Z.testbit p (n - 1))
          (negb (p mod 2 ^ (n - 1) =? 0) || (false || false))))
  = if (2 ^ (n - 1) <? p mod 2 ^ n) || ((p mod 2 ^ n =? 2 ^ (n - 1)) && Z.odd q)
    then q + 1 else q.
Proof.
  intros Hn Hp.
  assert (E : p mod 2 ^ n
              = p mod 2 ^ (n - 1) + 2 ^ (n - 1) * Z.b2z (Z.testbit p (n - 1))).
  { replace n with ((n - 1) + 1) at 1 by lia.
    rewrite (mod_pow2_split p (n - 1) 1) by lia.
    change (2 ^ 1) with 2. now rewrite bit_as_mod by lia. }
  rewrite E. clear E.
  assert (P : 0 < 2 ^ (n - 1)) by (apply Z.pow_pos_nonneg; lia).
  assert (B : 0 <= p mod 2 ^ (n - 1) < 2 ^ (n - 1)) by (apply Z.mod_pos_bound; lia).
  rewrite orb_false_r.
  destruct (Z.testbit p (n - 1)); simpl Z.b2z;
    destruct (Z.eqb_spec (p mod 2 ^ (n - 1)) 0) as [E0|E0]; simpl negb;
    simpl loc_of_shr_record; simpl round_nearest_even.
  - rewrite E0. replace (0 + 2 ^ (n - 1) * 1) with (2 ^ (n - 1)) by lia.
    rewrite Z.ltb_irrefl, Z.eqb_refl. simpl. rewrite <- Z.negb_even.
    destruct (Z.even q); reflexivity.
  - destruct (Z.ltb_spec (2 ^ (n - 1)) (p mod 2 ^ (n - 1) + 2 ^ (n - 1) * 1)); [reflexivity | lia].
  - rewrite E0. replace (0 + 2 ^ (n - 1) * 0) with 0 by lia.
    destruct (Z.ltb_spec (2 ^ (n - 1)) 0); [lia|].
    destruct (Z.eqb_spec 0 (2 ^ (n - 1))); [lia|]. reflexivity.
  - replace (p mod 2 ^ (n - 1) + 2 ^ (n - 1) * 0) with (p mod 2 ^ (n - 1)) by lia.
    destruct (Z.ltb_spec (2 ^ (n - 1)) (p mod 2 ^ (n - 1))); [lia|].
    destruct (Z.eqb_spec (p mod 2 ^ (n - 1)) (2 ^ (n - 1))); [lia|]. reflexivity.
Qed.

Lemma pow2_split a b : 0 <= a -> 0 <= b -> 2 ^ (a + b) = 2 ^ a * 2 ^ b.
Proof. intros. apply Z.pow_add_r; assumption. Qed.

(** The second shift of the rounding: a mantissa of 53 digits stays, the
    one of 54 digits that a carry can give loses its last bit. *)
Lemma second_shift m1 n :
  2 ^ 52 <= m1 <= 2 ^ 53 -> 0 <= n <= 960 ->
  exists m r s e,
    shr_fexp prec emax m1 n loc_Exact = (Build_shr_record (Zpos m) r s, e)
    /\ -52 <= e <= 971
    /\ Zpos m * 2 ^ (e + 52) = m1 * 2 ^ (n + 52).
Proof.
  intros Hm Hn. unfold shr_fexp. rewrite fexp_eq.
  destruct (Z.eq_dec m1 (2 ^ 53)) as [->|Hne].
  - change (Zdigits2 (2 ^ 53)) with 54.
    replace (Z.max (54 + n - 53) (-1074) - n) with 1 by lia.
    exists (2 ^ 52)%positive, false, false, (n + 1). split; [reflexivity|].
    split; [lia|].
    replace (n + 1 + 52) with (1 + (n + 52)) by lia.
    rewrite (pow2_split 1) by lia. change (Zpos (2 ^ 52)) with (2 ^ 52).
    change (2 ^ 53) with (2 ^ 52 * 2 ^ 1). lia.
  - assert (Hd : Zdigits2 m1 = 53) by (apply digits_unique; simpl; lia).
    rewrite Hd. replace (Z.max (53 + n - 53) (-1074) - n) with 0 by lia.
    destruct m1 as [|m|m]; try (simpl in Hm; lia).
    exists m, false, false, n. split; [reflexivity|]. split; [lia|]. reflexivity.
Qed.

(** The conversion of a positive integer, as a number: the mantissa and
    the exponent stand for the nearest integer of 53 bits. *)
Lemma of_Z_value p :
  Zpos p < 2 ^ 1000 ->
  exists m e,
    of_Z (Zpos p) = S754_finite false m e
    /\ -52 <= e
    /\ Zpos m * 2 ^ (e + 52) = round53 (Zpos p) * 2 ^ 52.
Proof.
  intros Hp.
  pose proof (digits_bounds p) as [Hl Hu].
  pose proof (digits_log2 p) as Hlog.
  set (d := Zpos (digits2_pos p)) in *.
  assert (Hd1 : 1 <= d) by (unfold d; lia).
  assert (Hd2 : d <= 1000).
  { destruct (Z.le_gt_cases d 1000) as [|Hgt]; [assumption|].
    assert (2 ^ 1000 <= 2 ^ (d - 1)) by (apply Z.pow_le_mono_r; lia). lia. }
  unfold of_Z, binary_normalize, binary_round. rewrite Z.add_0_r, fexp_eq. fold d.
  unfold round53. rewrite <- Hlog.
  destruct (Z.leb_spec (d - 53) 0) as [Hsmall|Hbig].
  - replace (Z.max (d - 53) (-1074)) with (d - 53) by lia.
    destruct (shl_align_value p 0 (d - 53) ltac:(lia)) as (mz & -> & Hmz).
    replace (0 - (d - 53)) with (53 - d) in Hmz by lia.
    assert (Hmul : 2 ^ (d - 1) * 2 ^ (53 - d) = 2 ^ 52).
    { rewrite <- pow2_split by lia. f_equal. lia. }
    assert (Hmul' : 2 ^ d * 2 ^ (53 - d) = 2 ^ 53).
    { rewrite <- pow2_split by lia. f_equal. lia. }
    assert (Hpos : 0 < 2 ^ (53 - d)) by (apply Z.pow_pos_nonneg; lia).
    rewrite binary_round_aux_fits.
    + exists mz, (d - 53). split; [reflexivity|]. split; [lia|].
      rewrite Hmz. replace (d - 53 + 52) with (d - 1) by lia.
      rewrite <- Hmul. lia.
    + apply digits_unique; [|lia]. rewrite Hmz. change (53 - 1) with 52. nia.
    + lia.
  - replace (Z.max (d - 53) (-1074)) with (d - 53) by lia.
    rewrite shl_align_keep by lia.
    unfold binary_round_aux.
    set (n := d - 53) in *.
    assert (Hpn : 0 < 2 ^ n) by (apply Z.pow_pos_nonneg; lia).
    assert (Hsplit : 2 ^ d = 2 ^ 53 * 2 ^ n).
    { rewrite <- pow2_split by lia. f_equal. lia. }
    assert (Hsplit' : 2 ^ (d - 1) = 2 ^ 52 * 2 ^ n).
    { rewrite <- pow2_split by lia. f_equal. lia. }
    set (q := Zpos p / 2 ^ n).
    assert (Hq : 2 ^ 52 <= q < 2 ^ 53).
    { unfold q. split.
      - apply Z.div_le_lower_bound; lia.
      - apply Z.div_lt_upper_bound; lia. }
    assert (Hfirst : shr_fexp prec emax (Zpos p) 0 loc_Exact
                     = (Build_shr_record q (Z.testbit (Zpos p) (n - 1))
                          (negb (Zpos p mod 2 ^ (n - 1) =? 0) || (false || false)), n)).
    { unfold shr_fexp. rewrite fexp_eq. change (Zdigits2 (Zpos p)) with d.
      replace (Z.max (d + 0 - 53) (-1074) - 0) with n by lia.
      unfold shr. destruct n as [|k|k] eqn:En; try lia.
      rewrite iter_shr_1_spec by (simpl; lia). reflexivity. }
    rewrite Hfirst. simpl shr_m.
    rewrite round_of_record by lia. fold q.
    set (m1 := if (2 ^ (n - 1) <? Zpos p mod 2 ^ n)
                  || ((Zpos p mod 2 ^ n =? 2 ^ (n - 1)) && Z.odd q)
               then q + 1 else q).
    assert (Hm1 : 2 ^ 52 <= m1 <= 2 ^ 53).
    { unfold m1. match goal with |- context [if ?c then _ else _] => destruct c end; lia. }
    destruct (second_shift m1 n Hm1 ltac:(lia)) as (m & r & s & e & -> & He & Hval).
    simpl shr_m. unfold emax, prec.
    destruct (Z.leb_spec e (1024 - 53)); [|lia].
    exists m, e. split; [reflexivity|]. split; [lia|].
    rewrite Hval. rewrite (pow2_split n 52) by lia. fold m1. ring.
Qed.

Lemma round53_small a : Z.log2 a + 1 - 53 <= 0 -> round53 a = a.
Proof.
  intros H. unfold round53. destruct (Z.leb_spec (Z.log2 a + 1 - 53) 0); [reflexivity | lia].
Qed.

Lemma round53_big a :
  0 < a -> 0 < Z.log2 a + 1 - 53 ->
  let n := Z.log2 a + 1 - 53 in
  let q := a / 2 ^ n in
  2 ^ 52 <= q < 2 ^ 53
  /\ a = q * 2 ^ n + a mod 2 ^ n
  /\ 0 <= a mod 2 ^ n < 2 ^ n
  /\ round53 a
     = (if (2 ^ (n - 1) <? a mod 2 ^ n) || ((a mod 2 ^ n =? 2 ^ (n - 1)) && Z.odd q)
        then q + 1 else q) * 2 ^ n.
Proof.
  intros Ha Hn n q. fold n in Hn.
  assert (Hpn : 0 < 2 ^ n) by (apply Z.pow_pos_nonneg; lia).
  pose proof (Z.log2_spec a Ha) as [Hl Hu].
  assert (E1 : 2 ^ Z.log2 a = 2 ^ 52 * 2 ^ n).
  { rewrite <- pow2_split by lia. f_equal. lia. }
  assert (E2 : 2 ^ Z.succ (Z.log2 a) = 2 ^ 53 * 2 ^ n).
  { rewrite <- pow2_split by lia. f_equal. lia. }
  split; [|split; [|split]].
  - unfold q. split.
    + apply Z.div_le_lower_bound; lia.
    + apply Z.div_lt_upper_bound; lia.
  - unfold q. rewrite Z.mul_comm. apply Z.div_mod. lia.
  - apply Z.mod_pos_bound. lia.
  - unfold round53. fold n. destruct (Z.leb_spec n 0); [lia | reflexivity].
Qed.

(** Rounding to 53 bits keeps the order. *)
Lemma round53_mono a b : 0 < a -> a <= b -> round53 a <= round53 b.
Proof.
  intros Ha Hab.
  pose proof (Z.log2_le_mono a b Hab) as Hlog.
  destruct (Z.le_gt_cases (Z.log2 b + 1 - 53) 0) as [Hb|Hb].
  { rewrite !round53_small by lia. exact Hab. }
  destruct (round53_big b ltac:(lia) Hb) as (Hqb & Hdb & Hrb & ->).
  set (nb := Z.log2 b + 1 - 53) in *. set (qb := b / 2 ^ nb) in *.
  assert (Hpb : 0 < 2 ^ nb) by (apply Z.pow_pos_nonneg; lia).
  assert (Hlow : 2 ^ 52 * 2 ^ nb
                 <= (if (2 ^ (nb - 1) <? b mod 2 ^ nb)
                        || ((b mod 2 ^ nb =? 2 ^ (nb - 1)) && Z.odd qb)
                     then qb + 1 else qb) * 2 ^ nb).
  { match goal with |- context [if ?c then _ else _] => destruct c end; nia. }
  destruct (Z.le_gt_cases (Z.log2 a + 1 - 53) 0) as [Hsa|Hsa].
  { rewrite round53_small by lia.
    pose proof (Z.log2_spec a Ha) as [_ Hu].
    assert (2 ^ Z.succ (Z.log2 a) <= 2 ^ 53) by (apply Z.pow_le_mono_r; lia).
    assert (H2 : 2 ^ 1 <= 2 ^ nb) by (apply Z.pow_le_mono_r; lia).
    change (2 ^ 1) with 2 in H2.
    apply Z.le_trans with (2 ^ 52 * 2 ^ nb); [|exact Hlow].
    apply Z.le_trans with (2 ^ 52 * 2); [change (2 ^ 52 * 2) with (2 ^ 53); lia|].
    apply Z.mul_le_mono_nonneg_l; lia. }
  destruct (round53_big a Ha Hsa) as (Hqa & Hda & Hra & ->).
  set (na := Z.log2 a + 1 - 53) in *. set (qa := a / 2 ^ na) in *.
  assert (Hpa : 0 < 2 ^ na) by (apply Z.pow_pos_nonneg; lia).
  destruct (Z.eq_dec na nb) as [E|NE].
  - assert (Hq : qa <= qb) by (unfold qa, qb; rewrite E; apply Z.div_le_mono; lia).
    rewrite E in *. clear E.
    assert (Hhalf : 0 < 2 ^ (nb - 1)) by (apply Z.pow_pos_nonneg; lia).
    destruct (Z.eq_dec qa qb) as [Eq|Nq].
    + rewrite Eq in *.
      assert (Hrem : a mod 2 ^ nb <= b mod 2 ^ nb) by nia.
      apply Z.mul_le_mono_nonneg_r; [lia|].
      destruct (Z.ltb_spec (2 ^ (nb - 1)) (a mod 2 ^ nb));
        destruct (Z.ltb_spec (2 ^ (nb - 1)) (b mod 2 ^ nb));
        destruct (Z.eqb_spec (a mod 2 ^ nb) (2 ^ (nb - 1)));
        destruct (Z.eqb_spec (b mod 2 ^ nb) (2 ^ (nb - 1)));
        destruct (Z.odd qb); simpl; lia.
    + assert (qa + 1 <= qb) by lia.
      match goal with |- (if ?c then _ else _) * _ <= (if ?c' then _ else _) * _ =>
        destruct c; destruct c' end; nia.
  - assert (Hlt : na + 1 <= nb) by (unfold na, nb in *; lia).
    assert (Hpow : 2 * 2 ^ na <= 2 ^ nb).
    { replace nb with (1 + na + (nb - na - 1)) by lia.
      rewrite !pow2_split by lia. change (2 ^ 1) with 2.
      assert (1 <= 2 ^ (nb - na - 1)) by (apply Z.lt_pred_le; apply Z.pow_pos_nonneg; lia).
      nia. }
    assert (Hup : (if (2 ^ (na - 1) <? a mod 2 ^ na)
                      || ((a mod 2 ^ na =? 2 ^ (na - 1)) && Z.odd qa)
                   then qa + 1 else qa) * 2 ^ na <= 2 ^ 53 * 2 ^ na).
    { match goal with |- context [if ?c then _ else _] => destruct c end; nia. }
    change (2 ^ 53) with (2 * 2 ^ 52) in Hup. nia.
Qed.

Lemma binary_round_negative m e :
  ltb zero (binary_round prec emax true m e) = false.
Proof.
  unfold ltb, zero, SFltb, binary_round.
  destruct (shl_align m e _) as [mz ez]. unfold binary_round_aux.
  destruct (shr_fexp prec emax (Zpos mz) ez loc_Exact) as [mrs' e'].
  destruct (shr_fexp prec emax _ e' loc_Exact) as [mrs'' e''].
  destruct (shr_m mrs'') as [|k|k]; try reflexivity.
  destruct (e'' <=? emax - prec); reflexivity.
Qed.

(** The difference of two positive numbers is not above zero when the
    first is not above the second. *)
Lemma finite_sub_not_positive ma ea mb eb :
  -52 <= ea -> -52 <= eb ->
  Zpos ma * 2 ^ (ea + 52) <= Zpos mb * 2 ^ (eb + 52) ->
  ltb zero (sub (S754_finite false ma ea) (S754_finite false mb eb)) = false.
Proof.
  intros Ha Hb Hle. unfold sub, SFsub. cbv zeta.
  set (ez := Z.min ea eb).
  destruct (shl_align_value ma ea ez ltac:(lia)) as (mza & -> & Hza).
  destruct (shl_align_value mb eb ez ltac:(lia)) as (mzb & -> & Hzb).
  simpl fst. unfold cond_Zopp.
  assert (Hz : 0 < 2 ^ (ez + 52)) by (apply Z.pow_pos_nonneg; lia).
  assert (Ea : Zpos ma * 2 ^ (ea + 52) = Zpos mza * 2 ^ (ez + 52)).
  { rewrite Hza, <- Z.mul_assoc, <- pow2_split by lia. f_equal. f_equal. lia. }
  assert (Eb : Zpos mb * 2 ^ (eb + 52) = Zpos mzb * 2 ^ (ez + 52)).
  { rewrite Hzb, <- Z.mul_assoc, <- pow2_split by lia. f_equal. f_equal. lia. }
  assert (Hd : Zpos mza - Zpos mzb <= 0) by nia.
  destruct (Zpos mza - Zpos mzb) as [|k|k]; [reflexivity | lia |].
  apply binary_round_negative.
Qed.

(** Converting two integers and subtracting: the difference is not above
    zero when the first integer is not above the second. *)
Lemma of_Z_sub_not_positive a b :
  0 <= a <= b -> b < 2 ^ 1000 ->
  ltb zero (sub (of_Z a) (of_Z b)) = false.
Proof.
  intros [Ha Hab] Hb.
  destruct b as [|pb|pb]; try lia.
  { assert (a = 0) as -> by lia. reflexivity. }
  destruct (of_Z_value pb Hb) as (mb & eb & -> & Heb & Hvb).
  destruct a as [|pa|pa]; try lia.
  { reflexivity. }
  destruct (of_Z_value pa ltac:(lia)) as (ma & ea & -> & Hea & Hva).
  apply finite_sub_not_positive; try assumption.
  rewrite Hva, Hvb. apply Z.mul_le_mono_nonneg_r; [lia|].
  apply round53_mono; lia.
Qed.

Lemma div_zero_positive y :
  (exists m e, y = S754_finite false m e) \/ y = S754_infinity false ->
  div zero y = zero.
Proof. intros [(m & e & ->)| ->]; reflexivity. Qed.

Lemma linux_rounding_of_zero :
  div (Round (mul zero (of_Z 1000))) (of_Z 1000) = zero.
Proof. vm_compute. reflexivity. Qed.
End FloatFacts.

Section CpuFacts.
Import F64 Stats.

Lemma linux_guard_closed v :
  ltb zero (systemDelta v) && ltb zero (cpuDelta v) = false ->
  calculateDockerAbsoluteCpu_linux v = zero.
Proof.
  intros H. unfold calculateDockerAbsoluteCpu_linux. rewrite H.
  apply linux_rounding_of_zero.
Qed.

Lemma possIntervals_no_elapsed v :
  Time.Sub (Read v) (PreRead v) = 0 -> possIntervals v = 0.
Proof. intros H. unfold possIntervals. rewrite H. reflexivity. Qed.

Lemma possIntervals_no_procs v : NumProcs v = 0 -> possIntervals v = 0.
Proof.
  intros H. unfold possIntervals. rewrite H.
  change (wrap_uint64 0) with 0. rewrite Z.mul_0_r. reflexivity.
Qed.

(** C4, as the sources have it. Variant A gives 0.0 whenever one of its
    two deltas is not above zero, and so for every pair of readings between
    which the system counter or the CPU counter of the container did not
    grow. Variant B gives 0.0 when its count of possible intervals is zero
    (no time elapsed between the two reads, or no processor) and when the
    count of used intervals is zero. *)
Theorem calculateDockerAbsoluteCpu_zero (v : StatsJSON) :
  (leb (systemDelta v) zero = true \/ leb (cpuDelta v) zero = true ->
     calculateDockerAbsoluteCpu_linux v = zero)
  /\ (reading_ok v ->
      SystemUsage (CPUStats_ v) <= SystemUsage (PreCPUStats v)
      \/ TotalUsage (CPUUsage_ (CPUStats_ v)) <= TotalUsage (CPUUsage_ (PreCPUStats v)) ->
      calculateDockerAbsoluteCpu_linux v = zero)
  /\ (possIntervals v = 0 -> calculateDockerAbsoluteCpu_windows v = zero)
  /\ (Time.Sub (Read v) (PreRead v) = 0 \/ NumProcs v = 0 ->
      calculateDockerAbsoluteCpu_windows v = zero)
  /\ (intervalsUsed v = 0 -> calculateDockerAbsoluteCpu_windows v = zero).
Proof.
  assert (W0 : possIntervals v = 0 -> calculateDockerAbsoluteCpu_windows v = zero).
  { intros H. unfold calculateDockerAbsoluteCpu_windows. rewrite H. reflexivity. }
  split; [|split; [|split; [|split]]].
  - intros [H|H]; apply linux_guard_closed; apply leb_zero_not_gt in H; rewrite H.
    + reflexivity.
    + apply andb_false_r.
  - intros (Hc & Hp & _) [H|H]; apply linux_guard_closed.
    + unfold systemDelta. rewrite of_Z_sub_not_positive; [reflexivity | |].
      * destruct Hc as (_ & Hs & _). unfold is_uint64 in Hs. lia.
      * destruct Hp as (_ & Hs & _). unfold is_uint64 in Hs.
        assert (2 ^ 64 < 2 ^ 1000) by (apply Z.pow_lt_mono_r; lia). lia.
    + unfold cpuDelta. rewrite of_Z_sub_not_positive; [apply andb_false_r | |].
      * destruct Hc as (Hs & _). unfold is_uint64 in Hs. lia.
      * destruct Hp as (Hs & _). unfold is_uint64 in Hs.
        assert (2 ^ 64 < 2 ^ 1000) by (apply Z.pow_lt_mono_r; lia). lia.
  - exact W0.
  - intros [H|H]; apply W0; [now apply possIntervals_no_elapsed | now apply possIntervals_no_procs].
  - intros H. destruct (wrap_uint64_zero
      (wrap_uint64 (Time.Nanoseconds (Time.Sub (Read v) (PreRead v))) / 100
       * wrap_uint64 (NumProcs v))) as [Hz|Hp].
    + apply W0. exact Hz.
    + unfold calculateDockerAbsoluteCpu_windows. fold (possIntervals v) in Hp.
      destruct (Z.ltb_spec 0 (possIntervals v)); [|lia].
      rewrite H. change (of_Z 0) with zero.
      rewrite (div_zero_positive _ (of_Z_positive _ Hp)). reflexivity.
Qed.

(** C4 as stated fails for Variant B: with a CPU delta below zero the
    difference wraps around in uint64 and the percentage is far from 0. *)
Lemma calculateDockerAbsoluteCpu_windows_not_zero :
  reading_ok reading_counter_went_down
  /\ TotalUsage (CPUUsage_ (CPUStats_ reading_counter_went_down))
      - TotalUsage (CPUUsage_ (PreCPUStats reading_counter_went_down)) <= 0
  /\ calculateDockerAbsoluteCpu_windows reading_counter_went_down <> zero.
Proof.
  split; [|split].
  - unfold reading_ok, cpu_ok, uint32_ok, is_uint64. simpl. lia.
  - simpl. lia.
  - vm_compute. discriminate.
Qed.
End CpuFacts.

(** ** Network bootstrap *)

Section NetworkFacts.
Import Network.

Lemma Docker_ready w :
  client_ready w = true ->
  exists w0, Docker w = (w0, true, None)
    /\ once_done w0 = true /\ client w0 = true
    /\ reachable w0 = reachable w /\ default_driver w0 = default_driver w
    /\ networks w0 = networks w /\ creates w0 = creates w /\ config w0 = config w.
Proof.
  unfold client_ready, Docker. intros H.
  destruct (once_done w) eqn:Eo.
  - exists w. rewrite H. repeat split; auto.
  - rewrite H. eexists. split; [reflexivity|]. simpl. repeat split; auto.
Qed.

Local Ltac solve_driver :=
  try reflexivity; try contradiction; try discriminate;
  try match goal with
      | H : _ \/ _ |- _ => destruct H; try contradiction; discriminate
      end.

(** What the switch of the callback does, driver by driver. *)
Lemma apply_driver_cases r c :
  let c' := apply_driver r c in
  Driver c' = RDriver r /\ Name c' = Name c /\ Interfaces c' = Interfaces c
  /\ (RDriver r = "host" -> Interface c' = "127.0.0.1" /\ ISPN c' = false)
  /\ (RDriver r = "overlay" \/ RDriver r = "weavemesh" ->
      Interface c' = "" /\ ISPN c' = true)
  /\ (RDriver r <> "host" -> RDriver r <> "overlay" -> RDriver r <> "weavemesh" ->
      Interface c' = Interface c /\ ISPN c' = false).
Proof.
  unfold apply_driver. simpl.
  destruct (String.eqb_spec (RDriver r) "host") as [Eh|Nh].
  { simpl. rewrite Eh. repeat split; intros; solve_driver. }
  destruct (String.eqb_spec (RDriver r) "overlay") as [Eo|No].
  { simpl. rewrite Eo. repeat split; intros; solve_driver. }
  destruct (String.eqb_spec (RDriver r) "weavemesh") as [Ew|Nw].
  { simpl. rewrite Ew. repeat split; intros; solve_driver. }
  simpl. repeat split; intros; solve_driver.
Qed.

(** The found path, step by step. *)
Lemma ConfigureDocker_present h w r :
  client_ready w = true -> reachable w = true ->
  networks w !! Name (config w) = Some r ->
  exists w',
    ConfigureDocker h w = (w', Done)
    /\ client_ready w' = true /\ reachable w' = true
    /\ networks w' = networks w
    /\ creates w' = creates w
    /\ config w' = apply_driver r (config w).
Proof.
  intros Hc Hr Hn.
  destruct (Docker_ready w Hc) as (w0 & HD & Ho0 & Hcl0 & Hr0 & _ & Hn0 & Hcr0 & Hcf0).
  unfold ConfigureDocker. rewrite HD. simpl.
  unfold NetworkInspect. rewrite Hr0, Hr, Hn0, Hcf0, Hn. simpl.
  eexists. split; [reflexivity|]. simpl. unfold client_ready. simpl.
  rewrite Ho0, Hcl0, Hcf0. repeat split; congruence.
Qed.

(** C7. When the inspection finds the configured network, the call ends
    with nil, sends no create, and the configuration takes the driver found:
    "host" gives the loopback interface and ISPN false, "overlay" and
    "weavemesh" give no interface and ISPN true, any other driver gives
    ISPN false (and keeps the interface). *)
Theorem ConfigureDocker_found h w r :
  client_ready w = true -> reachable w = true ->
  networks w !! Name (config w) = Some r ->
  exists w',
    ConfigureDocker h w = (w', Done)
    /\ creates w' = creates w
    /\ Driver (config w') = RDriver r
    /\ (RDriver r = "host" ->
        Interface (config w') = "127.0.0.1" /\ ISPN (config w') = false)
    /\ (RDriver r = "overlay" \/ RDriver r = "weavemesh" ->
        Interface (config w') = "" /\ ISPN (config w') = true)
    /\ (RDriver r <> "host" -> RDriver r <> "overlay" -> RDriver r <> "weavemesh" ->
        Interface (config w') = Interface (config w) /\ ISPN (config w') = false).
Proof.
  intros Hc Hr Hn.
  destruct (ConfigureDocker_present h w r Hc Hr Hn) as (w' & E & _ & _ & _ & Hcr & Hcf).
  exists w'. split; [exact E|]. split; [exact Hcr|]. rewrite Hcf.
  destruct (apply_driver_cases r (config w)) as (A & _ & _ & B & C & D).
  auto.
Qed.

(** The create path, step by step. *)
Lemma ConfigureDocker_missing h w :
  client_ready w = true -> reachable w = true ->
  Name (config w) <> "" ->
  networks w !! Name (config w) = None ->
  exists w',
    ConfigureDocker h w = (w', Done)
    /\ client_ready w' = true /\ reachable w' = true
    /\ creates w' = creates w ++ [(Name (config w), create_request h (config w))]
    /\ networks w' =
         <[Name (config w) :=
             mkResource (Name (config w))
               (if (Driver (config w) =? "")%string then default_driver w
                else Driver (config w))]> (networks w)
    /\ Name (config w') = Name (config w)
    /\ Driver (config w') = ""
    /\ ISPN (config w') = false
    /\ Interface (config w') =
         (if special_driver (Driver (config w)) then Interface (config w)
          else Gateway (V4 (Interfaces (config w)))).
Proof.
  intros Hc Hr Hne Hn.
  destruct (Docker_ready w Hc) as (w0 & HD & Ho0 & Hcl0 & Hr0 & Hd0 & Hn0 & Hcr0 & Hcf0).
  unfold ConfigureDocker. rewrite HD. simpl.
  unfold NetworkInspect. rewrite Hr0, Hr, Hn0, Hcf0, Hn. simpl.
  unfold createDockerNetwork, NetworkCreate_call.
  rewrite Hr0, Hr, Hn0, Hcf0, Hn. simpl.
  destruct (String.eqb_spec (Name (config w)) "") as [E|_]; [contradiction|].
  assert (Hreq : CDriver (create_request h (config w)) = Driver (config w))
    by (destruct h; reflexivity).
  rewrite Hreq, Hd0, Hcr0.
  destruct (special_driver (Driver (config w))) eqn:Es; simpl.
  - eexists. split; [reflexivity|]. simpl.
    unfold client_ready. simpl. rewrite Ho0, Hcl0.
    repeat split; reflexivity.
  - eexists. split; [reflexivity|]. simpl.
    unfold client_ready. simpl. rewrite Ho0, Hcl0.
    repeat split; reflexivity.
Qed.

(** C10. On the create path (the inspection reported not-found and the
    network was created) the configuration takes its driver from the zero
    resource of the failed inspection: the configured driver becomes the
    empty string and ISPN false, whatever driver the network was created
    with. *)
Theorem ConfigureDocker_create_path_driver h w :
  client_ready w = true -> reachable w = true ->
  Name (config w) <> "" ->
  networks w !! Name (config w) = None ->
  exists w' created,
    ConfigureDocker h w = (w', Done)
    /\ networks w' !! Name (config w) = Some created
    /\ RDriver created =
         (if (Driver (config w) =? "")%string then default_driver w
          else Driver (config w))
    /\ Driver (config w') = RDriver zero_resource
    /\ Driver (config w') = ""
    /\ ISPN (config w') = false.
Proof.
  intros Hc Hr Hne Hn.
  destruct (ConfigureDocker_missing h w Hc Hr Hne Hn)
    as (w' & E & _ & _ & _ & Hnets & _ & Hd & Hi & _).
  exists w'. eexists. split; [exact E|].
  rewrite Hnets, lookup_insert_eq. split; [reflexivity|]. simpl.
  repeat split; assumption.
Qed.

(** C6. Two calls in succession send exactly one create when the network
    is missing at first: the first call creates it, the inspection of the
    second call finds it. (When the network is there from the start, no
    create is sent at all.) *)
Theorem ConfigureDocker_twice_one_create h w :
  client_ready w = true -> reachable w = true ->
  Name (config w) <> "" ->
  networks w !! Name (config w) = None ->
  exists w2 w1 found,
    ConfigureDocker_twice h w = (w2, Done, Done)
    /\ ConfigureDocker h w = (w1, Done)
    /\ NetworkInspect w1 (Name (config w1)) = (found, None)
    /\ creates w2 = creates w ++ [(Name (config w), create_request h (config w))]
    /\ create_calls w2 = S (create_calls w).
Proof.
  intros Hc Hr Hne Hn.
  destruct (ConfigureDocker_missing h w Hc Hr Hne Hn)
    as (w1 & E1 & Hc1 & Hr1 & Hcr1 & Hnets1 & Hname1 & _).
  assert (Hfound : networks w1 !! Name (config w1)
                   = Some (mkResource (Name (config w))
                             (if (Driver (config w) =? "")%string
                              then default_driver w else Driver (config w)))).
  { rewrite Hname1, Hnets1. apply lookup_insert_eq. }
  destruct (ConfigureDocker_present h w1 _ Hc1 Hr1 Hfound) as (w2 & E2 & _ & _ & _ & Hcr2 & _).
  exists w2, w1. eexists.
  unfold ConfigureDocker_twice. rewrite E1, E2.
  split; [reflexivity|]. split; [reflexivity|].
  split. { unfold NetworkInspect. rewrite Hr1, Hfound. reflexivity. }
  split. { now rewrite Hcr2, Hcr1. }
  unfold create_calls. rewrite Hcr2, Hcr1, length_app. simpl. lia.
Qed.

(** With the network there from the start, two calls send no create. *)
Lemma ConfigureDocker_twice_no_create h w r :
  client_ready w = true -> reachable w = true ->
  networks w !! Name (config w) = Some r ->
  exists w2, ConfigureDocker_twice h w = (w2, Done, Done) /\ creates w2 = creates w.
Proof.
  intros Hc Hr Hn.
  destruct (ConfigureDocker_present h w r Hc Hr Hn)
    as (w1 & E1 & Hc1 & Hr1 & Hn1 & Hcr1 & Hcf1).
  assert (Hfound : networks w1 !! Name (config w1) = Some r).
  { rewrite Hcf1, Hn1. destruct (apply_driver_cases r (config w)) as (_ & -> & _).
    exact Hn. }
  destruct (ConfigureDocker_present h w1 r Hc1 Hr1 Hfound)
    as (w2 & E2 & _ & _ & _ & Hcr2 & _).
  exists w2. unfold ConfigureDocker_twice. rewrite E1, E2.
  split; [reflexivity|]. now rewrite Hcr2.
Qed.

Lemma ConfigureDocker_found_witness :
  networks overlay_world !! Name (config overlay_world)
    = Some (mkResource "pterodactyl_nw" "overlay")
  /\ exists w', ConfigureDocker Windows overlay_world = (w', Done)
                /\ Interface (config w') = "" /\ ISPN (config w') = true.
Proof.
  split; [reflexivity|].
  destruct (ConfigureDocker_found Windows overlay_world
              (mkResource "pterodactyl_nw" "overlay") eq_refl eq_refl eq_refl)
    as (w' & E & _ & _ & _ & H & _).
  exists w'. split; [exact E|]. apply H. now left.
Defined.

Lemma fresh_world_named : Name (config fresh_world) <> "".
Proof. discriminate. Qed.

Lemma ConfigureDocker_create_path_driver_witness :
  Driver (config fresh_world) = "nat"
  /\ networks fresh_world !! Name (config fresh_world) = None
  /\ exists w', ConfigureDocker Windows fresh_world = (w', Done)
                /\ Driver (config w') = "" /\ ISPN (config w') = false.
Proof.
  split; [reflexivity|]. split; [reflexivity|].
  destruct (ConfigureDocker_create_path_driver Windows fresh_world
              eq_refl eq_refl fresh_world_named eq_refl)
    as (w' & created & E & _ & _ & _ & Hd & Hi).
  exists w'. auto.
Defined.

Lemma ConfigureDocker_twice_one_create_witness :
  networks fresh_world !! Name (config fresh_world) = None
  /\ exists w2, ConfigureDocker_twice Linux fresh_world = (w2, Done, Done)
                /\ create_calls w2 = 1%nat.
Proof.
  split; [reflexivity|].
  destruct (ConfigureDocker_twice_one_create Linux fresh_world
              eq_refl eq_refl fresh_world_named eq_refl)
    as (w2 & w1 & found & E & _ & _ & _ & Hn).
  exists w2. split; [exact E | exact Hn].
Defined.

End NetworkFacts.

(** ** DirectorySize *)

Section DirectorySizeFacts.
Import Filesystem.

(** A link whose path check fails with the path resolution code is passed
    over by the walk of the Linux build: nothing is added, nothing below it
    is visited, and its siblings follow. *)
Lemma size_walk_skips_escaping_link fs p n rest size e :
  is_symlink (dirent n) = true ->
  SafePath fs (Join p (name (dirent n))) = inr e ->
  IsErrorCode_PathResolution e = true ->
  walk_children (size_callback fs) p (Cons n rest) size
  = walk_children (size_callback fs) p rest size.
Proof.
  intros Hl Hs He. destruct n as [d ch]. simpl in Hl, Hs.
  simpl. unfold size_callback at 1. rewrite Hl, Hs, He. reflexivity.
Qed.

Lemma size_walk_counts_file fs p d rest size :
  is_symlink d = false -> is_dir d = false ->
  walk_children (size_callback fs) p (Cons (Node d Nil) rest) size
  = walk_children (size_callback fs) p rest (wrap_int64 (size + lsize d)).
Proof.
  intros Hl Hd. simpl. unfold size_callback at 1. rewrite Hl, Hd. reflexivity.
Qed.

(** C1, as the sources have it. A root holding one regular file of 100
    bytes and one link whose path check fails with the path resolution code:
    the Linux build returns exactly 100 and no error, in either order of the
    two entries, because a link failing that check is passed over with what
    is below it; the second build makes no path check on the entries, does
    not go below the link and adds the size Lstat reports for the link. *)
Theorem DirectorySize_file_and_escaping_link
    fs dir d rootd file link below e :
  SafePath fs dir = inl d ->
  is_dir rootd = true -> is_symlink rootd = false -> readable rootd = true ->
  is_dir file = false -> is_symlink file = false -> lsize file = 100 ->
  is_symlink link = true ->
  SafePath fs (Join d (name link)) = inr e ->
  IsErrorCode_PathResolution e = true ->
  let file_first := Node rootd (Cons (Node file Nil) (Cons (Node link below) Nil)) in
  let link_first := Node rootd (Cons (Node link below) (Cons (Node file Nil) Nil)) in
  DirectorySize Linux fs dir file_first = (100, None)
  /\ DirectorySize Linux fs dir link_first = (100, None)
  /\ (forall p n rest size e',
        is_symlink (dirent n) = true ->
        SafePath fs (Join p (name (dirent n))) = inr e' ->
        IsErrorCode_PathResolution e' = true ->
        walk_children (size_callback fs) p (Cons n rest) size
        = walk_children (size_callback fs) p rest size)
  /\ (is_dir link = false ->
      DirectorySize Windows fs dir file_first = (wrap_int64 (100 + lsize link), None)
      /\ DirectorySize Windows fs dir link_first = (wrap_int64 (lsize link + 100), None)).
Proof.
  intros Hs Hrd Hrl Hrr Hfd Hfl Hfs Hll Hls He file_first link_first.
  assert (Hroot : forall ch size,
    walk (size_callback fs) d (Node rootd ch) size
    = walk_children (size_callback fs) d ch size).
  { intros ch size. simpl. unfold size_callback at 1. rewrite Hrl, Hrd, Hrr.
    reflexivity. }
  split; [|split; [|split; [|intros Hld; split]]].
  - unfold DirectorySize, DirectorySize_linux, Walk, file_first. rewrite Hs. simpl dirent.
    rewrite Hrd. simpl negb. cbv iota. rewrite Hroot.
    rewrite size_walk_counts_file by assumption.
    rewrite (size_walk_skips_escaping_link fs d (Node link below) Nil _ e) by assumption.
    simpl. rewrite Hfs. reflexivity.
  - unfold DirectorySize, DirectorySize_linux, Walk, link_first. rewrite Hs. simpl dirent.
    rewrite Hrd. simpl negb. cbv iota. rewrite Hroot.
    rewrite (size_walk_skips_escaping_link fs d (Node link below) _ _ e) by assumption.
    rewrite size_walk_counts_file by assumption.
    simpl. rewrite Hfs. reflexivity.
  - intros. eapply size_walk_skips_escaping_link; eassumption.
  - unfold DirectorySize, DirectorySize_windows, file_first. rewrite Hs. simpl.
    unfold size_walkFn. rewrite ?Hrd, ?Hrr, ?Hfd, ?Hld. simpl.
    rewrite ?Hrd, ?Hrr, ?Hfd, ?Hld, ?Hfs. reflexivity.
  - unfold DirectorySize, DirectorySize_windows, link_first. rewrite Hs. simpl.
    unfold size_walkFn. rewrite ?Hrd, ?Hrr, ?Hfd, ?Hld. simpl.
    rewrite ?Hrd, ?Hrr, ?Hfd, ?Hld, ?Hfs.
    rewrite wrap_int64_add_l. reflexivity.
Qed.

Lemma DirectorySize_file_and_escaping_link_witness :
  DirectorySize Linux jail "srv" small_tree = (100, None)
  /\ DirectorySize Windows jail "srv" small_tree = (109, None).
Proof.
  pose proof (DirectorySize_file_and_escaping_link jail "srv" "/volumes/srv"
                root_entry file_entry link_entry Nil
                (PathResolution "/volumes/srv/out")
                eq_refl eq_refl eq_refl eq_refl eq_refl eq_refl eq_refl
                eq_refl eq_refl eq_refl) as H.
  destruct H as (H1 & _ & _ & H2). split; [exact H1 | exact (proj1 (H2 eq_refl))].
Defined.

(** C1 as stated fails on the second build: the link is not checked and
    the 9 bytes Lstat reports for it are added. *)
Lemma DirectorySize_windows_counts_link :
  SafePath jail (Join "/volumes/srv" (name link_entry))
    = inr (PathResolution "/volumes/srv/out")
  /\ DirectorySize Windows jail "srv" small_tree <> (100, None).
Proof. split; [reflexivity | vm_compute; discriminate]. Qed.
End DirectorySizeFacts.

(** ** Chown *)

Section ChownFacts.
Import Filesystem.

Lemma reaches_link_only_itself p d ch q m :
  is_symlink d = true -> reaches p (Node d ch) q m -> m = Node d ch /\ q = p.
Proof.
  intros Hl H. inversion H; subst.
  - split; reflexivity.
  - congruence.
Qed.

Lemma reaches_file_only_itself p d ch q m :
  is_dir d = false -> reaches p (Node d ch) q m -> m = Node d ch /\ q = p.
Proof.
  intros Hl H. inversion H; subst.
  - split; reflexivity.
  - congruence.
Qed.

(** What the walk of [Chown] adds to the log: only paths of entries that
    are not links and are reached through directories that are not links;
    and, when the walk does not end in an error, all of them. *)
Lemma chown_walk_log fs :
  (forall n p owned owned' r,
     walk (chown_callback fs) p n owned = (owned', r) ->
     exists added,
       owned' = owned ++ added
       /\ (forall q, In q added -> exists m, reaches p n q m /\ plain m)
       /\ ((forall e, r <> CbErr e) ->
           forall q m, reaches p n q m -> plain m -> In q added))
  /\ (forall f p owned owned' r,
     walk_children (chown_callback fs) p f owned = (owned', r) ->
     exists added,
       owned' = owned ++ added
       /\ (forall q, In q added ->
             exists c m, In_forest c f
                         /\ reaches (Join p (name (dirent c))) c q m /\ plain m)
       /\ ((forall e, r <> CbErr e) ->
           forall c q m, In_forest c f ->
             reaches (Join p (name (dirent c))) c q m -> plain m -> In q added)).
Proof.
  apply tree_ind.
  - (* a node *)
    intros d ch IH p owned owned' r. simpl. unfold chown_callback, set_owner.
    destruct (is_symlink d) eqn:Hl.
    { (* a link: nothing is added *)
      intros H. exists []. rewrite app_nil_r.
      assert (owned' = owned) as -> by (destruct (is_dir d); congruence).
      split; [reflexivity|]. split; [intros q []|].
      intros _ q m Hr Hp. apply (reaches_link_only_itself _ _ _ _ _ Hl) in Hr as [-> _].
      unfold plain in Hp. simpl in Hp. congruence. }
    destruct (denied fs p) eqn:Hden.
    { intros [= <- <-]. exists []. rewrite app_nil_r. split; [reflexivity|].
      split; [intros q []|]. intros Hne. exfalso. eapply Hne. reflexivity. }
    assert (Hself : reaches p (Node d ch) p (Node d ch) /\ plain (Node d ch)).
    { split; [constructor | exact Hl]. }
    destruct (is_dir d) eqn:Hd; simpl.
    2:{ intros [= <- <-]. exists [p]. split; [reflexivity|]. split.
        - intros q [<-|[]]. eexists; exact Hself.
        - intros _ q m Hr _. apply (reaches_file_only_itself _ _ _ _ _ Hd) in Hr as [_ ->].
          now left. }
    destruct (readable d) eqn:Hrd; simpl.
    2:{ intros [= <- <-]. exists [p]. split; [reflexivity|]. split.
        - intros q [<-|[]]. eexists; exact Hself.
        - intros Hne. exfalso. eapply Hne. reflexivity. }
    intros H. destruct (IH _ _ _ _ H) as (added & -> & Hs & Hc).
    exists (p :: added). split; [now rewrite <- app_assoc|]. split.
    + intros q [<-|Hin]; [eexists; exact Hself|].
      destruct (Hs q Hin) as (c & m & Hcf & Hr & Hp).
      exists m. split; [|exact Hp]. eapply reaches_down; eassumption.
    + intros Hne q m Hr Hp. inversion Hr; subst.
      * now left.
      * right. eapply Hc; eassumption.
  - (* the empty forest *)
    intros p owned owned' r [= <- <-]. exists []. rewrite app_nil_r.
    split; [reflexivity|]. split; [intros q []|].
    intros _ c q m Hin. inversion Hin.
  - (* a node and its later siblings *)
    intros n IHn rest IHrest p owned owned' r. simpl.
    destruct (walk (chown_callback fs) (Join p (name (dirent n))) n owned)
      as [s1 r1] eqn:E1.
    destruct (IHn _ _ _ _ E1) as (a1 & -> & Hs1 & Hc1).
    assert (Hstop : forall e, r1 = CbErr e ->
      (owned ++ a1, CbErr e) = (owned', r) ->
      exists added, owned' = owned ++ added
        /\ (forall q, In q added -> exists c m, In_forest c (Cons n rest)
              /\ reaches (Join p (name (dirent c))) c q m /\ plain m)
        /\ ((forall e, r <> CbErr e) -> forall c q m, In_forest c (Cons n rest) ->
              reaches (Join p (name (dirent c))) c q m -> plain m -> In q added)).
    { intros e _ [= <- <-]. exists a1. split; [reflexivity|]. split.
      - intros q Hin. destruct (Hs1 q Hin) as (m & Hr & Hp).
        exists n, m. split; [constructor|]. split; assumption.
      - intros Hne. exfalso. eapply Hne. reflexivity. }
    assert (Hgo : (forall e, r1 <> CbErr e) ->
      walk_children (chown_callback fs) p rest (owned ++ a1) = (owned', r) ->
      exists added, owned' = owned ++ added
        /\ (forall q, In q added -> exists c m, In_forest c (Cons n rest)
              /\ reaches (Join p (name (dirent c))) c q m /\ plain m)
        /\ ((forall e, r <> CbErr e) -> forall c q m, In_forest c (Cons n rest) ->
              reaches (Join p (name (dirent c))) c q m -> plain m -> In q added)).
    { intros Hr1 H. destruct (IHrest _ _ _ _ H) as (a2 & -> & Hs2 & Hc2).
      exists (a1 ++ a2). split; [now rewrite app_assoc|]. split.
      - intros q Hin. apply in_app_or in Hin as [Hin|Hin].
        + destruct (Hs1 q Hin) as (m & Hr & Hp).
          exists n, m. split; [constructor|]. split; assumption.
        + destruct (Hs2 q Hin) as (c & m & Hcf & Hr & Hp).
          exists c, m. split; [now constructor|]. split; assumption.
      - intros Hne c q m Hcf Hr Hp. apply in_or_app. inversion Hcf; subst.
        + left. eapply Hc1; eassumption.
        + right. eapply Hc2; eassumption. }
    destruct r1 as [| |e].
    + apply Hgo. intros e; discriminate.
    + apply Hgo. intros e; discriminate.
    + apply (Hstop e eq_refl).
Qed.

Lemma chown_walk_leaves_links fs p n owned :
  is_symlink (dirent n) = true ->
  exists r, walk (chown_callback fs) p n owned = (owned, r)
            /\ forall e, r <> CbErr e.
Proof.
  intros Hl. destruct n as [d ch]. simpl in Hl. simpl. unfold chown_callback.
  rewrite Hl. destruct (is_dir d); eexists; (split; [reflexivity | discriminate]).
Qed.

(** C2. Past its checks, [Chown] sets the owner of the root first, whatever
    the root is, and does nothing more when that is refused. It returns at
    once, with nil, when Stat fails or does not report a directory. In the
    walk no link is touched and nothing below a link is reached: every path
    whose owner the walk sets belongs to an entry that is not a link and is
    reached through directories that are not links. When the walk was made
    and no error is returned, every such entry has had its owner set. *)
Theorem Chown_ownership fs path cleaned stat root owned err :
  SafePath fs path = inl cleaned ->
  isTest fs = false ->
  (exists u, uSid fs = inl u) -> (exists g, gSid fs = inl g) ->
  Chown fs path stat root = (owned, err) ->
  (denied fs cleaned = true -> owned = [] /\ err <> None)
  /\ (denied fs cleaned = false ->
      exists walked,
        owned = cleaned :: walked
        /\ (stat <> Some true -> walked = [] /\ err = None)
        /\ (forall q, In q walked -> exists m, reaches cleaned root q m /\ plain m)
        /\ (stat = Some true -> err = None ->
            forall q m, reaches cleaned root q m -> plain m -> In q walked))
  /\ (forall p n owned0,
        is_symlink (dirent n) = true ->
        exists r, walk (chown_callback fs) p n owned0 = (owned0, r)
                  /\ forall e, r <> CbErr e).
Proof.
  intros Hs Ht [u Hu] [g Hg]. unfold Chown. rewrite Hs, Ht, Hu, Hg.
  unfold set_owner at 1. simpl.
  assert (Hlinks : forall p n owned0,
            is_symlink (dirent n) = true ->
            exists r, walk (chown_callback fs) p n owned0 = (owned0, r)
                      /\ forall e, r <> CbErr e).
  { intros. now apply chown_walk_leaves_links. }
  destruct (denied fs cleaned) eqn:Hden.
  { intros [= <- <-].
    split; [intros _; split; [reflexivity | discriminate]|].
    split; [discriminate | exact Hlinks]. }
  split; [discriminate|]. split; [|exact Hlinks]. intros _.
  assert (Hearly : (owned, err) = ([cleaned], None) ->
            stat <> Some true ->
            exists walked,
              owned = cleaned :: walked
              /\ (stat <> Some true -> walked = [] /\ err = None)
              /\ (forall q, In q walked -> exists m, reaches cleaned root q m /\ plain m)
              /\ (stat = Some true -> err = None ->
                  forall q m, reaches cleaned root q m -> plain m -> In q walked)).
  { intros [= -> ->] Hst. exists []. split; [reflexivity|].
    split; [intros _; split; reflexivity|]. split; [intros q []|].
    intros Hst'. now destruct Hst. }
  destruct stat as [[|]|]; simpl in H |- *;
    try (apply Hearly; [symmetry; exact H | discriminate]).
  clear Hearly. unfold Walk in H.
  destruct (is_dir (dirent root)) eqn:Hd; simpl in H.
  2:{ injection H as <- <-. exists []. split; [reflexivity|].
      split; [intros Hst; now destruct Hst|]. split; [intros q []|].
      intros _ [=]. }
  destruct (walk (chown_callback fs) cleaned root [cleaned]) as [o r] eqn:Ew.
  destruct (proj1 (chown_walk_log fs) _ _ _ _ _ Ew) as (added & -> & Hsound & Hcomplete).
  assert (Ho : owned = [cleaned] ++ added) by (destruct r; congruence).
  subst owned. exists added. split; [reflexivity|].
  split; [intros Hst; now destruct Hst|]. split; [exact Hsound|].
  intros _ ->. apply Hcomplete. destruct r; discriminate.
Qed.

Lemma Chown_ownership_witness :
  Chown jail "srv" (Some true) deep_tree
    = (["/volumes/srv"; "/volumes/srv"; "/volumes/srv/world.dat";
        "/volumes/srv/logs"; "/volumes/srv/logs/latest.log"], None)
  /\ forall q m, reaches "/volumes/srv" deep_tree q m -> plain m ->
        In q ["/volumes/srv"; "/volumes/srv/world.dat";
              "/volumes/srv/logs"; "/volumes/srv/logs/latest.log"].
Proof.
  split; [reflexivity|].
  destruct (proj1 (proj2 (Chown_ownership jail "srv" "/volumes/srv" (Some true)
                            deep_tree _ None
                            eq_refl eq_refl (ex_intro _ _ eq_refl) (ex_intro _ _ eq_refl)
                            eq_refl)) eq_refl)
    as (walked & E & _ & _ & H).
  injection E as <-. exact (H eq_refl eq_refl).
Defined.

(** At a root that is a link [Chown] sets the owner of the resolved path and
    of nothing else, whether Stat finds a directory behind the link or not. *)
Lemma Chown_link_root :
  Chown jail "srv" (Some true) link_root = (["/volumes/srv"], None)
  /\ Chown jail "srv" (Some false) link_root = (["/volumes/srv"], None)
  /\ Chown jail "srv" None link_root = (["/volumes/srv"], None).
Proof. repeat split. Qed.

End ChownFacts.

(** ** The statistics poller *)

Section PollerFacts.
Import Stats Poller.

(** The loop publishes the samples of the live prefix, in order, after
    what was published before. *)
Lemma poll_loop_published h events : forall uptime pub warn,
  published (poll_loop h uptime events pub warn)
  = pub ++ samples h uptime (live_prefix events).
Proof.
  induction events as [|ev rest IH]; intros uptime pub warn; simpl.
  - now rewrite app_nil_r.
  - destruct ev as [err|err|v st]; simpl.
    + now rewrite app_nil_r.
    + destruct (negb (is_EOF err) && negb (Is_Canceled err)); simpl; now rewrite app_nil_r.
    + destruct (is_offline st); simpl.
      * now rewrite app_nil_r.
      * rewrite IH, <- app_assoc. reflexivity.
Qed.

(** A sample decoded when the state is Offline ends the loop as the end
    of the stream would: neither it nor anything after it is published. *)
Lemma poll_loop_cut h pre v post : forall uptime pub warn,
  poll_loop h uptime (pre ++ Decoded v Offline :: post) pub warn
  = poll_loop h uptime pre pub warn.
Proof.
  induction pre as [|ev rest IH]; intros uptime pub warn; simpl.
  - reflexivity.
  - destruct ev as [err|err|v' st]; try reflexivity.
    destruct (is_offline st); [reflexivity | apply IH].
Qed.

Lemma live_prefix_sound events v :
  In v (live_prefix events) ->
  exists st, In (Decoded v st) events /\ is_offline st = false.
Proof.
  induction events as [|ev rest IH]; simpl; [intros []|].
  destruct ev as [err|err|v' st]; try (intros []).
  destruct (is_offline st) eqn:Est; [intros []|].
  intros [<-|Hin].
  - exists st. split; [now left | exact Est].
  - destruct (IH Hin) as (st' & H1 & H2). exists st'. split; [now right | exact H2].
Qed.

Lemma samples_sound h vs : forall uptime s,
  In s (samples h uptime vs) -> exists u v, In v vs /\ s = sample_of h u v.
Proof.
  induction vs as [|v rest IH]; intros uptime s; simpl; [intros []|].
  intros [<-|Hin].
  - exists uptime, v. split; [now left | reflexivity].
  - destruct (IH _ _ Hin) as (u & v' & H1 & H2). exists u, v'. split; [now right | exact H2].
Qed.

(** C5. The poller publishes no sample once it has seen the state
    Offline. Started with the state Offline it publishes nothing and returns
    an error. Otherwise every sample it publishes was built from a reading
    after whose decoding the state was not Offline; what is published is
    exactly the samples of the readings before the first turn that ends the
    loop; and a reading decoded with the state Offline ends the run at that
    turn: the run is the one of the stream cut before that reading. *)
Theorem pollResources_silent_when_offline h e :
  (is_offline (st_at_start e) = true ->
     published (pollResources h e) = [] /\ returned (pollResources h e) <> None)
  /\ (forall s, In s (published (pollResources h e)) ->
        exists u v st, In (Decoded v st) (stream e) /\ is_offline st = false
                       /\ s = sample_of h u v)
  /\ (is_offline (st_at_start e) = false -> ContainerStats e = None ->
        published (pollResources h e)
        = samples h (fst (Uptime e)) (live_prefix (stream e)))
  /\ (forall pre v post,
        stream e = pre ++ Decoded v Offline :: post ->
        pollResources h e = pollResources h (set_stream pre e)).
Proof.
  unfold pollResources.
  split; [|split; [|split]].
  - intros ->. simpl. split; [reflexivity | discriminate].
  - intros s. destruct (is_offline (st_at_start e)); [intros []|].
    destruct (ContainerStats e); [intros []|].
    destruct (Uptime e) as [uptime err]. rewrite poll_loop_published. simpl.
    intros Hin. apply samples_sound in Hin as (u & v & Hv & ->).
    apply live_prefix_sound in Hv as (st & H1 & H2). eauto 6.
  - intros -> ->. destruct (Uptime e) as [uptime err]. now rewrite poll_loop_published.
  - intros pre v post Hst.
    assert (HU : Uptime (set_stream pre e) = Uptime e) by reflexivity.
    simpl. rewrite HU, Hst.
    destruct (is_offline (st_at_start e)); [reflexivity|].
    destruct (ContainerStats e); [reflexivity|].
    destruct (Uptime e) as [uptime err]. apply poll_loop_cut.
Qed.

(** C9. After a successful inspection: a container that is not running
    has uptime 0 and no error; a running one has the milliseconds elapsed
    since the start the runtime reports; a start time that does not parse is
    returned as an error beside the value 0, and the poller only logs it and
    goes on polling from 0. *)
Theorem Uptime_spec e ins :
  ContainerInspect e = inl ins ->
  (CRunning ins = false -> Uptime e = (0, None))
  /\ (forall started,
        CRunning ins = true -> Parse_RFC3339 e (StartedAt ins) = inl started ->
        Uptime e = (Time.Milliseconds (Time.Sub (now e) started), None))
  /\ (forall err,
        CRunning ins = true -> Parse_RFC3339 e (StartedAt ins) = inr err ->
        Uptime e
        = (0, Some (ErrWrap "environment: failed to parse container start time" err))
        /\ forall h,
             is_offline (st_at_start e) = false -> ContainerStats e = None ->
             pollResources h e
             = poll_loop h 0 (stream e) [] ["failed to calculate container uptime"]).
Proof.
  intros Hi. unfold Uptime. rewrite Hi.
  split; [|split].
  - intros ->. reflexivity.
  - intros started -> ->. reflexivity.
  - intros err Hr Hp. rewrite Hr, Hp. simpl. split; [reflexivity|].
    intros h Hs Hc. unfold pollResources, Uptime. rewrite Hs, Hc, Hi, Hr, Hp. reflexivity.
Qed.

Lemma Uptime_spec_witness :
  ContainerInspect running_env = inl (mkContainerState true "2024-05-01T10:00:00Z")
  /\ Uptime running_env = (60000, None).
Proof.
  split; [reflexivity|].
  destruct (Uptime_spec running_env _ eq_refl) as (_ & H & _).
  exact (H 63850000000000000000 eq_refl eq_refl).
Defined.
End PollerFacts.

(** * Further properties *)

Section MoreStatsFacts.
Import F64 Stats.

(** X1. The normalised memory of Variant A is never above the usage, and
    it is zero only when the usage is zero. *)
Theorem calculateDockerMemory_linux_bounds (stats : MemoryStats) :
  counters_ok stats ->
  calculateDockerMemory_linux stats <= Usage stats
  /\ (0 < Usage stats -> 0 < calculateDockerMemory_linux stats)
  /\ is_uint64 (calculateDockerMemory_linux stats).
Proof.
  intros Hok.
  pose proof (map_get_range stats "inactive_file" Hok) as Hin.
  destruct Hok as [Hu Hm]. unfold is_uint64 in *.
  unfold calculateDockerMemory_linux.
  assert (Hsub : forall v, 0 <= v < 2 ^ 64 -> v < Usage stats ->
            wrap_uint64 (Usage stats - v) = Usage stats - v).
  { intros v Hv Hlt. apply wrap_uint64_id. unfold is_uint64. lia. }
  assert (Hfall :
    let r := (let v := map_get (MStats stats) "inactive_file" in
              if v <? Usage stats then wrap_uint64 (Usage stats - v) else Usage stats) in
    r <= Usage stats /\ (0 < Usage stats -> 0 < r) /\ 0 <= r < 2 ^ 64).
  { simpl. destruct (Z.ltb_spec (map_get (MStats stats) "inactive_file") (Usage stats)).
    - rewrite Hsub by assumption. lia.
    - lia. }
  destruct (MStats stats !! "total_inactive_file") as [v|] eqn:Et; [|exact Hfall].
  pose proof (Hm _ _ Et) as Hv.
  destruct (Z.ltb_spec v (Usage stats)); [|exact Hfall].
  rewrite Hsub by assumption. lia.
Qed.

Lemma calculateDockerMemory_linux_bounds_witness :
  counters_ok memory_with_cache
  /\ calculateDockerMemory_linux memory_with_cache <= 1000.
Proof.
  split; [exact memory_with_cache_ok|].
  exact (proj1 (calculateDockerMemory_linux_bounds memory_with_cache memory_with_cache_ok)).
Defined.

(** X2. Variant B gives 0.0 for two reads less than a hundred nanoseconds
    apart, whatever the counters say: the count of intervals is a whole
    number of hundreds. *)
Theorem calculateDockerAbsoluteCpu_windows_short_interval (v : StatsJSON) :
  0 <= Time.Sub (Read v) (PreRead v) < 100 ->
  possIntervals v = 0 /\ calculateDockerAbsoluteCpu_windows v = zero.
Proof.
  intros H.
  assert (E : possIntervals v = 0).
  { unfold possIntervals, Time.Nanoseconds.
    rewrite (wrap_uint64_id (Time.Sub (Read v) (PreRead v))) by (unfold is_uint64; lia).
    rewrite Z.div_small by lia. reflexivity. }
  split; [exact E|].
  unfold calculateDockerAbsoluteCpu_windows. rewrite E. reflexivity.
Qed.

Lemma calculateDockerAbsoluteCpu_windows_short_interval_witness :
  0 <= Time.Sub (Read reading_fifty_nanoseconds) (PreRead reading_fifty_nanoseconds) < 100
  /\ calculateDockerAbsoluteCpu_windows reading_fifty_nanoseconds = zero.
Proof.
  assert (H : 0 <= Time.Sub (Read reading_fifty_nanoseconds)
                            (PreRead reading_fifty_nanoseconds) < 100)
    by (vm_compute; split; [discriminate | reflexivity]).
  split; [exact H|].
  exact (proj2 (calculateDockerAbsoluteCpu_windows_short_interval _ H)).
Defined.

Lemma Sub_lower_bound t u : min_int64 <= Time.Sub t u.
Proof. unfold Time.Sub. lia. Qed.

(** X3. The guard of Variant B does not catch a read instant that lies
    before the previous one: the negative duration wraps around in uint64,
    the count of possible intervals is above zero for up to a hundred
    processors, and the quotient is returned. *)
Theorem calculateDockerAbsoluteCpu_windows_clock_back (v : StatsJSON) :
  Time.Sub (Read v) (PreRead v) < 0 ->
  1 <= NumProcs v <= 100 ->
  possIntervals v
    = (2 ^ 64 + Time.Sub (Read v) (PreRead v)) / 100 * NumProcs v
  /\ 2 ^ 63 / 100 <= possIntervals v
  /\ calculateDockerAbsoluteCpu_windows v
     = mul (div (of_Z (intervalsUsed v)) (of_Z (possIntervals v))) (of_Z 100).
Proof.
  intros Hneg Hp.
  pose proof (Sub_lower_bound (Read v) (PreRead v)) as Hlo. unfold min_int64 in Hlo.
  set (e := Time.Sub (Read v) (PreRead v)) in *.
  assert (E0 : wrap_uint64 e = 2 ^ 64 + e).
  { unfold wrap_uint64. symmetry. apply Z.mod_unique with (-1); lia. }
  assert (E1 : wrap_uint64 (NumProcs v) = NumProcs v) by (apply wrap_uint64_id; unfold is_uint64; lia).
  assert (Hq : 2 ^ 63 / 100 <= (2 ^ 64 + e) / 100 <= (2 ^ 64 - 1) / 100).
  { split; apply Z.div_le_mono; lia. }
  assert (E : possIntervals v = (2 ^ 64 + e) / 100 * NumProcs v).
  { unfold possIntervals, Time.Nanoseconds. fold e. rewrite E0, E1.
    apply wrap_uint64_id. unfold is_uint64.
    change (2 ^ 63 / 100) with 92233720368547758 in Hq.
    change ((2 ^ 64 - 1) / 100) with 184467440737095516 in Hq.
    set (q := (2 ^ 64 + e) / 100) in *.
    assert (q * NumProcs v <= q * 100) by (apply Z.mul_le_mono_nonneg_l; lia).
    assert (0 <= q * NumProcs v) by (apply Z.mul_nonneg_nonneg; lia).
    lia. }
  split; [exact E|].
  assert (Hpos : 2 ^ 63 / 100 <= possIntervals v).
  { rewrite E. change (2 ^ 63 / 100) with 92233720368547758 in *.
    set (q := (2 ^ 64 + e) / 100) in *.
    assert (q * 1 <= q * NumProcs v) by (apply Z.mul_le_mono_nonneg_l; lia).
    lia. }
  split; [exact Hpos|].
  unfold calculateDockerAbsoluteCpu_windows.
  change (2 ^ 63 / 100) with 92233720368547758 in Hpos.
  destruct (Z.ltb_spec 0 (possIntervals v)); [reflexivity | lia].
Qed.

Lemma calculateDockerAbsoluteCpu_windows_clock_back_witness :
  Time.Sub (Read reading_clock_went_back) (PreRead reading_clock_went_back) < 0
  /\ 2 ^ 63 / 100 <= possIntervals reading_clock_went_back.
Proof.
  assert (H : Time.Sub (Read reading_clock_went_back)
                       (PreRead reading_clock_went_back) < 0) by reflexivity.
  split; [exact H|].
  refine (proj1 (proj2 (calculateDockerAbsoluteCpu_windows_clock_back _ H _))).
  vm_compute. split; discriminate.
Defined.
End MoreStatsFacts.

Lemma wrap_uint64_add_l a b : wrap_uint64 (wrap_uint64 a + b) = wrap_uint64 (a + b).
Proof. unfold wrap_uint64. apply Zplus_mod_idemp_l. Qed.


Section MorePollerFacts.
Import Stats Poller.

Lemma add_interface_swap n1 n2 acc :
  add_interface n1 (add_interface n2 acc) = add_interface n2 (add_interface n1 acc).
Proof.
  unfold add_interface. simpl. f_equal.
  - rewrite !wrap_uint64_add_l. f_equal. lia.
  - rewrite !wrap_uint64_add_l. f_equal. lia.
Qed.

(** X4. The sums over the interfaces do not depend on the order in which
    the map is walked: with no interface both are zero, and an interface
    under a new name adds its two counters, modulo 2^64, to the sums of the
    others. *)
Theorem sum_networks_insert (nets : gmap string NetworkStats) k nw :
  nets !! k = None ->
  sum_networks ∅ = mkNetStats 0 0
  /\ sum_networks (<[k := nw]> nets) = add_interface nw (sum_networks nets).
Proof.
  intros Hk. split; [reflexivity|].
  unfold sum_networks.
  rewrite (map_fold_insert_L (fun _ nw acc => add_interface nw acc)); [reflexivity| |exact Hk].
  intros j1 j2 z1 z2 y _ _ _. apply add_interface_swap.
Qed.

Lemma sum_networks_insert_witness :
  (∅ : gmap string NetworkStats) !! "eth0" = None
  /\ sum_networks (<["eth0" := mkNetworkStats 10 20]> ∅) = mkNetStats 10 20.
Proof.
  split; [reflexivity|].
  exact (proj2 (sum_networks_insert ∅ "eth0" (mkNetworkStats 10 20) eq_refl)).
Defined.

(** The loop on a stream whose first turn that does not go round again is
    [ev]. *)
Lemma poll_loop_first_stop h pre ev post : forall uptime pub warn,
  forallb goes_on pre = true -> goes_on ev = false ->
  returned (poll_loop h uptime (pre ++ ev :: post) pub warn)
  = match ev with CtxDone err => Some err | _ => None end
  /\ warnings (poll_loop h uptime (pre ++ ev :: post) pub warn)
     = warn ++ match ev with
               | DecodeFailed derr =>
                   if negb (is_EOF derr) && negb (Is_Canceled derr)
                   then ["error while processing Docker stats output for container"]
                   else []
               | _ => []
               end.
Proof.
  induction pre as [|e0 rest IH]; intros uptime pub warn Hpre Hev.
  - simpl. destruct ev as [err|derr|v st]; simpl.
    + now rewrite app_nil_r.
    + destruct (negb (is_EOF derr) && negb (Is_Canceled derr)); simpl;
        [split; reflexivity | now rewrite app_nil_r].
    + simpl in Hev. apply negb_false_iff in Hev. rewrite Hev. simpl.
      now rewrite app_nil_r.
  - simpl in Hpre. apply andb_true_iff in Hpre as [H0 Hrest].
    destruct e0 as [err|derr|v st]; simpl in H0; try discriminate.
    apply negb_true_iff in H0. simpl. rewrite H0. now apply IH.
Qed.

Lemma poll_loop_no_stop h events : forall uptime pub warn,
  forallb goes_on events = true ->
  returned (poll_loop h uptime events pub warn) = None
  /\ warnings (poll_loop h uptime events pub warn) = warn.
Proof.
  induction events as [|e0 rest IH]; intros uptime pub warn Hall.
  - split; reflexivity.
  - simpl in Hall. apply andb_true_iff in Hall as [H0 Hrest].
    destruct e0 as [err|derr|v st]; simpl in H0; try discriminate.
    apply negb_true_iff in H0. simpl. rewrite H0. now apply IH.
Qed.

(** X5. What [pollResources] returns is decided by the first turn of the
    loop that does not go round again. Started with the state Offline it
    returns its own error; when the attach to the stream fails it returns that
    error. Otherwise it returns the error of the context when that first turn
    finds the context done, and nil in every other case: when the stream
    ends, when a reading is decoded with the state Offline, and when the
    decoder fails, whatever comes behind on the stream. A decoder failure
    adds one warning unless it is io.EOF or wraps context.Canceled. *)
Theorem pollResources_error_sources h e :
  (is_offline (st_at_start e) = true ->
   returned (pollResources h e)
   = Some (ErrNew "cannot enable resource polling on a stopped server"))
  /\ (forall err,
        is_offline (st_at_start e) = false -> ContainerStats e = Some err ->
        returned (pollResources h e) = Some err)
  /\ (is_offline (st_at_start e) = false -> ContainerStats e = None ->
      let started :=
        match snd (Uptime e) with
        | Some _ => ["failed to calculate container uptime"]
        | None => []
        end in
      (forallb goes_on (stream e) = true ->
       returned (pollResources h e) = None
       /\ warnings (pollResources h e) = started)
      /\ (forall pre ev post,
            stream e = pre ++ ev :: post ->
            forallb goes_on pre = true -> goes_on ev = false ->
            returned (pollResources h e)
            = match ev with CtxDone err => Some err | _ => None end
            /\ warnings (pollResources h e)
               = started
                 ++ match ev with
                    | DecodeFailed derr =>
                        if negb (is_EOF derr) && negb (Is_Canceled derr)
                        then ["error while processing Docker stats output for container"]
                        else []
                    | _ => []
                    end)).
Proof.
  unfold pollResources. split; [|split].
  - intros ->. reflexivity.
  - intros err -> ->. reflexivity.
  - intros -> ->. destruct (Uptime e) as [uptime uerr]. cbn [snd]. split.
    + intros Hall. now apply poll_loop_no_stop.
    + intros pre ev post -> Hpre Hev. now apply poll_loop_first_stop.
Qed.

Lemma pollResources_error_sources_witness :
  returned (pollResources Windows broken_stream_env) = None
  /\ warnings (pollResources Windows broken_stream_env)
     = ["error while processing Docker stats output for container"].
Proof.
  exact (proj2 (proj2 (proj2 (pollResources_error_sources Windows broken_stream_env))
                      eq_refl eq_refl)
               [Decoded reading_counter_went_down Running]
               (DecodeFailed (ErrRuntime "unexpected end of JSON input"))
               [CtxDone ErrCanceled] eq_refl eq_refl eq_refl).
Defined.

Lemma Milliseconds_range d : is_int64 d -> is_int64 (Time.Milliseconds d).
Proof.
  unfold is_int64, Time.Milliseconds, min_int64, max_int64. intros H.
  destruct (Z.le_gt_cases 0 d) as [Hd|Hd].
  - pose proof (Z.quot_pos d 1000000 Hd ltac:(lia)).
    pose proof (Z.quot_le_upper_bound d 1000000 d ltac:(lia) ltac:(lia)). lia.
  - pose proof (Z.quot_opp_l d 1000000 ltac:(lia)) as E.
    pose proof (Z.quot_pos (- d) 1000000 ltac:(lia) ltac:(lia)).
    pose proof (Z.quot_le_upper_bound (- d) 1000000 (- d) ltac:(lia) ltac:(lia)). lia.
Qed.

Lemma Sub_range t u : is_int64 (Time.Sub t u).
Proof. unfold is_int64, Time.Sub, min_int64, max_int64. lia. Qed.

Lemma Uptime_range e : is_int64 (fst (Uptime e)).
Proof.
  assert (Z0 : is_int64 0) by (unfold is_int64, min_int64, max_int64; lia).
  unfold Uptime. destruct (ContainerInspect e) as [ins|err]; [|exact Z0].
  destruct (negb (CRunning ins)); [exact Z0|].
  destruct (Parse_RFC3339 e (StartedAt ins)); [|exact Z0].
  cbn [fst]. apply Milliseconds_range, Sub_range.
Qed.

Lemma next_uptime_span uptime v :
  next_uptime (wrap_int64 uptime) v = wrap_int64 (uptime + span_ms v).
Proof.
  unfold next_uptime, span_ms. destruct (Time.IsZero (PreRead v)); cbn [negb].
  - now rewrite Z.add_0_r.
  - apply wrap_int64_add_l.
Qed.

Lemma samples_uptime h vs : forall base i s,
  samples h (wrap_int64 base) vs !! i = Some s ->
  SUptime s = wrap_int64 (base + total_ms (take (S i) vs)).
Proof.
  induction vs as [|v rest IH]; intros base i s; [discriminate|].
  destruct i as [|i]; cbn [samples lookup list_lookup].
  - intros [= <-]. cbn [sample_of SUptime]. rewrite next_uptime_span.
    cbn [take total_ms fold_right]. rewrite take_0. cbn [fold_right].
    now rewrite Z.add_0_r.
  - rewrite next_uptime_span. intros H. rewrite (IH _ _ _ H).
    f_equal. change (take (S (S i)) (v :: rest)) with (v :: take (S i) rest).
    unfold total_ms. cbn [fold_right]. lia.
Qed.

Lemma samples_length h vs : forall uptime, length (samples h uptime vs) = length vs.
Proof. induction vs as [|v rest IH]; intros uptime; simpl; [reflexivity | now rewrite IH]. Qed.

Lemma samples_step h vs : forall uptime i s s' v',
  samples h uptime vs !! i = Some s ->
  samples h uptime vs !! S i = Some s' ->
  vs !! S i = Some v' ->
  SUptime s' = next_uptime (SUptime s) v'.
Proof.
  induction vs as [|v rest IH]; intros uptime i s s' v'; simpl; [discriminate|].
  destruct i as [|i]; simpl.
  - intros [= <-]. destruct rest as [|v1 rest]; simpl; [discriminate|].
    intros [= <-] [= <-]. reflexivity.
  - apply IH.
Qed.

(** X6. The poller publishes one sample for every reading before the first
    turn that ends the loop, and the uptime of the sample at place [i] is the
    baseline [Uptime] gave plus the milliseconds between the two read
    instants of every reading up to that place, in int64; a reading whose
    earlier instant is the zero instant adds nothing. From one sample to the
    next the uptime grows by the milliseconds of the later reading. *)
Theorem pollResources_uptime_accumulates h e :
  is_offline (st_at_start e) = false -> ContainerStats e = None ->
  length (published (pollResources h e)) = length (live_prefix (stream e))
  /\ (forall i s,
        published (pollResources h e) !! i = Some s ->
        SUptime s
        = wrap_int64 (fst (Uptime e) + total_ms (take (S i) (live_prefix (stream e)))))
  /\ (forall i s s' v',
        published (pollResources h e) !! i = Some s ->
        published (pollResources h e) !! S i = Some s' ->
        live_prefix (stream e) !! S i = Some v' ->
        (Time.IsZero (PreRead v') = true -> SUptime s' = SUptime s)
        /\ (Time.IsZero (PreRead v') = false ->
            SUptime s'
            = wrap_int64 (SUptime s
                          + Time.Milliseconds (Time.Sub (Read v') (PreRead v'))))).
Proof.
  intros Hs Hc.
  assert (E : published (pollResources h e)
              = samples h (fst (Uptime e)) (live_prefix (stream e))).
  { unfold pollResources. rewrite Hs, Hc. destruct (Uptime e) as [u err].
    now rewrite poll_loop_published. }
  rewrite E. split; [apply samples_length|]. split.
  - intros i s. rewrite <- (wrap_int64_id _ (Uptime_range e)) at 1.
    apply samples_uptime.
  - intros i s s' v' H1 H2 H3. rewrite (samples_step _ _ _ _ _ _ _ H1 H2 H3).
    unfold next_uptime. split; intros ->; reflexivity.
Qed.

Lemma pollResources_uptime_accumulates_witness :
  fst (Uptime two_readings_env) = 60000
  /\ forall s,
       published (pollResources Linux two_readings_env) !! 1%nat = Some s ->
       SUptime s = 62000.
Proof.
  split; [reflexivity|].
  intros s Hs.
  rewrite (proj1 (proj2 (pollResources_uptime_accumulates Linux two_readings_env
                           eq_refl eq_refl)) 1%nat s Hs).
  reflexivity.
Defined.

(** X7. Whatever makes [Uptime] fail, the inspection included, the value
    beside the error is 0 and the poller is not stopped by it: it logs one
    warning and polls on from 0. *)
Theorem Uptime_failure_not_fatal h e err :
  snd (Uptime e) = Some err ->
  fst (Uptime e) = 0
  /\ (is_offline (st_at_start e) = false -> ContainerStats e = None ->
      pollResources h e
      = poll_loop h 0 (stream e) [] ["failed to calculate container uptime"]).
Proof.
  intros H.
  assert (E : Uptime e = (0, Some err)).
  { revert H. unfold Uptime.
    destruct (ContainerInspect e) as [ins|ie]; simpl.
    - destruct (CRunning ins); simpl; [|discriminate].
      destruct (Parse_RFC3339 e (StartedAt ins)); simpl; [discriminate|].
      now intros [= <-].
    - now intros [= <-]. }
  rewrite E. split; [reflexivity|].
  intros Hs Hc. unfold pollResources. rewrite Hs, Hc, E. reflexivity.
Qed.

Lemma Uptime_failure_not_fatal_witness :
  snd (Uptime uninspectable_env)
    = Some (ErrWrap "environment: could not inspect container"
                    (ErrRuntime "no such container"))
  /\ length (published (pollResources Windows uninspectable_env)) = 1%nat.
Proof.
  split; [reflexivity|].
  destruct (Uptime_failure_not_fatal Windows uninspectable_env _ eq_refl) as [_ H].
  rewrite (H eq_refl eq_refl). reflexivity.
Defined.
End MorePollerFacts.

Section MoreNetworkFacts.
Import Network.

(** X8. The error of a failed construction of the client is reported by
    the call that ran the construction and by no later one: whatever the
    first call returned, every later call returns the same client, no error,
    and changes nothing; after a failed construction that is no client and no
    error. *)
Theorem Docker_later_calls w w1 c1 e1 :
  Docker w = (w1, c1, e1) ->
  Docker w1 = (w1, c1, None)
  /\ (once_done w = false -> client_constructs w = false ->
      c1 = false /\ e1 <> None).
Proof.
  unfold Docker. destruct (once_done w) eqn:Ho.
  - intros [= <- <- <-]. rewrite Ho. split; [reflexivity | discriminate].
  - intros [= <- <- <-]. simpl. split; [reflexivity|].
    intros _ ->. split; [reflexivity | discriminate].
Qed.

Lemma Docker_later_calls_witness :
  exists w1 e1,
    Docker clientless_world = (w1, false, Some e1)
    /\ Docker w1 = (w1, false, None).
Proof.
  eexists. eexists. split; [reflexivity|].
  exact (proj1 (Docker_later_calls clientless_world _ _ _ eq_refl)).
Defined.

Lemma createDockerNetwork_failure h w w' e :
  createDockerNetwork h w = (w', Some e) ->
  config w' = config w /\ networks w' = networks w
  /\ creates w' = creates w ++ [(Name (config w), create_request h (config w))].
Proof.
  unfold createDockerNetwork, NetworkCreate_call.
  destruct (reachable w); simpl; [|intros [= <- _]; auto].
  destruct (Name (config w) =? "")%string; [intros [= <- _]; auto|].
  destruct (networks w !! Name (config w)); [intros [= <- _]; auto|].
  destruct (special_driver (Driver (config w))); simpl; discriminate.
Qed.

(** X9. A call of [ConfigureDocker] that returns an error has changed
    neither the configuration nor the networks of the runtime; the only create
    it can have sent is the one that was refused. *)
Theorem ConfigureDocker_failure_keeps_config h w w' e :
  ConfigureDocker h w = (w', Failed e) ->
  config w' = config w /\ networks w' = networks w
  /\ (creates w' = creates w
      \/ creates w' = creates w ++ [(Name (config w), create_request h (config w))]).
Proof.
  unfold ConfigureDocker.
  destruct (Docker w) as [[w0 cli] err] eqn:HD.
  assert (H0 : config w0 = config w /\ networks w0 = networks w
               /\ creates w0 = creates w /\ reachable w0 = reachable w).
  { revert HD. unfold Docker. destruct (once_done w); intros [= <- _ _]; auto. }
  destruct H0 as (Hc & Hn & Hcr & Hr).
  destruct err as [e0|]; [intros [= <- _]; auto|].
  destruct cli; simpl; [|discriminate].
  unfold NetworkInspect. destruct (reachable w0); simpl.
  - destruct (networks w0 !! Name (config w0)); simpl; [discriminate|].
    destruct (createDockerNetwork h w0) as [w1 cerr] eqn:Ec.
    destruct cerr as [e'|]; [|discriminate].
    intros [= <- _].
    destruct (createDockerNetwork_failure h w0 w1 e' Ec) as (A & B & C).
    rewrite A, B, C, Hc, Hn, Hcr. auto.
  - intros [= <- _]. auto.
Qed.

Lemma ConfigureDocker_failure_keeps_config_witness :
  exists w' e,
    ConfigureDocker Linux unreachable_world = (w', Failed e)
    /\ config w' = config unreachable_world /\ creates w' = [].
Proof.
  eexists. eexists. split; [reflexivity|].
  destruct (ConfigureDocker_failure_keeps_config Linux unreachable_world _ _ eq_refl)
    as (H & _ & _).
  split; [exact H | reflexivity].
Defined.

Lemma apply_driver_idempotent r c : apply_driver r (apply_driver r c) = apply_driver r c.
Proof.
  unfold apply_driver, set_ISPN, set_Interface, set_Driver. destruct c.
  cbn [Driver Interface Dns Name ISPN Mode IsInternal EnableICC Interfaces].
  destruct (RDriver r =? "host")%string eqn:E1;
    cbn [Driver Interface Dns Name ISPN Mode IsInternal EnableICC Interfaces];
    [reflexivity|].
  destruct ((RDriver r =? "overlay")%string || (RDriver r =? "weavemesh")%string) eqn:E2;
    cbn [Driver Interface Dns Name ISPN Mode IsInternal EnableICC Interfaces];
    rewrite ?E1, ?E2; reflexivity.
Qed.

Lemma apply_driver_name r c : Name (apply_driver r c) = Name c.
Proof. destruct (apply_driver_cases r c) as (_ & H & _). exact H. Qed.

(** The found path on a world whose client is there already. *)
Lemma ConfigureDocker_present_exact h w r :
  once_done w = true -> client w = true -> reachable w = true ->
  networks w !! Name (config w) = Some r ->
  ConfigureDocker h w = (with_config (apply_driver r (config w)) w, Done).
Proof.
  intros Ho Hc Hr Hn. unfold ConfigureDocker, Docker. rewrite Ho, Hc. simpl.
  unfold NetworkInspect. rewrite Hr, Hn. reflexivity.
Qed.

Lemma ConfigureDocker_done_client h w w' :
  ConfigureDocker h w = (w', Done) -> once_done w' = true /\ client w' = true.
Proof.
  unfold ConfigureDocker.
  destruct (Docker w) as [[w0 cli] err] eqn:HD.
  assert (H0 : err = None -> cli = true -> once_done w0 = true /\ client w0 = true).
  { revert HD. unfold Docker. destruct (once_done w) eqn:Ho.
    - intros [= <- <- <-] _ Hc. auto.
    - intros [= <- <- <-]. simpl. destruct (client_constructs w); [auto | discriminate]. }
  destruct err; [discriminate|]. destruct cli; simpl; [|discriminate].
  destruct (H0 eq_refl eq_refl) as [Ho Hc].
  unfold NetworkInspect. destruct (reachable w0); simpl; [|discriminate].
  destruct (networks w0 !! Name (config w0)); simpl.
  - intros [= <-]. simpl. auto.
  - unfold createDockerNetwork, NetworkCreate_call. destruct (reachable w0); simpl; [|discriminate].
    destruct (Name (config w0) =? "")%string; [discriminate|].
    destruct (networks w0 !! Name (config w0)); [discriminate|].
    destruct (special_driver (Driver (config w0))); simpl; intros [= <-]; simpl; auto.
Qed.

(** After one successful call on a world with the network in place, a
    further call changes nothing. *)
Lemma ConfigureDocker_settled h w r w1 :
  client_ready w = true -> reachable w = true ->
  networks w !! Name (config w) = Some r ->
  ConfigureDocker h w = (w1, Done) ->
  ConfigureDocker h w1 = (w1, Done).
Proof.
  intros Hc Hr Hn E.
  destruct (ConfigureDocker_present h w r Hc Hr Hn) as (w' & E' & _ & Hr' & Hn' & _ & Hcf).
  rewrite E in E'. injection E' as <-.
  destruct (ConfigureDocker_done_client h w w1 E) as [Ho1 Hc1].
  assert (Hn1 : networks w1 !! Name (config w1) = Some r).
  { rewrite Hcf, apply_driver_name, Hn'. exact Hn. }
  rewrite (ConfigureDocker_present_exact h w1 r Ho1 Hc1 Hr' Hn1).
  rewrite Hcf, apply_driver_idempotent, <- Hcf.
  destruct w1; reflexivity.
Qed.

(** X10. The bootstrap settles after two calls: whether the network was
    there or had to be created, after two successful calls one after the
    other a third call changes nothing at all. *)
Theorem ConfigureDocker_settles_after_two h w :
  client_ready w = true -> reachable w = true -> Name (config w) <> "" ->
  exists w2,
    ConfigureDocker_twice h w = (w2, Done, Done)
    /\ ConfigureDocker h w2 = (w2, Done).
Proof.
  intros Hc Hr Hne.
  destruct (networks w !! Name (config w)) as [r|] eqn:Hn.
  - destruct (ConfigureDocker_present h w r Hc Hr Hn) as (w1 & E1 & Hc1 & Hr1 & Hn1 & _ & Hcf1).
    assert (Hs : ConfigureDocker h w1 = (w1, Done))
      by exact (ConfigureDocker_settled h w r w1 Hc Hr Hn E1).
    exists w1. unfold ConfigureDocker_twice. rewrite E1, Hs. auto.
  - destruct (ConfigureDocker_missing h w Hc Hr Hne Hn)
      as (w1 & E1 & Hc1 & Hr1 & _ & Hnets1 & Hname1 & _).
    assert (Hfound : networks w1 !! Name (config w1)
                     = Some (mkResource (Name (config w))
                               (if (Driver (config w) =? "")%string
                                then default_driver w else Driver (config w)))).
    { rewrite Hname1, Hnets1. apply lookup_insert_eq. }
    destruct (ConfigureDocker_present h w1 _ Hc1 Hr1 Hfound) as (w2 & E2 & _).
    exists w2. unfold ConfigureDocker_twice. rewrite E1, E2. split; [reflexivity|].
    exact (ConfigureDocker_settled h w1 _ w2 Hc1 Hr1 Hfound E2).
Qed.

Lemma ConfigureDocker_settles_after_two_witness :
  Name (config fresh_world) <> ""
  /\ exists w2, ConfigureDocker_twice Windows fresh_world = (w2, Done, Done)
                /\ ConfigureDocker Windows w2 = (w2, Done).
Proof.
  split; [exact fresh_world_named|].
  exact (ConfigureDocker_settles_after_two Windows fresh_world eq_refl eq_refl
           fresh_world_named).
Defined.

(** X11. The empty driver the create path leaves in the configuration is
    repaired by the next call: after two calls from a runtime without the
    network, the configured driver is the one the network was created with,
    and the settings of that driver are in force. *)
Theorem ConfigureDocker_second_call_repairs_driver h w :
  client_ready w = true -> reachable w = true -> Name (config w) <> "" ->
  networks w !! Name (config w) = None ->
  let d := if (Driver (config w) =? "")%string then default_driver w
           else Driver (config w) in
  exists w2,
    ConfigureDocker_twice h w = (w2, Done, Done)
    /\ networks w2 !! Name (config w2) = Some (mkResource (Name (config w)) d)
    /\ Driver (config w2) = d
    /\ (d = "host" -> Interface (config w2) = "127.0.0.1" /\ ISPN (config w2) = false)
    /\ (d = "overlay" \/ d = "weavemesh" ->
        Interface (config w2) = "" /\ ISPN (config w2) = true).
Proof.
  intros Hc Hr Hne Hn d.
  destruct (ConfigureDocker_missing h w Hc Hr Hne Hn)
    as (w1 & E1 & Hc1 & Hr1 & _ & Hnets1 & Hname1 & _).
  assert (Hfound : networks w1 !! Name (config w1) = Some (mkResource (Name (config w)) d)).
  { rewrite Hname1, Hnets1. apply lookup_insert_eq. }
  destruct (ConfigureDocker_present h w1 _ Hc1 Hr1 Hfound)
    as (w2 & E2 & _ & _ & Hn2 & _ & Hcf2).
  exists w2. unfold ConfigureDocker_twice. rewrite E1, E2. split; [reflexivity|].
  destruct (apply_driver_cases (mkResource (Name (config w)) d) (config w1))
    as (A & B & _ & C & D & _).
  rewrite Hcf2, Hn2, B. simpl in A, C, D. auto.
Qed.

Lemma ConfigureDocker_second_call_repairs_driver_witness :
  networks fresh_world !! Name (config fresh_world) = None
  /\ exists w2, ConfigureDocker_twice Windows fresh_world = (w2, Done, Done)
                /\ Driver (config w2) = "nat".
Proof.
  split; [reflexivity|].
  destruct (ConfigureDocker_second_call_repairs_driver Windows fresh_world
              eq_refl eq_refl fresh_world_named eq_refl) as (w2 & E & _ & H & _).
  exists w2. split; [exact E | exact H].
Defined.

(** X12. After the create path the advertised interface is the configured
    v4 gateway, unless the driver is host, overlay or weavemesh, for which the
    interface is left as it was configured; the name of the network is never
    changed. *)
Theorem ConfigureDocker_create_path_interface h w :
  client_ready w = true -> reachable w = true -> Name (config w) <> "" ->
  networks w !! Name (config w) = None ->
  exists w',
    ConfigureDocker h w = (w', Done)
    /\ Name (config w') = Name (config w)
    /\ (Driver (config w) <> "host" -> Driver (config w) <> "overlay" ->
        Driver (config w) <> "weavemesh" ->
        Interface (config w') = Gateway (V4 (Interfaces (config w))))
    /\ (Driver (config w) = "host" \/ Driver (config w) = "overlay"
        \/ Driver (config w) = "weavemesh" ->
        Interface (config w') = Interface (config w)).
Proof.
  intros Hc Hr Hne Hn.
  destruct (ConfigureDocker_missing h w Hc Hr Hne Hn)
    as (w' & E & _ & _ & _ & _ & Hname & _ & _ & Hi).
  exists w'. split; [exact E|]. split; [exact Hname|].
  rewrite Hi. unfold special_driver. split.
  - intros H1 H2 H3.
    destruct (String.eqb_spec (Driver (config w)) "host"); [contradiction|].
    destruct (String.eqb_spec (Driver (config w)) "overlay"); [contradiction|].
    destruct (String.eqb_spec (Driver (config w)) "weavemesh"); [contradiction|].
    reflexivity.
  - intros [H|[H|H]]; rewrite H; reflexivity.
Qed.

Lemma ConfigureDocker_create_path_interface_witness :
  networks fresh_world !! Name (config fresh_world) = None
  /\ exists w', ConfigureDocker Linux fresh_world = (w', Done)
                /\ Interface (config w') = "172.18.0.1".
Proof.
  split; [reflexivity|].
  destruct (ConfigureDocker_create_path_interface Linux fresh_world
              eq_refl eq_refl fresh_world_named eq_refl) as (w' & E & _ & H & _).
  exists w'. split; [exact E|]. apply H; discriminate.
Defined.
End MoreNetworkFacts.

Section MoreFilesystemFacts.
Import Filesystem.

(** X13. On a root that is not a directory the two builds part: the one
    on godirwalk refuses to walk and returns an error with size 0, the one on
    filepath.Walk returns the size of that one entry and no error. *)
Theorem DirectorySize_of_a_file fs dir d root :
  SafePath fs dir = inl d ->
  is_dir (dirent root) = false ->
  DirectorySize Linux fs dir root
    = (0, Some (Wrap "server/filesystem: directorysize: failed to walk directory"
                     (NotADirectory d)))
  /\ DirectorySize Windows fs dir root = (wrap_int64 (lsize (dirent root)), None).
Proof.
  intros Hs Hd. destruct root as [e ch]. simpl in Hd. split.
  - unfold DirectorySize, DirectorySize_linux, Walk. rewrite Hs. simpl. rewrite Hd. reflexivity.
  - unfold DirectorySize, DirectorySize_windows. rewrite Hs. simpl. rewrite Hd. simpl.
    unfold size_walkFn. rewrite ?Hd. reflexivity.
Qed.

Lemma DirectorySize_of_a_file_witness :
  SafePath jail "srv" = inl "/volumes/srv"
  /\ DirectorySize Windows jail "srv" file_root = (250, None).
Proof.
  split; [reflexivity|].
  exact (proj2 (DirectorySize_of_a_file jail "srv" "/volumes/srv" file_root eq_refl eq_refl)).
Defined.

Lemma dirent_prune n : dirent (prune_links n) = dirent n.
Proof. destruct n as [d ch]. simpl. destruct (is_symlink d); reflexivity. Qed.

(** godirwalk never looks below a link, whatever the callback. *)
Lemma walk_prune {S : Type} (cb : string -> Dirent -> S -> S * cb_result) :
  (forall n p s, walk cb p (prune_links n) s = walk cb p n s)
  /\ (forall f p s, walk_children cb p (prune_forest f) s = walk_children cb p f s).
Proof.
  apply tree_ind.
  - intros d ch IH p s. simpl. destruct (is_symlink d) eqn:Hl; simpl.
    + destruct (cb p d s) as [s1 r]. destruct r; try reflexivity. rewrite Hl. reflexivity.
    + destruct (cb p d s) as [s1 r]. destruct r; try reflexivity. rewrite Hl.
      destruct (negb (is_dir d)); [reflexivity|].
      destruct (negb (readable d)); [reflexivity|]. apply IH.
  - reflexivity.
  - intros n IHn rest IHrest p s. simpl. rewrite dirent_prune, IHn.
    destruct (walk cb (Join p (name (dirent n))) n s) as [s1 r].
    destruct r; try reflexivity; apply IHrest.
Qed.

(** filepath.Walk does not either, as long as no link carries the
    directory bit. *)
Lemma fwalk_prune {S : Type}
    (fn : string -> Dirent -> option fs_error -> S -> S * option fs_error) :
  (forall n p s, no_dir_links n = true -> fwalk fn p (prune_links n) s = fwalk fn p n s)
  /\ (forall f p s, no_dir_links_forest f = true ->
        fwalk_children fn p (prune_forest f) s = fwalk_children fn p f s).
Proof.
  apply tree_ind.
  - intros d ch IH p s. simpl. destruct (is_symlink d) eqn:Hl; simpl.
    + intros Hd. apply negb_true_iff in Hd. rewrite Hd. reflexivity.
    + intros Hc. destruct (negb (is_dir d)); [reflexivity|].
      destruct (fn p d (if readable d then None else Some (IOError p)) s) as [s1 e1].
      destruct (readable d); [|reflexivity]. destruct e1; [reflexivity|]. now apply IH.
  - reflexivity.
  - intros n IHn rest IHrest p s. simpl. intros H. apply andb_true_iff in H as [H1 H2].
    rewrite dirent_prune, IHn by assumption.
    destruct (fwalk fn (Join p (name (dirent n))) n s) as [s1 e].
    destruct e; [reflexivity|]. now apply IHrest.
Qed.

(** X14. Nothing below a link is ever looked at: [DirectorySize] on
    godirwalk and [Chown] give the same result on a tree and on that tree
    with everything below its links cut off, and so does [DirectorySize] on
    filepath.Walk when no link carries the directory bit. *)
Theorem links_never_followed fs path stat root :
  DirectorySize Linux fs path (prune_links root) = DirectorySize Linux fs path root
  /\ Chown fs path stat (prune_links root) = Chown fs path stat root
  /\ (no_dir_links root = true ->
      DirectorySize Windows fs path (prune_links root)
      = DirectorySize Windows fs path root).
Proof.
  split; [|split].
  - unfold DirectorySize, DirectorySize_linux, Walk.
    destruct (SafePath fs path); [|reflexivity].
    rewrite dirent_prune, (proj1 (walk_prune (size_callback fs))). reflexivity.
  - unfold Chown, Walk.
    destruct (SafePath fs path); [|reflexivity].
    destruct (isTest fs); [reflexivity|].
    destruct (uSid fs); [|reflexivity]. destruct (gSid fs); [|reflexivity].
    destruct (set_owner fs s [] ) as [o [e|]]; [reflexivity|].
    destruct stat as [[|]|]; try reflexivity. cbn [orb negb].
    rewrite dirent_prune, (proj1 (walk_prune (chown_callback fs))). reflexivity.
  - intros H. unfold DirectorySize, DirectorySize_windows.
    destruct (SafePath fs path); [|reflexivity].
    rewrite (proj1 (fwalk_prune size_walkFn)) by assumption. reflexivity.
Qed.
End MoreFilesystemFacts.

Section BuildsAgree.
Import Filesystem.








End BuildsAgree.

Section ChownErrors.
Import Filesystem.

Lemma nothing_refused_child fs p d ch c :
  is_dir d = true -> is_symlink d = false ->
  nothing_refused fs p (Node d ch) -> In_forest c ch ->
  nothing_refused fs (Join p (name (dirent c))) c.
Proof.
  intros Hd Hl H Hin q m Hr Hm. apply (H q m); [|exact Hm].
  eapply reaches_down; eassumption.
Qed.

(** The walk of [Chown] logs only changes that were not refused. *)
Lemma chown_walk_granted fs :
  (forall n p owned owned' r,
     walk (chown_callback fs) p n owned = (owned', r) ->
     forall q, In q owned' -> In q owned \/ denied fs q = false)
  /\ (forall f p owned owned' r,
     walk_children (chown_callback fs) p f owned = (owned', r) ->
     forall q, In q owned' -> In q owned \/ denied fs q = false).
Proof.
  apply tree_ind.
  - intros d ch IH p owned owned' r. simpl. unfold chown_callback, set_owner.
    destruct (is_symlink d).
    { destruct (is_dir d); intros [= <- _]; auto. }
    destruct (denied fs p) eqn:Hden; [intros [= <- _]; auto|].
    assert (Hp : forall q, In q (owned ++ [p]) -> In q owned \/ denied fs q = false).
    { intros q Hq. apply in_app_or in Hq as [Hq|[<-|[]]]; auto. }
    destruct (negb (is_dir d)); [intros [= <- _]; exact Hp|].
    destruct (negb (readable d)); [intros [= <- _]; exact Hp|].
    intros H q Hq. destruct (IH _ _ _ _ H q Hq) as [Hq'|Hq']; auto.
  - intros p owned owned' r [= <- _]. auto.
  - intros n IHn rest IHrest p owned owned' r. simpl.
    destruct (walk (chown_callback fs) (Join p (name (dirent n))) n owned) as [s1 r1] eqn:E1.
    assert (H1 : forall q, In q s1 -> In q owned \/ denied fs q = false)
      by (eapply IHn; eassumption).
    assert (Hgo : walk_children (chown_callback fs) p rest s1 = (owned', r) ->
                  forall q, In q owned' -> In q owned \/ denied fs q = false).
    { intros H q Hq. destruct (IHrest _ _ _ _ H q Hq) as [Hq'|Hq']; auto. }
    destruct r1; try exact Hgo. intros [= <- _]. exact H1.
Qed.

(** With nothing refused the walk of [Chown] does not end in an error. *)
Lemma chown_walk_succeeds fs :
  (forall n p owned,
     nothing_refused fs p n ->
     forall e, snd (walk (chown_callback fs) p n owned) <> CbErr e)
  /\ (forall f p owned,
     (forall c, In_forest c f -> nothing_refused fs (Join p (name (dirent c))) c) ->
     forall e, snd (walk_children (chown_callback fs) p f owned) <> CbErr e).
Proof.
  apply tree_ind.
  - intros d ch IH p owned Hn e. simpl. unfold chown_callback, set_owner.
    destruct (is_symlink d) eqn:Hl.
    { destruct (is_dir d); simpl; rewrite ?Hl; discriminate. }
    destruct (Hn p (Node d ch) (reaches_here _ _) Hl) as [Hden Hread]. simpl in Hread.
    rewrite Hden. rewrite ?Hl.
    destruct (is_dir d) eqn:Hd; simpl; [|discriminate].
    rewrite (Hread eq_refl). simpl.
    apply IH. intros c Hc. eapply nothing_refused_child; eassumption.
  - intros p owned _ e. discriminate.
  - intros n IHn rest IHrest p owned Hn e. simpl.
    pose proof (IHn (Join p (name (dirent n))) owned (Hn n (in_head _ _))) as H1.
    destruct (walk (chown_callback fs) (Join p (name (dirent n))) n owned) as [s1 r1].
    simpl in H1.
    assert (Hgo : snd (walk_children (chown_callback fs) p rest s1) <> CbErr e).
    { apply IHrest. intros c Hc. apply Hn. now constructor. }
    destruct r1 as [| |e1]; try exact Hgo. exfalso. eapply H1. reflexivity.
Qed.

(** X16. A refused change of owner is never swallowed. Past its checks,
    on a root that is not a link and of which Stat reports a directory
    exactly when it is one, [Chown] returns nil exactly when nothing was
    refused: if it returns nil, no entry it reaches outside the links is one
    whose owner cannot be changed; and if no such entry is refused and every
    directory reached can be listed, it returns nil. *)
Theorem Chown_nil_iff_nothing_refused fs path cleaned stat root :
  SafePath fs path = inl cleaned ->
  isTest fs = false ->
  (exists u, uSid fs = inl u) -> (exists g, gSid fs = inl g) ->
  is_symlink (dirent root) = false ->
  (stat = Some true <-> is_dir (dirent root) = true) ->
  (snd (Chown fs path stat root) = None ->
   forall q m, reaches cleaned root q m -> plain m -> denied fs q = false)
  /\ (nothing_refused fs cleaned root -> snd (Chown fs path stat root) = None).
Proof.
  intros Hs Ht [u Hu] [g Hg] Hroot Hstat. unfold Chown. rewrite Hs, Ht, Hu, Hg.
  assert (Hearly : (match stat with None => true | Some _ => false end
                    || negb match stat with Some b => b | None => false end)
                   = negb (is_dir (dirent root))).
  { destruct (is_dir (dirent root)).
    - rewrite (proj2 Hstat eq_refl). reflexivity.
    - destruct stat as [[|]|]; try reflexivity.
      pose proof (proj1 Hstat eq_refl). discriminate. }
  cbv zeta. rewrite Hearly. clear Hearly Hstat.
  unfold set_owner. simpl.
  assert (Hself : reaches cleaned root cleaned root /\ plain root).
  { split; [constructor | exact Hroot]. }
  split.
  - destruct (denied fs cleaned) eqn:Hden; [discriminate|].
    destruct (is_dir (dirent root)) eqn:Hd; simpl.
    + unfold Walk. rewrite Hd. simpl.
      destruct (walk (chown_callback fs) cleaned root [cleaned]) as [o r] eqn:Ew.
      destruct (proj1 (chown_walk_log fs) _ _ _ _ _ Ew) as (added & -> & _ & Hcomplete).
      intros Hnil q m Hr Hp.
      assert (Hne : forall e, r <> CbErr e) by (destruct r; simpl in Hnil; discriminate).
      pose proof (Hcomplete Hne q m Hr Hp) as Hin.
      destruct (proj1 (chown_walk_granted fs) _ _ _ _ _ Ew q
                  (in_or_app _ _ _ (or_intror Hin))) as [[<-|[]]|Hq]; assumption.
    + intros _ q m Hr _. destruct root as [d ch]. simpl in Hd.
      apply (reaches_file_only_itself _ _ _ _ _ Hd) in Hr as [_ ->]. exact Hden.
  - intros Hn. destruct (Hn cleaned root (proj1 Hself) (proj2 Hself)) as [Hden _].
    rewrite Hden. destruct (is_dir (dirent root)) eqn:Hd; simpl; [|reflexivity].
    unfold Walk. rewrite Hd. simpl.
    pose proof (proj1 (chown_walk_succeeds fs) root cleaned [cleaned] Hn) as Hok.
    destruct (walk (chown_callback fs) cleaned root [cleaned]) as [o r]. simpl in Hok.
    destruct r as [| |e]; try reflexivity. exfalso. eapply Hok. reflexivity.
Qed.

Lemma Chown_nil_iff_nothing_refused_witness :
  snd (Chown locked_jail "srv" (Some true) linked_tree) <> None
  /\ ~ nothing_refused locked_jail "/volumes/srv" linked_tree.
Proof.
  split; [vm_compute; discriminate|].
  intros H.
  pose proof (proj2 (Chown_nil_iff_nothing_refused locked_jail "srv" "/volumes/srv"
                       (Some true) linked_tree eq_refl eq_refl
                       (ex_intro _ _ eq_refl) (ex_intro _ _ eq_refl) eq_refl
                       (conj (fun _ => eq_refl) (fun _ => eq_refl))) H) as Hnil.
  vm_compute in Hnil. discriminate Hnil.
Defined.
End ChownErrors.

Section BindingsFacts.
Import Bindings.

(** X17. [getDockerBindingsForWindows] keeps every port with as many
    bindings as it had, keeps the host port of each binding in its place, and
    leaves no binding with a host address; applying it twice is applying it
    once. *)
Theorem getDockerBindingsForWindows_spec (m : gmap string (list PortBinding)) :
  (forall p, getDockerBindingsForWindows m !! p = None <-> m !! p = None)
  /\ (forall p binds',
        getDockerBindingsForWindows m !! p = Some binds' ->
        exists binds,
          m !! p = Some binds /\ length binds' = length binds
          /\ forall (i : nat) b', binds' !! i = Some b' ->
               HostIP b' = ""
               /\ exists b, binds !! i = Some b /\ HostPort b' = HostPort b)
  /\ getDockerBindingsForWindows (getDockerBindingsForWindows m)
     = getDockerBindingsForWindows m.
Proof.
  unfold getDockerBindingsForWindows. split; [|split].
  - intros p. rewrite lookup_fmap. destruct (m !! p); simpl; split; congruence.
  - intros p binds'. rewrite lookup_fmap. destruct (m !! p) as [binds|]; simpl; [|discriminate].
    intros [= <-]. exists binds. split; [reflexivity|]. split; [apply length_map|].
    intros i b'. rewrite list_lookup_fmap. destruct (binds !! i) as [b|]; simpl; [|discriminate].
    intros [= <-]. split; [reflexivity|]. exists b. split; reflexivity.
  - rewrite <- map_fmap_compose. apply map_fmap_ext. intros p binds _. simpl.
    rewrite map_map. apply map_ext. intros b. reflexivity.
Qed.
End BindingsFacts.

Section ConfigFacts.
Import Config.

Lemma Set_in_step c g : jwt_in_step g -> jwt_in_step (Set_ c g).
Proof.
  unfold jwt_in_step, Set_. destruct (_config g) as [old|]; simpl; [|reflexivity].
  intros H. destruct (String.eqb_spec (AuthenticationToken (settings old))
                                      (AuthenticationToken (settings c))) as [E|_]; simpl.
  - now rewrite H, E.
  - reflexivity.
Qed.

(** X18. As long as nothing but [Set], [SetDebugViaFlag] and [FromFile]
    has written the configuration, the algorithm in memory is keyed by the
    token of the configuration in memory: each of the three keeps that, and
    after [Set] the key is the token of the new configuration. *)
Theorem Set_keeps_jwt_in_step (c : Configuration) (g : Globals) :
  jwt_in_step g ->
  jwt_in_step (Set_ c g)
  /\ GetJwtAlgorithm (Set_ c g) = Some (AuthenticationToken (settings c))
  /\ (forall d g', SetDebugViaFlag d g = Some g' -> jwt_in_step g')
  /\ (forall x p dsk, jwt_in_step (fst (FromFile x p g dsk))).
Proof.
  intros H. split; [now apply Set_in_step|]. split; [|split].
  - pose proof (Set_in_step c g H) as H'. unfold jwt_in_step in H'. exact H'.
  - intros d g'. unfold SetDebugViaFlag, jwt_in_step in *.
    destruct (_config g) as [c0|]; [|discriminate]. intros [= <-]. simpl. exact H.
  - intros x p dsk. unfold FromFile.
    destruct (ReadFile x dsk p); [|exact H].
    destruct (NewAtPath x p); [|exact H].
    destruct (Unmarshal x s (settings c0)); [|exact H].
    simpl. now apply Set_in_step.
Qed.

Lemma Set_keeps_jwt_in_step_witness :
  jwt_in_step fresh_globals
  /\ GetJwtAlgorithm
       (Set_ (mkConfiguration "C:\config.yml" (mkSettings false "" "" "" "secret" ""))
             fresh_globals) = Some "secret".
Proof.
  split; [exact I|].
  refine (proj1 (proj2 (Set_keeps_jwt_in_step _ fresh_globals I))).
Defined.

(** X19. [Set] renews the algorithm only when the token differs from the
    one in memory. So when a callback of [Update] has changed the token, a
    [Set] of a configuration with that same new token leaves the algorithm
    keyed by the old token. *)
Theorem Update_then_Set_keeps_old_key (f : Configuration -> Configuration)
    (c0 c : Configuration) (g g1 : Globals) :
  _config g = Some c0 -> jwt_in_step g ->
  AuthenticationToken (settings (f c0)) = AuthenticationToken (settings c) ->
  Update f g = Some g1 ->
  GetJwtAlgorithm (Set_ c g1) = Some (AuthenticationToken (settings c0))
  /\ Get (Set_ c g1) = Some c.
Proof.
  intros Hc Hin Ht. unfold Update. rewrite Hc. intros [= <-].
  unfold jwt_in_step in Hin. rewrite Hc in Hin.
  unfold Set_, GetJwtAlgorithm, Get. simpl. rewrite Ht, String.eqb_refl. simpl.
  split; [exact Hin | reflexivity].
Qed.

Lemma Update_then_Set_keeps_old_key_witness :
  GetJwtAlgorithm
    (Set_ new_config (mkGlobals (Some new_config) (Some "old") false)) = Some "old"
  /\ Get (Set_ new_config (mkGlobals (Some new_config) (Some "old") false))
     = Some new_config.
Proof.
  exact (Update_then_Set_keeps_old_key (fun _ => new_config) old_config new_config
           (Set_ old_config fresh_globals) _ eq_refl eq_refl eq_refl eq_refl).
Defined.

End ConfigFacts.

Section InitConfigFacts.
Import Config.

Lemma FromFile_failure x p g dsk g' e :
  FromFile x p g dsk = (g', Some e) -> g' = g.
Proof.
  unfold FromFile.
  destruct (ReadFile x dsk p); [|now intros [= <- _]].
  destruct (NewAtPath x p); [|now intros [= <- _]].
  destruct (Unmarshal x s (settings c)); [discriminate | now intros [= <- _]].
Qed.

Lemma FromFile_success x p g dsk g' :
  FromFile x p g dsk = (g', None) ->
  exists b s0 s,
    dsk !! p = Some b /\ defaults_Set x = inl s0 /\ Unmarshal x b s0 = inl s
    /\ g' = Set_ (mkConfiguration p s) g.
Proof.
  unfold FromFile, ReadFile, NewAtPath.
  destruct (dsk !! p) as [b|]; [|discriminate].
  destruct (unreadable x p); [discriminate|].
  destruct (defaults_Set x) as [s0|]; [|discriminate]. simpl.
  destruct (Unmarshal x b s0) as [s|] eqn:E; [|discriminate].
  intros [= <-]. exists b, s0, s. repeat split; assumption.
Qed.

Lemma set_Debug_same c : set_Debug (Debug (settings c)) c = c.
Proof. destruct c as [p []]. reflexivity. Qed.

Lemma apply_debug_flag_spec (q : Process) (c : Configuration) :
  Get (globals q) = Some c ->
  exists q',
    apply_debug_flag q = (q', Returned)
    /\ Get (globals q') = Some (set_Debug (Debug (settings c) || debug q) c)
    /\ _debugViaFlag (globals q')
       = (debug q && negb (Debug (settings c))) || _debugViaFlag (globals q)
    /\ disk q' = disk q /\ configPath q' = configPath q /\ debug q' = debug q.
Proof.
  intros Hc. unfold apply_debug_flag. rewrite Hc.
  destruct (debug q && negb (Debug (settings c))) eqn:E.
  - apply andb_true_iff in E as [Ed En]. apply negb_true_iff in En.
    unfold SetDebugViaFlag. unfold Get in Hc. rewrite Hc.
    eexists. split; [reflexivity|]. cbn. rewrite Ed, En.
    repeat split; reflexivity.
  - exists q. split; [reflexivity|]. split.
    + replace (Debug (settings c) || debug q) with (Debug (settings c)).
      * rewrite set_Debug_same. exact Hc.
      * destruct (debug q), (Debug (settings c)); try reflexivity; discriminate.
    + repeat split; reflexivity.
Qed.

(** What [initConfig] does once it has named the file to read. *)
Lemma initConfig_cases (h : host) (x : Externals) (p : Process) :
  (exists e, initConfig h x p = (p, Fatal e))
  \/ exists p1,
       disk p1 = disk p /\ globals p1 = globals p /\ debug p1 = debug p
       /\ ((exists e, initConfig h x p = (p1, Fatal e))
           \/ initConfig h x p = (p1, ExitedWithNotice)
           \/ exists g pth,
                fst (FromFile x pth (globals p) (disk p)) = g
                /\ snd (FromFile x pth (globals p) (disk p)) = None
                /\ initConfig h x p
                   = apply_debug_flag (mkProcess g (disk p) (configPath p1) (debug p))).
Proof.
  unfold initConfig.
  destruct (negb (is_absolute h (configPath p))).
  - destruct (Getwd x) as [d|e] eqn:Ew; [|left; eauto].
    right. exists (mkProcess (globals p) (disk p) (JoinClean x d (configPath p)) (debug p)).
    split; [reflexivity|]. split; [reflexivity|]. split; [reflexivity|].
    cbn [globals disk configPath debug].
    destruct (FromFile x (JoinClean x d (configPath p)) (globals p) (disk p))
      as [g1 [e1|]] eqn:E1.
    + apply FromFile_failure in E1 as ->.
      destruct (FromFile x (JoinClean x d "config.yml") (globals p) (disk p))
        as [g2 [e2|]] eqn:E2.
      * destruct (Is_NotExist e2); [right; left; reflexivity | left; eauto].
      * right; right. exists g2, (JoinClean x d "config.yml"). rewrite E2. auto.
    + right; right. exists g1, (JoinClean x d (configPath p)). rewrite E1. auto.
  - right. exists p. split; [reflexivity|]. split; [reflexivity|]. split; [reflexivity|].
    destruct (FromFile x (configPath p) (globals p) (disk p)) as [g1 [e1|]] eqn:E1.
    + apply FromFile_failure in E1 as ->.
      destruct (Getwd x) as [d|e] eqn:Ew; [|left; eauto].
      destruct (FromFile x (JoinClean x d "config.yml") (globals p) (disk p))
        as [g2 [e2|]] eqn:E2.
      * destruct (Is_NotExist e2); [right; left; reflexivity | left; eauto].
      * right; right. exists g2, (JoinClean x d "config.yml"). rewrite E2.
        destruct p; auto.
    + right; right. exists g1, (configPath p). rewrite E1. destruct p; auto.
Qed.

(** X20. [initConfig] never reaches the write through the nil pointer of
    [SetDebugViaFlag]: on either build it ends by returning, by a fatal log
    line or by the notice, and when it returns a configuration is set. *)
Theorem initConfig_never_panics (h : host) (x : Externals) (p : Process) :
  snd (initConfig h x p) <> Panicked
  /\ (snd (initConfig h x p) = Returned ->
      Get (globals (fst (initConfig h x p))) <> None).
Proof.
  destruct (initConfig_cases h x p) as [[e ->] | (p1 & _ & _ & _ & [[e ->] | [-> | H]])];
    try (simpl; split; [discriminate | intros; discriminate]).
  destruct H as (g & pth & Hg & He & ->).
  destruct (FromFile x pth (globals p) (disk p)) as [g' err] eqn:E. simpl in Hg, He. subst.
  apply FromFile_success in E as (b & s0 & s & _ & _ & _ & ->).
  destruct (apply_debug_flag_spec
              (mkProcess (Set_ (mkConfiguration pth s) (globals p)) (disk p)
                         (configPath p1) (debug p))
              (mkConfiguration pth s) eq_refl) as (q' & -> & Hq & _).
  simpl. split; [discriminate|]. intros _. rewrite Hq. discriminate.
Qed.

(** X21. In a process whose debug mode has not been set by the flag before,
    after [initConfig] has returned the configuration in memory is the one
    read from a file of the disk with the defaults under it, with the debug
    field raised when the flag is; the disk is untouched; and [WriteToDisk] of
    the configuration in memory writes what it would write for the one read,
    so a debug mode that comes from the flag is never stored. *)
Theorem initConfig_flag_not_persisted (h : host) (x : Externals) (p p' : Process) :
  _debugViaFlag (globals p) = false ->
  initConfig h x p = (p', Returned) ->
  exists loaded b s0,
    disk p !! path loaded = Some b
    /\ defaults_Set x = inl s0
    /\ Unmarshal x b s0 = inl (settings loaded)
    /\ Get (globals p')
       = Some (set_Debug (Debug (settings loaded) || debug p) loaded)
    /\ disk p' = disk p
    /\ forall c dsk,
         Get (globals p') = Some c ->
         WriteToDisk x c (globals p') dsk = WriteToDisk x loaded fresh_globals dsk.
Proof.
  intros Hflag Hrun.
  destruct (initConfig_cases h x p) as [[e He] | (p1 & _ & _ & _ & [[e He] | [He | H]])];
    try (rewrite He in Hrun; discriminate).
  destruct H as (g & pth & Hg & He & Hrun').
  destruct (FromFile x pth (globals p) (disk p)) as [g' err] eqn:E. simpl in Hg, He. subst.
  apply FromFile_success in E as (b & s0 & s & Hb & Hs0 & Hs & ->).
  destruct (apply_debug_flag_spec
              (mkProcess (Set_ (mkConfiguration pth s) (globals p)) (disk p)
                         (configPath p1) (debug p))
              (mkConfiguration pth s) eq_refl) as (q' & Hq & Hget & Hfl & Hd & _).
  rewrite Hrun' in Hrun. rewrite Hq in Hrun. injection Hrun as <-.
  cbn [globals disk debug settings Set_ _debugViaFlag] in Hget, Hfl, Hd.
  rewrite Hflag, orb_false_r in Hfl.
  exists (mkConfiguration pth s), b, s0. cbn [path settings].
  split; [exact Hb|]. split; [exact Hs0|]. split; [exact Hs|].
  split; [exact Hget|]. split; [exact Hd|].
  intros c dsk Hc. rewrite Hget in Hc. injection Hc as <-.
  unfold WriteToDisk. rewrite Hfl. cbn [fresh_globals _debugViaFlag].
  destruct s as [D a u ti t pl]. cbn [settings Debug].
  destruct (debug p), D; reflexivity.
Qed.

Lemma initConfig_flag_not_persisted_witness :
  exists loaded b s0,
    disk debug_process !! path loaded = Some b
    /\ defaults_Set plain_externals = inl s0
    /\ Unmarshal plain_externals b s0 = inl (settings loaded)
    /\ Get (globals (fst (initConfig Windows plain_externals debug_process)))
       = Some (set_Debug (Debug (settings loaded) || debug debug_process) loaded)
    /\ disk (fst (initConfig Windows plain_externals debug_process)) = disk debug_process
    /\ forall c dsk,
         Get (globals (fst (initConfig Windows plain_externals debug_process))) = Some c ->
         WriteToDisk plain_externals c
           (globals (fst (initConfig Windows plain_externals debug_process))) dsk
         = WriteToDisk plain_externals loaded fresh_globals dsk.
Proof.
  apply (initConfig_flag_not_persisted Windows plain_externals debug_process
           (fst (initConfig Windows plain_externals debug_process)));
    [reflexivity | vm_compute; reflexivity].
Defined.

(** X22. The error of the first [FromFile] is never looked at, whatever it
    is: when the working directory is known, the outcome is decided by the
    file [config.yml] of the working directory alone. If that one loads,
    [initConfig] returns with it in memory; if it does not, its own error
    chooses between the notice and the fatal log line. *)
Theorem initConfig_first_error_dropped (h : host) (x : Externals) (p : Process)
    (d : string) (e1 : error) :
  Getwd x = inl d ->
  snd (FromFile x (if is_absolute h (configPath p) then configPath p
                   else JoinClean x d (configPath p))
                (globals p) (disk p)) = Some e1 ->
  match FromFile x (JoinClean x d "config.yml") (globals p) (disk p) with
  | (_, Some e2) =>
      snd (initConfig h x p) = if Is_NotExist e2 then ExitedWithNotice else Fatal e2
  | (g2, None) =>
      snd (initConfig h x p) = Returned
      /\ exists c,
           Get g2 = Some c /\ path c = JoinClean x d "config.yml"
           /\ Get (globals (fst (initConfig h x p)))
              = Some (set_Debug (Debug (settings c) || debug p) c)
  end.
Proof.
  intros Hw H1. unfold initConfig. rewrite Hw.
  destruct (is_absolute h (configPath p)); cbn [negb globals disk configPath debug].
  - destruct (FromFile x (configPath p) (globals p) (disk p)) as [g1 err] eqn:E1.
    simpl in H1. subst err. apply FromFile_failure in E1 as ->.
    destruct (FromFile x (JoinClean x d "config.yml") (globals p) (disk p))
      as [g2 [e2|]] eqn:E2.
    + destruct (Is_NotExist e2); reflexivity.
    + apply FromFile_success in E2 as (b & s0 & s & _ & _ & _ & ->).
      destruct (apply_debug_flag_spec
                  (mkProcess (Set_ (mkConfiguration (JoinClean x d "config.yml") s) (globals p))
                             (disk p) (configPath p) (debug p))
                  (mkConfiguration (JoinClean x d "config.yml") s) eq_refl)
        as (q' & -> & Hq & _).
      split; [reflexivity|]. eexists. split; [reflexivity|]. split; [reflexivity|].
      exact Hq.
  - destruct (FromFile x (JoinClean x d (configPath p)) (globals p) (disk p))
      as [g1 err] eqn:E1.
    simpl in H1. subst err. apply FromFile_failure in E1 as ->.
    destruct (FromFile x (JoinClean x d "config.yml") (globals p) (disk p))
      as [g2 [e2|]] eqn:E2.
    + destruct (Is_NotExist e2); reflexivity.
    + apply FromFile_success in E2 as (b & s0 & s & _ & _ & _ & ->).
      destruct (apply_debug_flag_spec
                  (mkProcess (Set_ (mkConfiguration (JoinClean x d "config.yml") s) (globals p))
                             (disk p) (JoinClean x d (configPath p)) (debug p))
                  (mkConfiguration (JoinClean x d "config.yml") s) eq_refl)
        as (q' & -> & Hq & _).
      split; [reflexivity|]. eexists. split; [reflexivity|]. split; [reflexivity|].
      exact Hq.
Qed.

Lemma initConfig_first_error_dropped_witness :
  snd (initConfig Windows plain_externals broken_process) = Returned
  /\ exists c,
       Get (fst (FromFile plain_externals "C:\wings/config.yml"
                          (globals broken_process) (disk broken_process))) = Some c
       /\ path c = "C:\wings/config.yml"
       /\ Get (globals (fst (initConfig Windows plain_externals broken_process)))
          = Some (set_Debug (Debug (settings c) || debug broken_process) c).
Proof.
  exact (initConfig_first_error_dropped Windows plain_externals broken_process
           "C:\wings" (ErrYaml "EOF") eq_refl eq_refl).
Defined.

Lemma drive_at_line_start_no_feed (s : string) :
  has_line_feed s = false -> drive_at_line_start false s = false.
Proof.
  induction s as [|c rest IH]; [reflexivity|].
  cbn [has_line_feed drive_at_line_start andb orb].
  intros H. apply orb_false_elim in H as [-> H]. now apply IH.
Qed.

Lemma drive_here_feed (c : ascii) (s : string) :
  Ascii.eqb c "010"%char = true -> drive_here (String c s) = false.
Proof.
  intros H. apply Ascii.eqb_eq in H as ->. destruct s as [|a [|b s]]; reflexivity.
Qed.

Lemma drive_here_append (s t : string) :
  drive_here (s +:+ String "010"%char t) = drive_here s.
Proof.
  destruct s as [|a [|b [|c s]]].
  - apply drive_here_feed. reflexivity.
  - destruct t; [reflexivity|]. cbv [drive_here String.append].
    change (Ascii.eqb "010"%char ":"%char) with false.
    now rewrite andb_false_r.
  - cbv [drive_here String.append].
    change (Ascii.eqb "010"%char "\"%char) with false.
    apply andb_false_r.
  - reflexivity.
Qed.

Lemma drive_at_line_start_append (a : bool) (s t : string) :
  has_line_feed s = false ->
  drive_at_line_start a (s +:+ String "010"%char t)
  = (a && drive_here s) || drive_at_line_start true t.
Proof.
  revert a. induction s as [|c rest IH]; intros a H.
  - change ("" +:+ String "010"%char t) with (String "010"%char t).
    cbn [drive_at_line_start].
    rewrite (drive_here_feed "010"%char t eq_refl).
    change (Ascii.eqb "010"%char "010"%char) with true.
    change (drive_here "") with false.
    now rewrite !andb_false_r.
  - cbn [has_line_feed] in H. apply orb_false_elim in H as [Hc H].
    change (String c rest +:+ String "010"%char t)
      with (String c (rest +:+ String "010"%char t)).
    cbn [drive_at_line_start]. rewrite Hc, (IH false H). cbn [andb orb].
    f_equal. f_equal.
    change (String c (rest +:+ String "010"%char t))
      with (String c rest +:+ String "010"%char t).
    apply drive_here_append.
Qed.

(** X23. The test of the second build for an absolute path is made line by
    line: for a text with no line feed it says whether the text starts with a
    letter, a colon and a backslash, and a text that goes on behind a line
    feed passes as soon as its first line or what follows does. *)
Theorem PathValidation_lines (s t : string) :
  has_line_feed s = false ->
  PathValidation s = drive_here s
  /\ PathValidation (s +:+ String "010"%char t) = drive_here s || PathValidation t.
Proof.
  intros H. unfold PathValidation. split.
  - destruct s as [|c rest]; [reflexivity|].
    cbn [drive_at_line_start andb]. cbn [has_line_feed] in H.
    apply orb_false_elim in H as [Hc H].
    rewrite Hc, (drive_at_line_start_no_feed rest H). apply orb_false_r.
  - now rewrite drive_at_line_start_append.
Qed.

Lemma PathValidation_lines_witness :
  PathValidation "C:/etc/config.yml" = drive_here "C:/etc/config.yml"
  /\ PathValidation ("C:/etc/config.yml" +:+ String "010"%char "D:\x")
     = drive_here "C:/etc/config.yml" || PathValidation "D:\x".
Proof.
  exact (PathValidation_lines "C:/etc/config.yml" "D:\x" eq_refl).
Defined.

End InitConfigFacts.

Section TimezoneFacts.
Import Timezone.

Lemma sanitise_allowed (t : list Z) :
  Forall (fun r => allowed r = true) (sanitise t).
Proof.
  unfold sanitise. induction t as [|r t IH]; simpl; [constructor|].
  destruct (allowed r) eqn:E; [constructor; assumption | assumption].
Qed.

Lemma sanitise_fixed (t : list Z) :
  Forall (fun r => allowed r = true) t -> sanitise t = t.
Proof.
  unfold sanitise. induction 1 as [|r t Hr _ IH]; simpl; [reflexivity|].
  now rewrite Hr, IH.
Qed.

Lemma sanitise_nothing (t : list Z) :
  Forall (fun r => allowed r = false) t -> sanitise t = [].
Proof.
  unfold sanitise. induction 1 as [|r t Hr _ IH]; simpl; [reflexivity|].
  now rewrite Hr.
Qed.

Lemma allowed_not_dot (r : Z) : allowed r = true -> (r =? 46) = false.
Proof.
  unfold allowed. intros H. destruct (Z.eqb_spec r 46) as [->|]; [discriminate | reflexivity].
Qed.

Lemma allowed_no_dots (t : list Z) :
  Forall (fun r => allowed r = true) t -> containsDotDot t = false.
Proof.
  induction 1 as [|r t Hr Ht IH]; [reflexivity|].
  cbn [containsDotDot]. destruct t as [|b t']; [reflexivity|].
  rewrite (allowed_not_dot r Hr). exact IH.
Qed.

Lemma ConfigureTimezone_shape (h : Host) (t : list Z) :
  exists src,
    ConfigureTimezone h t = (sanitise src, LoadLocation h (sanitise src))
    /\ (t <> [] -> src = t).
Proof.
  unfold ConfigureTimezone. eexists. split; [reflexivity|].
  intros Ht. rewrite (bool_decide_eq_false_2 _ Ht). simpl.
  now rewrite (bool_decide_eq_false_2 _ Ht).
Qed.

(** X24. What [ConfigureTimezone] leaves in the field holds only letters
    of the class of the pattern, the underscore and the slash; and when it is
    not empty, calling the function again leaves the same field and returns
    the same error, whatever the variable TZ and the local zone are. *)
Theorem ConfigureTimezone_settles (h : Host) (t : list Z) :
  fst (ConfigureTimezone h t) <> [] ->
  Forall (fun r => allowed r = true) (fst (ConfigureTimezone h t))
  /\ forall h',
       zone_known h' = zone_known h ->
       ConfigureTimezone h' (fst (ConfigureTimezone h t)) = ConfigureTimezone h t.
Proof.
  destruct (ConfigureTimezone_shape h t) as (src & -> & _). cbn [fst].
  intros Hne. split; [apply sanitise_allowed|].
  intros h' Hk.
  destruct (ConfigureTimezone_shape h' (sanitise src)) as (src' & -> & Hs).
  rewrite (Hs Hne), (sanitise_fixed _ (sanitise_allowed src)).
  unfold LoadLocation. now rewrite Hk.
Qed.

Lemma ConfigureTimezone_settles_witness :
  Forall (fun r => allowed r = true)
         (fst (ConfigureTimezone paris_host (runes "Europe/Paris 2024")))
  /\ forall h',
       zone_known h' = zone_known paris_host ->
       ConfigureTimezone h' (fst (ConfigureTimezone paris_host (runes "Europe/Paris 2024")))
       = ConfigureTimezone paris_host (runes "Europe/Paris 2024").
Proof.
  apply (ConfigureTimezone_settles paris_host (runes "Europe/Paris 2024")).
  vm_compute. discriminate.
Defined.

(** X25. A configured timezone that is not empty but holds no rune of the
    class, an offset in digits for one, is emptied and then accepted: the
    function returns no error, whatever the zone database holds, and leaves
    the empty field that the next call fills from TZ or the local zone. *)
Theorem ConfigureTimezone_no_letters (h : Host) (t : list Z) :
  t <> [] ->
  Forall (fun r => allowed r = false) t ->
  ConfigureTimezone h t = ([], None)
  /\ ConfigureTimezone h (fst (ConfigureTimezone h t)) = ConfigureTimezone h [].
Proof.
  intros Hne Hno.
  destruct (ConfigureTimezone_shape h t) as (src & E & Hs).
  rewrite (Hs Hne), (sanitise_nothing t Hno) in E.
  rewrite E. split; reflexivity.
Qed.

Lemma ConfigureTimezone_no_letters_witness :
  ConfigureTimezone paris_host (runes "+02:00") = ([], None)
  /\ ConfigureTimezone paris_host (fst (ConfigureTimezone paris_host (runes "+02:00")))
     = ConfigureTimezone paris_host [].
Proof.
  apply (ConfigureTimezone_no_letters paris_host (runes "+02:00")).
  - vm_compute. discriminate.
  - vm_compute. repeat constructor.
Defined.

(** X26. The error of [ConfigureTimezone] has two sources only: the field
    it leaves starts with a slash, or the zone database does not hold it. The
    guards of [LoadLocation] against two dots in a row and against a leading
    backslash are never met, the pattern having removed both. *)
Theorem ConfigureTimezone_errors (h : Host) (t : list Z) (e : error) :
  snd (ConfigureTimezone h t) = Some e ->
  (e = errLocation /\ exists rest, fst (ConfigureTimezone h t) = 47 :: rest)
  \/ (e = ErrUnknownZone (fst (ConfigureTimezone h t))
      /\ zone_known h (fst (ConfigureTimezone h t)) = false).
Proof.
  destruct (ConfigureTimezone_shape h t) as (src & -> & _). cbn [fst snd].
  pose proof (sanitise_allowed src) as Ha.
  unfold LoadLocation. rewrite (allowed_no_dots _ Ha).
  destruct (bool_decide (sanitise src = []) || bool_decide (sanitise src = runes "UTC"));
    [discriminate|].
  destruct (bool_decide (sanitise src = runes "Local")); [discriminate|].
  destruct (sanitise src) as [|c rest] eqn:Es; cbn [orb].
  - destruct (zone_known h []) eqn:Ek; [discriminate|].
    intros [= <-]. right. split; reflexivity || assumption.
  - inversion Ha as [|? ? Hc _]; subst.
    assert ((c =? 92) = false) as ->.
    { unfold allowed in Hc. destruct (Z.eqb_spec c 92) as [->|]; [discriminate | reflexivity]. }
    rewrite orb_false_r. destruct (Z.eqb_spec c 47) as [->|].
    + intros [= <-]. left. split; [reflexivity | eauto].
    + destruct (zone_known h (c :: rest)) eqn:Ek; [discriminate|].
      intros [= <-]. right. split; reflexivity || assumption.
Qed.

Lemma ConfigureTimezone_errors_witness :
  (ErrUnknownZone (runes "Mars/Olympus") = errLocation
   /\ exists rest, fst (ConfigureTimezone paris_host (runes "Mars/Olympus")) = 47 :: rest)
  \/ (ErrUnknownZone (runes "Mars/Olympus")
      = ErrUnknownZone (fst (ConfigureTimezone paris_host (runes "Mars/Olympus")))
      /\ zone_known paris_host (fst (ConfigureTimezone paris_host (runes "Mars/Olympus")))
         = false).
Proof.
  apply (ConfigureTimezone_errors paris_host (runes "Mars/Olympus")).
  vm_compute. reflexivity.
Defined.

End TimezoneFacts.

Section UserFacts.
Import User.

Lemma Split_cons (sep : ascii) (s : string) :
  exists piece pieces, Split sep s = piece :: pieces.
Proof.
  induction s as [|c rest (p & ps & IH)]; [eexists _, _; reflexivity|].
  cbn [Split]. destruct (Ascii.eqb c sep); [eexists _, _; reflexivity|].
  rewrite IH. eexists _, _; reflexivity.
Qed.

Lemma Split_app (sep : ascii) (s t : string) :
  Split sep (String.append s (String sep t)) = Split sep s ++ Split sep t.
Proof.
  induction s as [|c rest IH].
  - cbv [String.append]. cbn [Split]. now rewrite Ascii.eqb_refl.
  - change (String.append (String c rest) (String sep t))
      with (String c (String.append rest (String sep t))).
    cbn [Split]. rewrite IH.
    destruct (Ascii.eqb c sep); [reflexivity|].
    destruct (Split_cons sep rest) as (p & ps & ->). reflexivity.
Qed.

Lemma Split_whole (sep : ascii) (s : string) :
  occurs sep s = false -> Split sep s = [s].
Proof.
  induction s as [|c rest IH]; [reflexivity|].
  cbn [occurs Split]. intros H. apply orb_false_elim in H as [-> H].
  now rewrite (IH H).
Qed.

Lemma Split_more (sep : ascii) (s : string) :
  occurs sep s = true -> (2 <= length (Split sep s))%nat.
Proof.
  induction s as [|c rest IH]; [discriminate|].
  cbn [occurs Split]. destruct (Ascii.eqb c sep); cbn [orb].
  - intros _. destruct (Split_cons sep rest) as (p & ps & ->). simpl. lia.
  - intros H. specialize (IH H).
    destruct (Split_cons sep rest) as (p & ps & E). rewrite E in *. exact IH.
Qed.

(** X27. When the configured name is found, no command is run, and the
    name of the account decides: a name with no backslash makes the index 1
    of its pieces fall out of range, so the function panics; a name made of a
    domain, a backslash and a name stores that last name with the identifiers
    of the account. *)
Theorem EnsurePterodactylUser_found (h : Host) (w : World) (u : User) :
  Lookup h w (SUsername (system w)) = inl u ->
  (occurs "\"%char (Username u) = false -> EnsurePterodactylUser h w = (w, Panicked))
  /\ (forall d n,
        Username u = String.append d (String "\"%char n) ->
        occurs "\"%char d = false -> occurs "\"%char n = false ->
        EnsurePterodactylUser h w
        = (mkWorld (accounts w) (execs w) (mkSystem n (Uid u) (Gid u)), Done None)).
Proof.
  intros Hl. unfold EnsurePterodactylUser, getSystemName.
  change (("" =? "distroless")%string) with false. cbv iota. rewrite Hl.
  unfold adopt. split.
  - intros Hno. now rewrite (Split_whole _ _ Hno).
  - intros d n -> Hd Hn.
    now rewrite Split_app, (Split_whole _ _ Hd), (Split_whole _ _ Hn).
Qed.

Lemma EnsurePterodactylUser_found_witness :
  (occurs "\"%char "Papa" = false ->
   EnsurePterodactylUser plain_host bare_machine = (bare_machine, Panicked))
  /\ (forall d n,
        "Papa" = String.append d (String "\"%char n) ->
        occurs "\"%char d = false -> occurs "\"%char n = false ->
        EnsurePterodactylUser plain_host bare_machine
        = (mkWorld (accounts bare_machine) (execs bare_machine)
                   (mkSystem n "1000" "1000"), Done None)).
Proof.
  exact (EnsurePterodactylUser_found plain_host bare_machine
           (mkUser "Papa" "1000" "1000") eq_refl).
Defined.

(** X28. When the configured name is unknown, one command is run, [net]
    with the arguments [user], the pieces of the name between its spaces, and
    [/add]: four words in all exactly when the name holds no space. When that
    command fails, its error is returned and the configuration is as it
    was. *)
Theorem EnsurePterodactylUser_net_user (h : Host) (w : World) :
  Lookup h w (SUsername (system w)) = inr ERROR_NONE_MAPPED ->
  let argv := "net" :: "user" :: Split " "%char (SUsername (system w)) ++ ["/add"] in
  execs (fst (EnsurePterodactylUser h w)) = execs w ++ [argv]
  /\ (occurs " "%char (SUsername (system w)) = false ->
      argv = ["net"; "user"; SUsername (system w); "/add"])
  /\ (occurs " "%char (SUsername (system w)) = true -> (4 < length argv)%nat)
  /\ (forall e,
        snd (run h argv (accounts w)) = Some e ->
        snd (EnsurePterodactylUser h w) = Done (Some e)
        /\ system (fst (EnsurePterodactylUser h w)) = system w).
Proof.
  intros Hl argv.
  assert (Hrun : EnsurePterodactylUser h w
                 = let w1 := mkWorld (fst (run h argv (accounts w)))
                                     (execs w ++ [argv]) (system w) in
                   match snd (run h argv (accounts w)) with
                   | Some e1 => (w1, Done (Some e1))
                   | None =>
                       match Lookup h w1 (SUsername (system w)) with
                       | inr e2 => (w1, Done (Some e2))
                       | inl u => adopt u w1
                       end
                   end).
  { unfold EnsurePterodactylUser, getSystemName.
    change (("" =? "distroless")%string) with false. cbv iota. rewrite Hl.
    cbn [is_none_mapped negb].
    change (String.append "net user " (String.append (SUsername (system w)) " /add"))
      with (String.append "net" (String " "%char
              (String.append "user" (String " "%char
                 (String.append (SUsername (system w)) (String " "%char "/add")))))).
    rewrite !Split_app.
    change (Split " "%char "net") with ["net"].
    change (Split " "%char "user") with ["user"].
    change (Split " "%char "/add") with ["/add"].
    change (["net"] ++ ["user"] ++ Split " "%char (SUsername (system w)) ++ ["/add"])
      with ("net" :: "user" :: Split " "%char (SUsername (system w)) ++ ["/add"]).
    cbv iota. fold argv.
    unfold Output. destruct (run h argv (accounts w)) as [acc [e1|]]; reflexivity. }
  rewrite Hrun. cbv zeta. split; [|split; [|split]].
  - destruct (snd (run h argv (accounts w))) as [e1|]; [reflexivity|].
    match goal with
    | |- context [match Lookup ?a ?b ?c with _ => _ end] =>
        destruct (Lookup a b c) as [u|e2]; [|reflexivity]
    end.
    unfold adopt. destruct (Split "\"%char (Username u) !! 1%nat); reflexivity.
  - intros Hno. unfold argv. now rewrite (Split_whole _ _ Hno).
  - intros Hsp. apply Split_more in Hsp. unfold argv.
    cbn [length]. rewrite length_app. cbn [length]. lia.
  - intros e ->. split; reflexivity.
Qed.

Lemma EnsurePterodactylUser_net_user_witness :
  execs (fst (EnsurePterodactylUser plain_host new_machine))
  = execs new_machine ++ [["net"; "user"; "Papa"; "/add"]].
Proof.
  exact (proj1 (EnsurePterodactylUser_net_user plain_host new_machine eq_refl)).
Defined.

(** X29. On this build the name of the system is never the one of the
    container image, so the three variables WINGS_USERNAME, WINGS_UID and
    WINGS_GID are never read: two machines that differ in their environment
    only end alike. *)
Theorem EnsurePterodactylUser_ignores_environment (h h' : Host) (w : World) :
  (forall name, lookup_fails h name = lookup_fails h' name) ->
  (forall argv acc, run h argv acc = run h' argv acc) ->
  EnsurePterodactylUser h w = EnsurePterodactylUser h' w.
Proof.
  intros Hf Hr.
  assert (HL : forall w0 name, Lookup h w0 name = Lookup h' w0 name).
  { intros w0 name. unfold Lookup. now rewrite Hf. }
  unfold EnsurePterodactylUser, getSystemName.
  change (("" =? "distroless")%string) with false. cbv iota.
  rewrite HL. destruct (Lookup h' w (SUsername (system w))) as [u|e]; [reflexivity|].
  destruct (negb (is_none_mapped e)); [reflexivity|].
  destruct (Split " "%char _) as [|prog args]; [reflexivity|].
  unfold Output. rewrite Hr.
  destruct (run h' (prog :: args) (accounts w)) as [acc [e1|]]; [reflexivity|].
  now rewrite HL.
Qed.

Lemma EnsurePterodactylUser_ignores_environment_witness :
  EnsurePterodactylUser plain_host new_machine
  = EnsurePterodactylUser container_host new_machine.
Proof.
  apply EnsurePterodactylUser_ignores_environment; intros; reflexivity.
Defined.

End UserFacts.
